(** * Outline extraction of [process_pdfs.py]: a shallow embedding

    The development follows [src/process_pdfs.py] stage by stage:
    text helpers and the regular expressions the source uses, the line
    normaliser ([clean_text], the colon rule of
    [extract_all_text_with_font_tags]), the font hierarchy tagger
    ([tag_by_font_hierarchy]), the heading classifier
    ([is_actual_heading]), de-duplication ([remove_duplicate_headings]),
    the vertical grouper ([group_vertical_headings]) and the driver
    ([process_pdf]: level counts, breakpoint, filter, title).

    The input of the model is the document as the page parser returns
    it ([Document]: the metadata title and the pages with their text
    boxes, lines and glyphs); a file that the parser cannot read is not
    modelled.  Of the functions that [process_pdf] never calls,
    [is_probable_field_label] and [cluster_font_sizes] are in [Unused];
    [is_heading], [extract_font_sizes], [extract_title],
    [is_incomplete_heading], [extract_lines_with_features] and [main]
    are left out.

    Modelling conventions.
    - Python [str] values are [string]s of 8-bit characters.  The
      character classes of Python ([str.islower], [\d], [\w], [\s], ...)
      are given on the ASCII range, where the model is exact; the two
      non-ASCII literals of the source (the bullet and the copyright
      sign) stand as their UTF-8 byte sequences.
    - Python [float] values are rationals ([Q]) compared with the boolean
      tests of [QArith]; rounding of floating point is not modelled.
    - [None] is [None]; a dict with fixed keys is a record; a key that a
      dict may lack ([x0] of a merged heading) is an [option] field.
    - Level names ["H1"], ["H2"], ... and the sentinel ["H_body"] are the
      constructors [H n] and [H_body]; [f"H{i}"] is [H i] and
      [int(level[1:])] is [level_index], which fails on [H_body].
    - An exception is [None] in the [option] monad. *)

From Stdlib Require Import QArith Qabs Lqa Ascii String List Permutation Sorted Lia Bool
  Arith.
From stdpp Require Import base option list gmap strings.
Import ListNotations.

Local Open Scope string_scope.

(** ** Characters *)

Module Chars.

Definition code (c : ascii) : nat := nat_of_ascii c.

Definition between (lo hi : nat) (c : ascii) : bool :=
  Nat.leb lo (code c) && Nat.leb (code c) hi.

(** [c.isdigit()], [\d] *)
Definition is_digit : ascii -> bool := between 48 57.
(** [c.islower()], [[a-z]] *)
Definition is_lower : ascii -> bool := between 97 122.
(** [c.isupper()], [[A-Z]] *)
Definition is_upper : ascii -> bool := between 65 90.
(** [[a-zA-Z]] *)
Definition is_alpha (c : ascii) : bool := is_lower c || is_upper c.
(** [c.isspace()], [\s]: tab, line feed, vertical tab, form feed,
    carriage return, the four separators 0x1c-0x1f and the space. *)
Definition is_space (c : ascii) : bool :=
  between 9 13 c || between 28 31 c || Nat.eqb (code c) 32.
(** [\w] *)
Definition is_word (c : ascii) : bool :=
  is_alpha c || is_digit c || Nat.eqb (code c) 95.

(** [c.lower()] *)
Definition to_lower (c : ascii) : ascii :=
  if is_upper c then ascii_of_nat (code c + 32) else c.

Definition eqc (a : ascii) (c : ascii) : bool := Ascii.eqb a c.

End Chars.

(** ** Strings *)

Module Str.
Import Chars.

Definition is_empty (s : string) : bool :=
  match s with EmptyString => true | String _ _ => false end.

(** Truth value of a string: [if s]. *)
Definition truthy (s : string) : bool := negb (is_empty s).

(** [s.lstrip()] *)
Fixpoint lstrip (s : string) : string :=
  match s with
  | EmptyString => EmptyString
  | String c s' => if is_space c then lstrip s' else s
  end.

(** [s.rstrip()] *)
Fixpoint rstrip (s : string) : string :=
  match s with
  | EmptyString => EmptyString
  | String c s' =>
      match rstrip s' with
      | EmptyString => if is_space c then EmptyString else String c EmptyString
      | r => String c r
      end
  end.

(** [s.strip()] *)
Definition strip (s : string) : string := rstrip (lstrip s).

(** [s.lower()] *)
Fixpoint lower (s : string) : string :=
  match s with
  | EmptyString => EmptyString
  | String c s' => String (to_lower c) (lower s')
  end.

Fixpoint forallb (p : ascii -> bool) (s : string) : bool :=
  match s with
  | EmptyString => true
  | String c s' => p c && forallb p s'
  end.

Fixpoint existsb (p : ascii -> bool) (s : string) : bool :=
  match s with
  | EmptyString => false
  | String c s' => p c || existsb p s'
  end.

(** [s.isupper()]: some cased character, and no lower-case one. *)
Definition isupper (s : string) : bool :=
  existsb is_upper s && negb (existsb is_lower s).

(** [s.isspace()]: not empty, white space only. *)
Definition isspace (s : string) : bool :=
  truthy s && forallb is_space s.

(** [s.startswith(p)] *)
Definition startswith (p s : string) : bool := String.prefix p s.

(** [s.endswith(p)] *)
Fixpoint endswith (p s : string) : bool :=
  String.eqb p s ||
  match s with
  | EmptyString => false
  | String _ s' => endswith p s'
  end.

(** [p in s] *)
Fixpoint contains (p s : string) : bool :=
  String.prefix p s ||
  match s with
  | EmptyString => false
  | String _ s' => contains p s'
  end.

(** [c in s] for a single character *)
Definition has_char (a : ascii) (s : string) : bool := existsb (eqc a) s.

(** [s.count(c)] for a single character *)
Fixpoint count_char (a : ascii) (s : string) : nat :=
  match s with
  | EmptyString => 0
  | String c s' => (if eqc a c then 1 else 0) + count_char a s'
  end.

(** [s.index(c)] for a single character; [None] is the [ValueError]. *)
Fixpoint index_char (a : ascii) (s : string) : option nat :=
  match s with
  | EmptyString => None
  | String c s' => if eqc a c then Some 0 else S <$> index_char a s'
  end.

(** [s[:n]] *)
Fixpoint take (n : nat) (s : string) : string :=
  match n, s with
  | S n', String c s' => String c (take n' s')
  | _, _ => EmptyString
  end.

(** [s.split(c)[0]] for a single character: the text before the first [c]. *)
Fixpoint before_char (a : ascii) (s : string) : string :=
  match s with
  | EmptyString => EmptyString
  | String c s' => if eqc a c then EmptyString else String c (before_char a s')
  end.

(** [s.split()]: the maximal runs of non-space characters. [cur] is the
    run being read. *)
Fixpoint split_from (cur : string) (s : string) : list string :=
  match s with
  | EmptyString => if is_empty cur then [] else [cur]
  | String c s' =>
      if is_space c
      then (if is_empty cur then split_from EmptyString s'
            else cur :: split_from EmptyString s')
      else split_from (cur ++ String c EmptyString) s'
  end.

Definition split (s : string) : list string := split_from EmptyString s.

(** [sep.join(l)] *)
Fixpoint join (sep : string) (l : list string) : string :=
  match l with
  | [] => EmptyString
  | [s] => s
  | s :: l' => s ++ sep ++ join sep l'
  end.

(** [''.join(l)] *)
Definition concat_all (l : list string) : string := join EmptyString l.

End Str.

(** ** Regular expressions

    The patterns of the source have no back-references and no
    look-around, so [re.fullmatch], [re.match] and [re.search] return a
    match exactly when the subject, a prefix of it, or a factor of it
    belongs to the language of the pattern.  Membership is decided with
    derivatives. *)

Module Re.
Import Chars.

Inductive regex : Type :=
| Void
| Eps
| Cls (p : ascii -> bool)
| Cat (r1 r2 : regex)
| Alt (r1 r2 : regex)
| Star (r : regex).

Fixpoint nullable (r : regex) : bool :=
  match r with
  | Void => false
  | Eps => true
  | Cls _ => false
  | Cat r1 r2 => nullable r1 && nullable r2
  | Alt r1 r2 => nullable r1 || nullable r2
  | Star _ => true
  end.

Fixpoint deriv (c : ascii) (r : regex) : regex :=
  match r with
  | Void => Void
  | Eps => Void
  | Cls p => if p c then Eps else Void
  | Cat r1 r2 =>
      if nullable r1
      then Alt (Cat (deriv c r1) r2) (deriv c r2)
      else Cat (deriv c r1) r2
  | Alt r1 r2 => Alt (deriv c r1) (deriv c r2)
  | Star r1 => Cat (deriv c r1) (Star r1)
  end.

Fixpoint accepts (r : regex) (s : string) : bool :=
  match s with
  | EmptyString => nullable r
  | String c s' => accepts (deriv c r) s'
  end.

(** Pattern notation of the source. *)
Definition any : regex := Cls (fun _ => true).
Definition chr (a : ascii) : regex := Cls (eqc a).
Definition plus (r : regex) : regex := Cat r (Star r).        (* r+ *)
Definition opt (r : regex) : regex := Alt r Eps.              (* r? *)
Fixpoint lit (s : string) : regex :=                          (* literal text *)
  match s with
  | EmptyString => Eps
  | String c s' => Cat (chr c) (lit s')
  end.
Fixpoint alts (l : list regex) : regex :=                     (* r1|r2|... *)
  match l with
  | [] => Void
  | [r] => r
  | r :: l' => Alt r (alts l')
  end.
Fixpoint cats (l : list regex) : regex :=                     (* r1 r2 ... *)
  match l with
  | [] => Eps
  | r :: l' => Cat r (cats l')
  end.
Fixpoint exactly (n : nat) (r : regex) : regex :=             (* r{n} *)
  match n with
  | 0 => Eps
  | S n' => Cat r (exactly n' r)
  end.
Fixpoint upto (n : nat) (r : regex) : regex :=                (* r{0,n} *)
  match n with
  | 0 => Eps
  | S n' => opt (Cat r (upto n' r))
  end.
Definition rep (lo hi : nat) (r : regex) : regex :=           (* r{lo,hi} *)
  Cat (exactly lo r) (upto (hi - lo) r).

(** [$]: the end of the subject, or the line feed that ends it. *)
Definition dollar : regex := opt (chr "010"%char).

(** [re.fullmatch(r, s) is not None] *)
Definition fullmatch (r : regex) (s : string) : bool := accepts r s.
(** [re.match('^' + r + '$', s) is not None] *)
Definition match_to_end (r : regex) (s : string) : bool :=
  accepts (Cat r dollar) s.
(** [re.search(r, s) is not None] *)
Definition search (r : regex) (s : string) : bool :=
  accepts (Cat (Star any) (Cat r (Star any))) s.

End Re.

(** ** Numbers *)

Module Num.

(** [a <= b], [a < b], [a > b] on floats *)
Definition leb (a b : Q) : bool := Qle_bool a b.
Definition ltb (a b : Q) : bool := negb (Qle_bool b a).
Definition gtb (a b : Q) : bool := ltb b a.

(** [abs(a - b)] *)
Definition dist (a b : Q) : Q := Qabs (a - b).

(** Truth value of an optional number: [None] and [0.0] are false. *)
Definition truthy (o : option Q) : bool :=
  match o with
  | Some q => negb (Qeq_bool q 0)
  | None => false
  end.

(** [sum(l)] *)
Definition sum (l : list Q) : Q := fold_left Qplus l 0%Q.

(** [max(l)]: the first greatest element; [None] is the [ValueError] of
    an empty sequence.  [key] is the [key=] argument. *)
Fixpoint max_from {A} (key : A -> Q) (best : A) (l : list A) : A :=
  match l with
  | [] => best
  | x :: l' => max_from key (if ltb (key best) (key x) then x else best) l'
  end.

Definition max_by {A} (key : A -> Q) (l : list A) : option A :=
  match l with
  | [] => None
  | x :: l' => Some (max_from key x l')
  end.

(** The same for natural keys. *)
Fixpoint max_from_nat {A} (key : A -> nat) (best : A) (l : list A) : A :=
  match l with
  | [] => best
  | x :: l' =>
      max_from_nat key (if Nat.ltb (key best) (key x) then x else best) l'
  end.

Definition max_by_nat {A} (key : A -> nat) (l : list A) : option A :=
  match l with
  | [] => None
  | x :: l' => Some (max_from_nat key x l')
  end.

End Num.

(** [Counter(l).most_common(1)[0][0]] and the tally loops of the source:
    a dict filled in first-seen order, then the first entry with the
    greatest count. *)

Module Tally.
Section Tally.
Context {K : Type} (eqb : K -> K -> bool).

(** [d[k] = d.get(k, 0) + 1] on a dict kept in insertion order *)
Fixpoint bump (k : K) (d : list (K * nat)) : list (K * nat) :=
  match d with
  | [] => [(k, 1)]
  | (k', n) :: d' => if eqb k k' then (k', S n) :: d' else (k', n) :: bump k d'
  end.

Definition tally (l : list K) : list (K * nat) :=
  fold_left (fun d k => bump k d) l [].

Definition most_common (l : list K) : option K :=
  fst <$> Num.max_by_nat snd (tally l).

End Tally.
End Tally.

(** ** Data model *)

(** Level names. *)
Inductive level : Type :=
| H (n : nat)
| H_body.

Definition level_eqb (a b : level) : bool :=
  match a, b with
  | H n, H m => Nat.eqb n m
  | H_body, H_body => true
  | _, _ => false
  end.

(** [int(level[1:])] *)
Definition level_index (l : level) : option nat :=
  match l with
  | H n => Some n
  | H_body => None
  end.

(** [level.startswith('H') and level != 'H_body'] *)
Definition is_heading_level (l : level) : bool :=
  match l with
  | H _ => true
  | H_body => false
  end.

(** What the page parser hands over: glyphs ([LTChar]) and layout
    annotations on a line, lines in text boxes, boxes and images on a
    page. *)
Record Glyph := mkGlyph {
  get_text : string;
  fontname : string;
  size : Q
}.

Inductive LineItem :=
| LTChar (g : Glyph)
| LTAnno.

Record TextLine := mkTextLine {
  items : list LineItem;
  line_x0 : Q;
  line_x1 : Q;
  line_y0 : Q
}.

Inductive BoxItem :=
| LTTextLineHorizontal (l : TextLine)
| OtherLine.

Inductive Element :=
| LTImage
| LTTextBoxHorizontal (lines : list BoxItem)
| OtherElement.

Record Page := mkPage {
  width : Q;
  height : Q;
  elements : list Element
}.

Record Document := mkDocument {
  info_title : option string;   (* the Title entry of the metadata *)
  pages : list Page
}.

(** A record of [all_text]. *)
Record RawLine := mkRawLine {
  text : string;
  font_size : option Q;
  font_name : option string;
  page : nat;
  y0 : Q;
  x0 : Q;
  x1 : Q;
  page_width : Q;
  page_height : Q
}.

(** A record of [tagged_text]: the line and its ['level']. *)
Record TaggedLine := mkTagged {
  line : RawLine;
  tag : level
}.

(** A record of [headings]; a merged record has no ['x0']. *)
Record Heading := mkHeading {
  h_level : level;
  h_text : string;
  h_page : nat;
  h_y0 : Q;
  h_x0 : option Q;
  h_font_name : option string;
  h_font_size : option Q
}.

(** A record of the output outline. *)
Record OutlineEntry := mkEntry {
  e_level : level;
  e_text : string;
  e_page : nat
}.

Record DocumentResult := mkResult {
  title : string;
  outline : list OutlineEntry
}.

(** ** Line normaliser *)

Module Normalizer.
Import Chars.

(** [re.sub(r'(P1)(P2)', r'\1 \2', s)] for two character classes. *)
Fixpoint sub_between (p1 p2 : ascii -> bool) (s : string) : string :=
  match s with
  | String c1 (String c2 rest as tl) =>
      if p1 c1 && p2 c2
      then String c1 (String " " (String c2 (sub_between p1 p2 rest)))
      else String c1 (sub_between p1 p2 tl)
  | _ => s
  end.

(** [re.sub(r'([A-Z])([A-Z][a-z])', r'\1 \2', s)] *)
Fixpoint sub_caps (s : string) : string :=
  match s with
  | String c1 (String c2 (String c3 rest) as tl) =>
      if is_upper c1 && is_upper c2 && is_lower c3
      then String c1 (String " " (String c2 (String c3 (sub_caps rest))))
      else String c1 (sub_caps tl)
  | String c1 tl => String c1 (sub_caps tl)
  | EmptyString => EmptyString
  end.

(** [re.sub(r'([a-zA-Z])X([a-zA-Z])', r'\1X \2', s)] for a character [X]. *)
Fixpoint sub_after (x : ascii) (s : string) : string :=
  match s with
  | String c1 (String c2 (String c3 rest) as tl) =>
      if is_alpha c1 && eqc x c2 && is_alpha c3
      then String c1 (String c2 (String " " (String c3 (sub_after x rest))))
      else String c1 (sub_after x tl)
  | String c1 tl => String c1 (sub_after x tl)
  | EmptyString => EmptyString
  end.

(** The bullet U+2022 in UTF-8. *)
Definition b1 : ascii := ascii_of_nat 226.
Definition b2 : ascii := ascii_of_nat 128.
Definition b3 : ascii := ascii_of_nat 162.
Definition bullet (s : string) : string := String b1 (String b2 (String b3 s)).

(** [re.sub(r'•([A-Za-z])', r'• \1', s)] *)
Fixpoint sub_bullet_after (s : string) : string :=
  match s with
  | String c1 (String c2 (String c3 (String c4 rest)) as tl) =>
      if eqc b1 c1 && eqc b2 c2 && eqc b3 c3 && is_alpha c4
      then bullet (String " " (String c4 (sub_bullet_after rest)))
      else String c1 (sub_bullet_after tl)
  | String c1 tl => String c1 (sub_bullet_after tl)
  | EmptyString => EmptyString
  end.

(** [re.sub(r'([a-z])•', r'\1 •', s)] *)
Fixpoint sub_bullet_before (s : string) : string :=
  match s with
  | String c1 (String c2 (String c3 (String c4 rest)) as tl) =>
      if is_lower c1 && eqc b1 c2 && eqc b2 c3 && eqc b3 c4
      then String c1 (String " " (bullet (sub_bullet_before rest)))
      else String c1 (sub_bullet_before tl)
  | String c1 tl => String c1 (sub_bullet_before tl)
  | EmptyString => EmptyString
  end.

(** [re.sub(r'\s+', ' ', s)]: the space is written at the last character
    of each run. *)
Fixpoint collapse_spaces (s : string) : string :=
  match s with
  | EmptyString => EmptyString
  | String c s' =>
      if is_space c
      then match s' with
           | String c' _ =>
               if is_space c' then collapse_spaces s'
               else String " " (collapse_spaces s')
           | EmptyString => String " " EmptyString
           end
      else String c (collapse_spaces s')
  end.

Definition clean_text (text : string) : string :=
  if Str.is_empty text then text else
  let text := sub_between is_lower is_upper text in
  let text := sub_caps text in
  let text := sub_between is_alpha is_digit text in
  let text := sub_between is_digit is_alpha text in
  let text := sub_bullet_after text in
  let text := sub_bullet_before text in
  let text := sub_after ":" text in
  let text := sub_after "," text in
  let text := collapse_spaces text in
  Str.strip text.

End Normalizer.

(** ** Extraction: [extract_all_text_with_font_tags] *)

Module PageText.

(** [any(b in font_name for b in ['Bold', 'bold', 'Heavy', 'Black'])],
    guarded by [font_name] being non-empty. *)
Definition bold_glyph (font_name : string) : bool :=
  Str.truthy font_name &&
  List.existsb (fun b => Str.contains b font_name) ["Bold"; "bold"; "Heavy"; "Black"].

(** The glyphs of a line; a bold glyph counts one point larger. *)
Definition glyph_of (it : LineItem) : option (string * string * Q) :=
  match it with
  | LTChar g =>
      Some (get_text g, fontname g,
            if bold_glyph (fontname g) then (size g + 1)%Q else size g)
  | LTAnno => None
  end.

(** The [for idx, part in enumerate(text_parts)] loop that looks for the
    glyph of the colon; [None] when the loop ends without [break]. *)
Fixpoint find_split (colon_index char_count idx : nat) (parts : list string)
  : option nat :=
  match parts with
  | [] => None
  | part :: parts' =>
      let char_count := char_count + String.length part in
      if Nat.ltb colon_index char_count then Some idx
      else find_split colon_index char_count (S idx) parts'
  end.

(** The [while] loop that skips white-space glyphs: [parts] is
    [text_parts[i:]]. *)
Fixpoint skip_spaces (parts : list string) (i : nat) : nat :=
  match parts with
  | part :: parts' => if Str.isspace part then skip_spaces parts' (S i) else i
  | [] => i
  end.

(** The colon rule.  It returns the text, the font names and the font
    sizes the record is built from; a failed list index is [None]. *)
Definition split_at_colon (text : string) (text_parts font_names : list string)
    (font_sizes : list Q) : option (string * list string * list Q) :=
  match Str.index_char ":" text with
  | None => Some (text, font_names, font_sizes)
  | Some colon_index =>
      match find_split colon_index 0 0 text_parts with
      | None => Some (text, font_names, font_sizes)
      | Some split_index =>
          let after_colon_idx :=
            skip_spaces (drop (S split_index) text_parts) (S split_index) in
          if Nat.ltb after_colon_idx (length font_names) then
            font_before ← font_names !! split_index;
            font_after ← font_names !! after_colon_idx;
            size_before ← font_sizes !! split_index;
            size_after ← font_sizes !! after_colon_idx;
            if negb (String.eqb font_before font_after)
               || Num.gtb (Num.dist size_before size_after) (1 # 2)
            then Some (Str.take colon_index text,
                       take (S split_index) font_names,
                       take (S split_index) font_sizes)
            else Some (text, font_names, font_sizes)
          else Some (text, font_names, font_sizes)
      end
  end.

(** The body of the loop over the lines of a text box: the records it
    appends to [all_text] (none after [continue]). *)
Definition line_records (page_num : nat) (pg : Page) (ln : TextLine)
  : option (list RawLine) :=
  let glyphs := omap glyph_of (items ln) in
  let text_parts := map (fun g => g.1.1) glyphs in
  let font_names := map (fun g => g.1.2) glyphs in
  let font_sizes := map (fun g => g.2) glyphs in
  let text := Str.strip (Str.concat_all text_parts) in
  let text := Normalizer.clean_text text in
  if Str.is_empty text || Nat.ltb (String.length (Str.strip text)) 1 then Some []
  else
    '(text, font_names, font_sizes) ←
        split_at_colon text text_parts font_names font_sizes;
    '(avg_font_size, most_common_font) ←
        match font_sizes with
        | [] => Some (None, None)
        | _ :: _ =>
            f ← Tally.most_common String.eqb font_names;
            Some (Some (Num.sum font_sizes / inject_Z (Z.of_nat (length font_sizes)))%Q,
                  Some f)
        end;
    Some [ {| text := text;
              font_size := avg_font_size;
              font_name := most_common_font;
              page := page_num;
              y0 := line_y0 ln;
              x0 := line_x0 ln;
              x1 := line_x1 ln;
              page_width := width pg;
              page_height := height pg |} ].

Definition box_item_records (page_num : nat) (pg : Page) (b : BoxItem)
  : option (list RawLine) :=
  match b with
  | LTTextLineHorizontal ln => line_records page_num pg ln
  | OtherLine => Some []
  end.

(** Appending the records of every member of a sequence, in order. *)
Fixpoint gather {A} (f : A -> option (list RawLine)) (l : list A)
  : option (list RawLine) :=
  match l with
  | [] => Some []
  | x :: l' => r ← f x; rs ← gather f l'; Some (r ++ rs)%list
  end.

Definition element_records (page_num : nat) (pg : Page) (e : Element)
  : option (list RawLine) :=
  match e with
  | LTImage => Some []
  | LTTextBoxHorizontal lines => gather (box_item_records page_num pg) lines
  | OtherElement => Some []
  end.

(** [enumerate(l, start)] *)
Fixpoint enumerate {A} (start : nat) (l : list A) : list (nat * A) :=
  match l with
  | [] => []
  | x :: l' => (start, x) :: enumerate (S start) l'
  end.

Definition extract_all_text_with_font_tags (pages : list Page)
  : option (list RawLine) :=
  gather (fun '(page_num, pg) => gather (element_records page_num pg) (elements pg))
         (enumerate 1 pages).

(** [extract_metadata_title]: the stripped Title entry, [None] when it
    is missing or empty. *)
Definition extract_metadata_title (d : Document) : option string :=
  match info_title d with
  | Some t => let t := Str.strip t in if Str.truthy t then Some t else None
  | None => None
  end.

End PageText.

(** ** Sorting: [sorted] is stable, so it is the insertion sort that
    puts an element before the first one it is strictly less than. *)

Module Sorting.
Section Sort.
Context {A : Type} (lt : A -> A -> bool).

(** [x] comes from the left of [l] in the input: it goes before the
    first element that is not strictly less than it. *)
Fixpoint insert_sorted (x : A) (l : list A) : list A :=
  match l with
  | [] => [x]
  | y :: l' => if lt y x then y :: insert_sorted x l' else x :: l
  end.

Fixpoint sorted (l : list A) : list A :=
  match l with
  | [] => []
  | x :: l' => insert_sorted x (sorted l')
  end.

End Sort.
End Sorting.

(** ** Font hierarchy tagger: [tag_by_font_hierarchy] *)

Module Tagger.

Definition tolerance : Q := 1 # 10.

(** The sizes that seed a group, in input order. *)
Fixpoint group_sizes (grouped_sizes font_sizes : list Q) : list Q :=
  match font_sizes with
  | [] => grouped_sizes
  | size :: rest =>
      if List.existsb (fun group => Num.leb (Num.dist size group) tolerance)
                      grouped_sizes
      then group_sizes grouped_sizes rest
      else group_sizes (grouped_sizes ++ [size]) rest
  end.

(** [sorted(grouped_sizes, reverse=True)] *)
Definition unique_sizes_of (grouped_sizes : list Q) : list Q :=
  Sorting.sorted (fun a b => Num.ltb b a) grouped_sizes.

(** The dict [size_to_level], keyed by the size. *)
Fixpoint dict_set (k : Q) (v : level) (d : list (Q * level)) : list (Q * level) :=
  match d with
  | [] => [(k, v)]
  | (k', v') :: d' =>
      if Qeq_bool k k' then (k', v) :: d' else (k', v') :: dict_set k v d'
  end.

Fixpoint dict_get (k : Q) (d : list (Q * level)) : option level :=
  match d with
  | [] => None
  | (k', v) :: d' => if Qeq_bool k k' then Some v else dict_get k d'
  end.

Definition size_to_level_of (unique_sizes : list Q) : list (Q * level) :=
  fold_left (fun d '(i, size) => dict_set size (H (i + 1)) d)
            (PageText.enumerate 0 unique_sizes) [].

(** The search for the closest group: [min_diff] is [None] for
    [float('inf')]. *)
Fixpoint closest_from (fs : Q) (closest_size min_diff : option Q)
    (unique_sizes : list Q) : option Q :=
  match unique_sizes with
  | [] => closest_size
  | size :: rest =>
      let diff := Num.dist fs size in
      if Num.leb diff tolerance &&
         match min_diff with Some m => Num.ltb diff m | None => true end
      then closest_from fs (Some size) (Some diff) rest
      else closest_from fs closest_size min_diff rest
  end.

Definition level_of (unique_sizes : list Q) (size_to_level : list (Q * level))
    (item : RawLine) : option level :=
  if Num.truthy (font_size item) then
    match font_size item with
    | Some fs =>
        match closest_from fs None None unique_sizes with
        | Some closest_size => dict_get closest_size size_to_level
        | None => Some H_body
        end
    | None => Some H_body
    end
  else Some H_body.

Definition tag_by_font_hierarchy (all_text : list RawLine)
  : option (list TaggedLine) :=
  match all_text with
  | [] => Some []
  | _ =>
      let font_sizes :=
        omap (fun item => if Num.truthy (font_size item) then font_size item else None)
             all_text in
      let grouped_sizes := group_sizes [] font_sizes in
      let unique_sizes := unique_sizes_of grouped_sizes in
      let size_to_level := size_to_level_of unique_sizes in
      mapM (fun item =>
              lvl ← level_of unique_sizes size_to_level item;
              Some {| line := item; tag := lvl |})
           all_text
  end.

End Tagger.

(** ** Heading classifier: [is_actual_heading] *)

Module Classifier.
Import Chars Re.

(** [MONTHS]: the lower-cased month names and abbreviations of
    [calendar]. *)
Definition MONTHS : list string :=
  ["january"; "february"; "march"; "april"; "may"; "june"; "july"; "august";
   "september"; "october"; "november"; "december";
   "jan"; "feb"; "mar"; "apr"; "may"; "jun"; "jul"; "aug"; "sep"; "oct";
   "nov"; "dec"].

(** [t in words] *)
Definition among (t : string) (words : list string) : bool :=
  List.existsb (String.eqb t) words.

(** [[\d.,/\-]+] *)
Definition number_chars : regex :=
  plus (Cls (fun c => is_digit c || eqc "." c || eqc "," c || eqc "/" c || eqc "-" c)).

Definition digit : regex := Cls is_digit.
Definition spaces : regex := plus (Cls is_space).
Definition slash_or_dash : regex := Cls (fun c => eqc "/" c || eqc "-" c).

(** [(january|february|...|december)] and [(jan|feb|...|dec)] *)
Definition month_name : regex :=
  alts (map lit ["january"; "february"; "march"; "april"; "may"; "june"; "july";
                 "august"; "september"; "october"; "november"; "december"]).
Definition month_abbr : regex :=
  alts (map lit ["jan"; "feb"; "mar"; "apr"; "may"; "jun"; "jul"; "aug"; "sep";
                 "oct"; "nov"; "dec"]).

(** [\d{1,2},?\s+\d{4}] and [\d{4}] after the month and its spaces *)
Definition day_year : regex :=
  cats [rep 1 2 digit; opt (chr ","); spaces; exactly 4 digit].
Definition year : regex := exactly 4 digit.

Definition is_date_or_month_or_number (text : string) : bool :=
  let t := Str.lower (Str.strip text) in
  if fullmatch number_chars t then true
  else if among t MONTHS then true
  else if fullmatch (cats [rep 1 2 digit; slash_or_dash; rep 1 2 digit;
                           opt (Cat slash_or_dash (rep 2 4 digit))]) t then true
  else if fullmatch year t then true
  else if match_to_end (cats [month_name; spaces; day_year]) t then true
  else if match_to_end (cats [month_name; spaces; year]) t then true
  else if match_to_end (cats [month_abbr; spaces; day_year]) t then true
  else if match_to_end (cats [month_abbr; spaces; year]) t then true
  else false.

(** The text is fully enclosed in brackets. *)
Definition bracketed (t : string) : bool :=
  (Str.startswith "(" t && Str.endswith ")" t) ||
  (Str.startswith "[" t && Str.endswith "]" t) ||
  (Str.startswith "{" t && Str.endswith "}" t).

(** [s and s[0].islower()] *)
Definition starts_lower (s : string) : bool :=
  match s with
  | String c _ => is_lower c
  | EmptyString => false
  end.

(** 3) looks like a sentence *)
Definition sentence_like (t : string) : bool :=
  Nat.ltb 20 (String.length t) && Str.has_char "," t &&
  Nat.ltb 5 (Str.count_char " " t).

(** 4) all caps *)
Definition all_caps (t : string) : bool :=
  Str.isupper t && Nat.ltb 2 (String.length t).

(** 6) bold: a marker occurs in the lower-cased font name *)
Definition bold_font (font_name : option string) : bool :=
  match font_name with
  | Some f =>
      Str.truthy f &&
      List.existsb (fun bold_indicator => Str.contains bold_indicator (Str.lower f))
                   ["bold"; "b"; "heavy"; "black"]
  | None => false
  end.

(** 10) the left edge is within 30% of the page width from the centre *)
Definition centred (x0 page_width : option Q) : bool :=
  match x0, page_width with
  | Some x0, Some page_width =>
      let center_x := (page_width / 2)%Q in
      Num.ltb (Num.dist x0 center_x) (page_width * (3 # 10))%Q
  | _, _ => false
  end.

(** 11) the line is in the top 30% of the page *)
Definition near_top (y0 page_height : option Q) : bool :=
  match y0, page_height with
  | Some y0, Some page_height => Num.gtb y0 (page_height * (7 # 10))%Q
  | _, _ => false
  end.

Definition non_heading_words : list string :=
  ["page"; "continued"; "footnote"; "reference"; "appendix"; "index"; "glossary"].

(** The copyright sign U+00A9 in UTF-8. *)
Definition copyright_sign : string :=
  String (ascii_of_nat 194) (String (ascii_of_nat 169) EmptyString).

(** The rules that follow the positional ones, from 12) on. *)
Definition plausible_heading (t : string) : bool :=
  if Nat.ltb 10 (length (Str.split t)) then false
  else if Nat.ltb (String.length t) 2 then false
  else if Nat.ltb 100 (String.length t) then false
  else if match_to_end (Cat (plus digit) (chr ".")) t then false
  else if fullmatch (plus (Cls (fun c => negb (is_word c || is_space c)))) t then false
  else if among (Str.lower t) non_heading_words then false
  else if match_to_end (cats [lit "page"; spaces; plus digit]) (Str.lower t) then false
  else if Str.contains "copyright" (Str.lower t) || Str.contains copyright_sign t
       then false
  else if search (alts [cats [lit "http"; opt (chr "s"); lit "://"];
                        lit "www."; chr "@"]) t then false
  else true.

(** The decision list on the stripped text [t]. *)
Definition decide_heading (t : string) (level : level)
    (x0 y0 page_width page_height : option Q) (font_name : option string) : bool :=
  if bracketed t then false
  else if starts_lower (Str.lstrip t) then false
  else if level_eqb level H_body then false
  else if sentence_like t then false
  else if all_caps t then true
  else if bold_font font_name then true
  else if fullmatch number_chars t then false
  else if is_date_or_month_or_number t then false
  else if centred x0 page_width then true
  else if near_top y0 page_height then true
  else plausible_heading t.

Definition is_actual_heading (text : string) (level : level)
    (x0 y0 page_width page_height : option Q) (font_name : option string) : bool :=
  decide_heading (Str.strip text) level x0 y0 page_width page_height font_name.

End Classifier.

(** ** De-duplication: [remove_duplicate_headings] *)

Global Instance level_eq_dec : EqDecision level.
Proof. solve_decision. Defined.

Global Instance level_countable : Countable level.
Proof.
  apply (inj_countable' (fun l => match l with H n => Some n | H_body => None end)
                        (fun o => match o with Some n => H n | None => H_body end)).
  intros []; reflexivity.
Defined.

Module Dedup.

Definition key_of (heading : Heading) : string * level :=
  (Str.lower (Str.strip (h_text heading)), h_level heading).

Fixpoint unique_from (seen : gset (string * level)) (outline : list Heading)
  : list Heading :=
  match outline with
  | [] => []
  | heading :: rest =>
      let key := key_of heading in
      if bool_decide (key ∈ seen) then unique_from seen rest
      else heading :: unique_from ({[ key ]} ∪ seen) rest
  end.

Definition remove_duplicate_headings (outline : list Heading) : list Heading :=
  unique_from ∅ outline.

End Dedup.

(** ** Vertical grouper: [group_vertical_headings] *)

Module Grouper.

(** The sort key [(h['page'], -h.get('y0', 0))], compared as a tuple. *)
Definition reading_order (a b : Heading) : bool :=
  if Nat.eqb (h_page a) (h_page b)
  then Num.ltb (- h_y0 a) (- h_y0 b)
  else Nat.ltb (h_page a) (h_page b).

(** Truth value of an optional string: [None] and [''] are false. *)
Definition truthy_name (o : option string) : bool :=
  match o with
  | Some f => Str.truthy f
  | None => false
  end.

Definition font_similar (current_font next_font : option string) : bool :=
  if truthy_name current_font && truthy_name next_font then
    let c := default EmptyString current_font in
    let n := default EmptyString next_font in
    String.eqb c n ||
    String.eqb (Str.before_char "-" c) (Str.before_char "-" n)
  else negb (truthy_name current_font) && negb (truthy_name next_font).

Definition size_similar (current_size next_size : option Q) : bool :=
  if Num.truthy current_size && Num.truthy next_size then
    Num.leb (Num.dist (default 0%Q current_size) (default 0%Q next_size)) (1 # 2)
  else negb (Num.truthy current_size) && negb (Num.truthy next_size).

(** The inner [while j < len(sorted_headings)] loop: [rest] is
    [sorted_headings[j:]] and [n] is [len(group_texts)].  It returns the
    headings it absorbs and the list from the index [j] it stops at. *)
Fixpoint absorb (current : Heading) (n : nat) (rest : list Heading)
  : list Heading * list Heading :=
  match rest with
  | [] => ([], [])
  | next_heading :: rest' =>
      if Nat.eqb (h_page next_heading) (h_page current) then
        let font_similar :=
          font_similar (h_font_name current) (h_font_name next_heading) in
        let size_similar :=
          size_similar (h_font_size current) (h_font_size next_heading) in
        let vertical_distance := Num.dist (h_y0 current) (h_y0 next_heading) in
        let vertically_close := Num.leb vertical_distance 50 in
        if font_similar && size_similar && vertically_close then
          let '(g, r) := absorb current (S n) rest' in (next_heading :: g, r)
        else if Nat.ltb 1 n then
          let vertically_close_extended := Num.leb vertical_distance 80 in
          if font_similar && size_similar && vertically_close_extended then
            let '(g, r) := absorb current (S n) rest' in (next_heading :: g, r)
          else ([], rest)
        else ([], rest)
      else ([], rest)
  end.

(** The record appended for [current] and the headings [g] absorbed
    after it. *)
Definition combine (current : Heading) (g : list Heading) : option Heading :=
  match g with
  | [] => Some current
  | _ :: _ =>
      let group_headings := current :: g in
      let group_texts := map (fun h => Str.strip (h_text h)) group_headings in
      let combined_text := Str.join " " group_texts in
      let combined_y0 := Num.max_from (fun y => y) (h_y0 current) (map h_y0 g) in
      combined_level ← Tally.most_common level_eqb (map h_level group_headings);
      Some {| h_level := combined_level;
              h_text := combined_text;
              h_page := h_page current;
              h_y0 := combined_y0;
              h_x0 := None;
              h_font_name := h_font_name current;
              h_font_size := h_font_size current |}
  end.

(** The outer [while i < len(sorted_headings)] loop on
    [sorted_headings[i:]]; every round consumes a heading, so the
    length of the list is fuel enough. *)
Fixpoint group_loop (fuel : nat) (l : list Heading) : option (list Heading) :=
  match l with
  | [] => Some []
  | current :: rest =>
      match fuel with
      | 0 => None
      | S fuel' =>
          let '(g, r) := absorb current 1 rest in
          grouped_heading ← combine current g;
          out ← group_loop fuel' r;
          Some (grouped_heading :: out)
      end
  end.

Definition sorted_headings (headings : list Heading) : list Heading :=
  Sorting.sorted reading_order headings.

Definition group_vertical_headings (headings : list Heading)
  : option (list Heading) :=
  match headings with
  | [] => Some headings
  | _ => let l := sorted_headings headings in group_loop (length l) l
  end.

End Grouper.

(** ** The driver: [process_pdf] *)

Module Driver.

(** Phase 2: the tagged lines that the classifier accepts. *)
Definition heading_of (item : TaggedLine) : option Heading :=
  let l := line item in
  if is_heading_level (tag item) &&
     Classifier.is_actual_heading (text l) (tag item) (Some (x0 l)) (Some (y0 l))
       (Some (page_width l)) (Some (page_height l)) (font_name l)
  then Some {| h_level := tag item;
               h_text := Str.strip (text l);
               h_page := page l;
               h_y0 := y0 l;
               h_x0 := Some (x0 l);
               h_font_name := font_name l;
               h_font_size := font_size l |}
  else None.

Definition classify (tagged_text : list TaggedLine) : list Heading :=
  omap heading_of tagged_text.

(** [all_heading_counts]: the number of tagged lines of every heading
    level. *)
Definition count_line (counts : gmap level nat) (item : TaggedLine)
  : gmap level nat :=
  if is_heading_level (tag item)
  then <[ tag item := default 0 (counts !! tag item) + 1 ]> counts
  else counts.

Definition count_levels (tagged_text : list TaggedLine) : gmap level nat :=
  fold_left count_line tagged_text ∅.

Definition max_items_per_level : nat := 14.
Definition max_heading_level : nat := 6.

(** [for i in range(1, 100)]: the first level with more than 14 lines. *)
Definition find_breakpoint (all_heading_counts : gmap level nat) : option level :=
  H <$> List.find
          (fun i => Nat.ltb max_items_per_level
                      (default 0 (all_heading_counts !! H i)))
          (seq 1 99).

(** The loop [for item in headings] that keeps the levels below [bound]
    and at most [max_heading_level]. *)
Fixpoint keep_below (bound : nat) (headings : list Heading)
  : option (list Heading) :=
  match headings with
  | [] => Some []
  | item :: rest =>
      level_index ← level_index (h_level item);
      kept ← keep_below bound rest;
      Some (if Nat.ltb level_index bound && Nat.leb level_index max_heading_level
            then item :: kept else kept)
  end.

(** The classifier as the H1 branch calls it: a heading record has no
    page size, and no [x0] once merged. *)
Definition still_heading (item : Heading) : bool :=
  Classifier.is_actual_heading (h_text item) (h_level item) (h_x0 item)
    (Some (h_y0 item)) None None (h_font_name item).

(** [max(l)] on integers *)
Definition max_index (l : list nat) : option nat :=
  match l with
  | [] => None
  | n :: l' => Some (fold_left Nat.max l' n)
  end.

Definition filter_headings (all_heading_counts : gmap level nat)
    (headings : list Heading) : option (list Heading) :=
  match find_breakpoint all_heading_counts with
  | Some breakpoint_level =>
      breakpoint_index ← level_index breakpoint_level;
      if Nat.eqb breakpoint_index 1 then
        Some (List.filter
                (fun item => level_eqb (h_level item) (H 1) && still_heading item)
                headings)
      else keep_below breakpoint_index headings
  | None =>
      if bool_decide (all_heading_counts = ∅) then Some []
      else
        indices ← mapM level_index (map fst (map_to_list all_heading_counts));
        max_level ← max_index indices;
        keep_below max_level headings
  end.

Definition clean (heading : Heading) : OutlineEntry :=
  {| e_level := h_level heading;
     e_text := h_text heading;
     e_page := h_page heading |}.

(** The title. *)
Definition page_headings (headings : list Heading) (page_num : nat) : list Heading :=
  List.filter
    (fun h => Nat.eqb (h_page h) page_num && negb (level_eqb (h_level h) H_body)
              && Num.truthy (h_font_size h))
    headings.

Definition page_lines (tagged_text : list TaggedLine) (page_num : nat)
  : list TaggedLine :=
  List.filter
    (fun l => Nat.eqb (page (line l)) page_num && Num.truthy (font_size (line l)))
    tagged_text.

Definition size_key (o : option Q) : Q := default 0%Q o.

(** The [for page_num in [1, 2]] loop with its [else] branch. *)
Fixpoint first_page {A} (candidates : nat -> list A) (key : A -> Q)
    (text_of : A -> string) (page_nums : list nat) (otherwise : option string)
  : option string :=
  match page_nums with
  | [] => otherwise
  | page_num :: more =>
      match candidates page_num with
      | [] => first_page candidates key text_of more otherwise
      | c => text_of <$> Num.max_by key c
      end
  end.

Definition resolve_title (metadata_title : option string)
    (headings : list Heading) (tagged_text : list TaggedLine) : option string :=
  if Grouper.truthy_name metadata_title then metadata_title
  else
    first_page (page_headings headings) (fun h => size_key (h_font_size h))
      h_text [1; 2]
      (first_page (page_lines tagged_text)
         (fun l => size_key (font_size (line l))) (fun l => text (line l)) [1; 2]
         (Some "Untitled")).

(** [process_pdf] from the extracted lines on. *)
Definition process_lines (metadata_title : option string)
    (all_text : list RawLine) : option DocumentResult :=
  tagged_text ← Tagger.tag_by_font_hierarchy all_text;
  let headings := classify tagged_text in
  let headings := Dedup.remove_duplicate_headings headings in
  headings ← Grouper.group_vertical_headings headings;
  let all_heading_counts := count_levels tagged_text in
  filtered_headings ← filter_headings all_heading_counts headings;
  let cleaned_headings := map clean filtered_headings in
  title ← resolve_title metadata_title headings tagged_text;
  Some {| title := title; outline := cleaned_headings |}.

(** [process_pdf]: the record written to the output file, [None] when
    an exception is caught and nothing is written. *)
Definition process_pdf (d : Document) : option DocumentResult :=
  let metadata_title := PageText.extract_metadata_title d in
  all_text ← PageText.extract_all_text_with_font_tags (pages d);
  process_lines metadata_title all_text.

End Driver.

(** * Vocabulary of the statements *)

Module Spec.
Import Driver.

(** A string that is empty or starts with a character that is not
    white space. *)
Definition left_trimmed (s : string) : Prop :=
  match s with
  | EmptyString => True
  | String c _ => Chars.is_space c = false
  end.

(** A level [H n] with [1 <= n]. *)
Definition numbered (l : level) : Prop := exists n, l = H n /\ 1 <= n.

(** The dict built by the [enumerate] loop, from any starting state. *)
Definition fill (d : list (Q * level)) (l : list (nat * Q)) : list (Q * level) :=
  fold_left (fun d '(i, size) => Tagger.dict_set size (H (i + 1)) d) l d.

(** One output record per round of the outer loop: [grouped l out] reads
    the list [l] as the segments the rounds consume. *)
Inductive grouped : list Heading -> list (list Heading) -> list Heading -> Prop :=
| grouped_nil : grouped [] [] []
| grouped_round current g r o segs out :
    Grouper.absorb current 1 (g ++ r) = (g, r) ->
    Grouper.combine current g = Some o ->
    grouped r segs out ->
    grouped (current :: g ++ r) ((current :: g) :: segs) (o :: out).

(** What a round appends: the heading itself when nothing was absorbed,
    a merged record otherwise. *)
Definition merged_from (seg : list Heading) (o : Heading) : Prop :=
  match seg with
  | [] => False
  | [h] => o = h
  | current :: g =>
      h_text o = Str.join " " (map (fun h => Str.strip (h_text h)) seg) /\
      In (h_level o) (map h_level seg) /\
      h_page o = h_page current /\
      h_y0 o = Num.max_from (fun y => y) (h_y0 current) (map h_y0 g) /\
      h_x0 o = None /\
      h_font_name o = h_font_name current /\
      h_font_size o = h_font_size current
  end.

(** The headings that [current] absorbs once the group has two members:
    same page, same font, same size, at most 80pt away from [current]. *)
Definition joins (current h : Heading) : Prop :=
  h_page h = h_page current /\
  h_font_name h = h_font_name current /\
  h_font_size h = h_font_size current /\
  (Num.dist (h_y0 current) (h_y0 h) <= 80)%Q.

(** [a] is read no later than [b]: [a] is on an earlier page, or on the
    same page and not below [b]. *)
Definition reads_before (a b : Heading) : Prop :=
  h_page a < h_page b \/ (h_page a = h_page b /\ (h_y0 b <= h_y0 a)%Q).

(** The number of tagged lines of a level. *)
Definition lines_at (lvl : level) (tagged_text : list TaggedLine) : nat :=
  length (List.filter (fun item => level_eqb (tag item) lvl) tagged_text).

(** The test of the [keep_below] loop. *)
Definition within (bound : nat) (item : Heading) : bool :=
  match h_level item with
  | H n => Nat.ltb n bound && Nat.leb n max_heading_level
  | H_body => false
  end.

(** The texts that can make up the entry "March 2003". *)
Definition date_parts : list string := ["March 2003"; "March"; "2003"].

(** [c] is one of the candidates and none has a greater key. *)
Definition largest {A} (key : A -> Q) (candidates : list A) (c : A) : Prop :=
  In c candidates /\ Forall (fun c' => (key c' <= key c)%Q) candidates.

(** The page that yields the candidates: page 1 when it has any,
    else page 2 when it has any. *)
Definition first_with {A} (candidates : nat -> list A) (p : nat) : Prop :=
  (p = 1 /\ candidates 1 <> []) \/
  (p = 2 /\ candidates 1 = [] /\ candidates 2 <> []).

(** No usable metadata title. *)
Definition no_title (metadata_title : option string) : Prop :=
  metadata_title = None \/ metadata_title = Some EmptyString.

(** The fallback chain of the title. *)
Inductive chosen_title (metadata_title : option string)
    (headings : list Heading) (tagged_text : list TaggedLine) : string -> Prop :=
| title_metadata t :
    metadata_title = Some t -> t <> EmptyString ->
    chosen_title metadata_title headings tagged_text t
| title_heading p h :
    no_title metadata_title ->
    first_with (page_headings headings) p ->
    largest (fun h => size_key (h_font_size h)) (page_headings headings p) h ->
    chosen_title metadata_title headings tagged_text (h_text h)
| title_line p l :
    no_title metadata_title ->
    page_headings headings 1 = [] -> page_headings headings 2 = [] ->
    first_with (page_lines tagged_text) p ->
    largest (fun l => size_key (font_size (line l))) (page_lines tagged_text p) l ->
    chosen_title metadata_title headings tagged_text (text (line l))
| title_untitled :
    no_title metadata_title ->
    page_headings headings 1 = [] -> page_headings headings 2 = [] ->
    page_lines tagged_text 1 = [] -> page_lines tagged_text 2 = [] ->
    chosen_title metadata_title headings tagged_text "Untitled".

End Spec.

(** * Sample documents *)

Module Samples.

(** A run of glyphs, one per character, in one font. *)
Fixpoint chars_of (fontname : string) (size : Q) (s : string) : list LineItem :=
  match s with
  | EmptyString => []
  | String c s' =>
      LTChar (mkGlyph (String c EmptyString) fontname size)
      :: chars_of fontname size s'
  end.

(** A line of text at the left margin [x0 = 50]. *)
Definition text_line (fontname : string) (size y0 : Q) (s : string) : TextLine :=
  {| items := chars_of fontname size s;
     line_x0 := 50; line_x1 := 300; line_y0 := y0 |}.

(** A 600pt by 800pt page with one text box. *)
Definition page_of (lines : list TextLine) : Page :=
  {| width := 600; height := 800;
     elements := [LTTextBoxHorizontal (map LTTextLineHorizontal lines)] |}.

Definition document_of (pages : list Page) : Document :=
  {| info_title := None; pages := pages |}.

(** Seven lines in seven font sizes, one line per level H1..H7. *)
Definition seven_levels : Document :=
  document_of
    [page_of [text_line "Arial" 20 700 "Part";
              text_line "Arial" 18 600 "Chapter";
              text_line "Arial" 16 500 "Section";
              text_line "Arial" 14 400 "Topic";
              text_line "Arial" 12 300 "Item";
              text_line "Arial" 11 200 "Note";
              text_line "Arial" 10 100 "Remark"]].

(** A line that starts with a colon, followed by a glyph of another
    font. *)
Definition colon_first : Document :=
  document_of
    [page_of [ {| items := [LTChar (mkGlyph ":" "Arial" 10);
                            LTChar (mkGlyph "x" "Times" 10)];
                  line_x0 := 50; line_x1 := 300; line_y0 := 700 |} ]].

(** Three headings of one font and size, 45pt apart. *)
Definition stacked (s : string) (y : Q) : Heading :=
  {| h_level := H 1; h_text := s; h_page := 1; h_y0 := y;
     h_x0 := Some 50%Q; h_font_name := Some "Arial"; h_font_size := Some 12%Q |}.

Definition three_lines : list Heading :=
  [stacked "Alpha" 100; stacked "Beta" 55; stacked "Gamma" 10].

(** A title set on two lines, above a line of body text. *)
Definition two_line_title : Document :=
  document_of
    [page_of [text_line "Arial" 24 700 "ANNUAL";
              text_line "Arial" 24 670 "REPORT";
              text_line "Arial" 10 400 "Text of the report"]].

(** A date in a bold font, above a line of body text. *)
Definition bold_date : Document :=
  document_of
    [page_of [text_line "Arial-Bold" 20 700 "March 2003";
              text_line "Arial" 10 400 "Text of the report"]].

(** A hundred font sizes: one line at each of the sizes 100pt, 99pt,
    ..., 2pt and fifteen lines at 1pt. *)
Definition sized_line (size : nat) : RawLine :=
  {| text := "Text"; font_size := Some (inject_Z (Z.of_nat size));
     font_name := Some "Arial"; page := 1; y0 := 700; x0 := 50; x1 := 300;
     page_width := 600; page_height := 800 |}.

Definition hundred_sizes : list RawLine :=
  map sized_line (rev (seq 2 99)) ++ repeat (sized_line 1) 15.

(** A heading, the date in a regular font, and a line of body text. *)
Definition plain_date : Document :=
  document_of
    [page_of [text_line "Arial" 24 750 "Overview";
              text_line "Arial" 20 700 "March 2003";
              text_line "Arial" 10 400 "Text of the report"]].

End Samples.

(** ** Functions that [process_pdf] does not call *)

Module Unused.

(** [FIELD_LABEL_WORDS] *)
Definition FIELD_LABEL_WORDS : list string :=
  ["date"; "signature"; "rs."; "amount"; "designation"; "service"; "block";
   "advance"; "pay"; "name"; "place"; "headquarters"].

(** [is_probable_field_label]; [next_text] is not read. *)
Definition is_probable_field_label (text : string) : bool :=
  let t := Str.lower (Str.strip text) in
  if Nat.ltb (String.length t) 5 then
    if Classifier.among t FIELD_LABEL_WORDS then true
    else if Re.match_to_end (Re.Cat (Re.plus Classifier.digit) (Re.chr ".")) t
            && Nat.leb (String.length t) 3
         then true
         else false
  else false.

(** The order of the tuples [(-x[0], -x[1])]. *)
Definition key_lt (x y : Q * nat) : bool :=
  Num.ltb (- x.1) (- y.1) ||
  (Qeq_bool (- x.1) (- y.1) && Z.ltb (- Z.of_nat x.2) (- Z.of_nat y.2)).

(** [cluster_font_sizes]: [Counter(sizes)] is the tally in insertion
    order. *)
Definition cluster_font_sizes (sizes : list Q) : list Q :=
  match sizes with
  | [] => []
  | _ =>
      let counter := Tally.tally Qeq_bool sizes in
      let most_common := Sorting.sorted key_lt counter in
      map fst (take 3 most_common)
  end.

End Unused.

(** * Vocabulary of the further properties *)

Module Vocab.

(** The test of the inner loop of the grouper when the group has [n]
    members: same page, similar font and size, and at most 50pt from
    [current], or at most 80pt once the group has two members. *)
Definition absorbable (current : Heading) (n : nat) (h : Heading) : bool :=
  Nat.eqb (h_page h) (h_page current) &&
  Grouper.font_similar (h_font_name current) (h_font_name h) &&
  Grouper.size_similar (h_font_size current) (h_font_size h) &&
  (Num.leb (Num.dist (h_y0 current) (h_y0 h)) 50 ||
   Nat.ltb 1 n && Num.leb (Num.dist (h_y0 current) (h_y0 h)) 80).

(** The members of a group passed the test when they were reached. *)
Fixpoint absorbed (current : Heading) (n : nat) (g : list Heading) : Prop :=
  match g with
  | [] => True
  | h :: g' => absorbable current n h = true /\ absorbed current (S n) g'
  end.

Definition well_grouped (seg : list Heading) : Prop :=
  match seg with
  | [] => False
  | current :: g => absorbed current 1 g
  end.

(** Every group ends at the end of the list or before a heading that
    fails the test. *)
Fixpoint closed_groups (segs : list (list Heading)) : Prop :=
  match segs with
  | [] => True
  | seg :: segs' =>
      match seg, segs' with
      | current :: g, (next :: _) :: _ =>
          absorbable current (length seg) next = false
      | _, _ => True
      end /\ closed_groups segs'
  end.

(** The number of members of a list that a key equals, and the dict of
    the tally loop: one entry per key, with its count. *)
Definition count {K} (eqb : K -> K -> bool) (k : K) (l : list K) : nat :=
  length (List.filter (eqb k) l).

Definition counts_of {K} (eqb : K -> K -> bool) (l : list K)
    (d : list (K * nat)) : Prop :=
  NoDup (map fst d) /\
  (forall k n, In (k, n) d -> n = count eqb k l) /\
  (forall k, In k l -> In k (map fst d)).

(** The number of occurrences of a level in a list. *)
Definition occurrences (lvl : level) (l : list level) : nat :=
  length (List.filter (level_eqb lvl) l).

(** Two sizes that the tagger takes for one: at most [tolerance]
    apart. *)
Definition near (a b : Q) : Prop := (Num.dist a b <= Tagger.tolerance)%Q.

(** A list of sizes without repetition, no two of them near each
    other. *)
Definition spread (l : list Q) : Prop :=
  NoDup l /\ forall a b, In a l -> In b l -> a <> b -> ~ near a b.

(** The font sizes that the tagger reads, and the clusters it makes of
    them, largest first. *)
Definition font_sizes_of (all_text : list RawLine) : list Q :=
  omap (fun item => if Num.truthy (font_size item) then font_size item else None)
       all_text.

Definition clusters_of (all_text : list RawLine) : list Q :=
  Tagger.unique_sizes_of (Tagger.group_sizes [] (font_sizes_of all_text)).

(** The search keeps the first of the nearest clusters: the clusters
    before the chosen one are farther, those behind it not nearer. *)
Definition first_nearest (fs : Q) (l1 : list Q) (s : Q) (l2 : list Q) : Prop :=
  near fs s /\
  (forall s', In s' l1 -> near fs s' -> (Num.dist fs s < Num.dist fs s')%Q) /\
  (forall s', In s' l2 -> near fs s' -> (Num.dist fs s <= Num.dist fs s')%Q).

(** The level that the tagger gives a line of [all_text]. *)
Definition tagged_level (all_text : list RawLine) (item : RawLine) : option level :=
  Tagger.level_of (clusters_of all_text)
    (Tagger.size_to_level_of (clusters_of all_text)) item.

(** The horizontal text lines of the text boxes of page [k], counted
    from 1. *)
Definition line_on (pages : list Page) (k : nat) (pg : Page) (ln : TextLine)
  : Prop :=
  1 <= k /\ pages !! (k - 1) = Some pg /\
  exists lines, In (LTTextBoxHorizontal lines) (elements pg) /\
                In (LTTextLineHorizontal ln) lines.

(** The characters of a text that are not white space, in order. *)
Fixpoint ink (s : string) : string :=
  match s with
  | EmptyString => EmptyString
  | String c s' => if Chars.is_space c then ink s' else String c (ink s')
  end.

(** Every white-space character of the text is a space that stands
    alone: the next character, if any, is not white space. *)
Fixpoint single_spaced (s : string) : Prop :=
  match s with
  | EmptyString => True
  | String c s' =>
      (Chars.is_space c = true -> c = " "%char /\ Spec.left_trimmed s') /\
      single_spaced s'
  end.

(** The characters of the class [[\d.,/\-]]. *)
Definition number_char (c : ascii) : bool :=
  Chars.is_digit c || Chars.eqc "." c || Chars.eqc "," c || Chars.eqc "/" c
  || Chars.eqc "-" c.

(** Every character class of a pattern lies within [p]. *)
Fixpoint classes_within (p : ascii -> bool) (r : Re.regex) : Prop :=
  match r with
  | Re.Void | Re.Eps => True
  | Re.Cls q => forall c, q c = true -> p c = true
  | Re.Cat r1 r2 | Re.Alt r1 r2 => classes_within p r1 /\ classes_within p r2
  | Re.Star r1 => classes_within p r1
  end.

(** A pattern that matches nothing, by its shape. *)
Fixpoint dead (r : Re.regex) : bool :=
  match r with
  | Re.Void => true
  | Re.Eps | Re.Cls _ | Re.Star _ => false
  | Re.Cat r1 r2 => dead r1 || dead r2
  | Re.Alt r1 r2 => dead r1 && dead r2
  end.

(** A text that does not end with white space. *)
Fixpoint right_trimmed (s : string) : Prop :=
  match s with
  | EmptyString => True
  | String c EmptyString => Chars.is_space c = false
  | String _ s' => right_trimmed s'
  end.

(** Two sizes that are different numbers. *)
Definition differ (a b : Q) : Prop := ~ (a == b)%Q.

End Vocab.

(** * Properties *)

(** ** Text helpers *)

Module StrFacts.
Import Chars Str Spec.

Lemma rstrip_idem s : rstrip (rstrip s) = rstrip s.
Proof.
  induction s as [|c s IH]; [reflexivity|].
  simpl. destruct (rstrip s) as [|d r] eqn:E.
  - destruct (is_space c) eqn:Ec; [reflexivity|]. simpl. now rewrite Ec.
  - change (rstrip (String c (String d r)))
      with (match rstrip (String d r) with
            | EmptyString => if is_space c then EmptyString else String c EmptyString
            | String a b => String c (String a b)
            end).
    rewrite IH. reflexivity.
Qed.

Lemma lstrip_left_trimmed s : left_trimmed (lstrip s).
Proof.
  induction s as [|c s IH]; simpl; [exact I|].
  destruct (is_space c) eqn:E; [exact IH | exact E].
Qed.

Lemma lstrip_fixed s : left_trimmed s -> lstrip s = s.
Proof. destruct s as [|c s]; simpl; [reflexivity|]. now intros ->. Qed.

Lemma rstrip_left_trimmed s : left_trimmed s -> left_trimmed (rstrip s).
Proof.
  destruct s as [|c s]; simpl; [trivial|]. intros Hc.
  destruct (rstrip s); [rewrite Hc|]; exact Hc.
Qed.

Lemma strip_left_trimmed s : left_trimmed (strip s).
Proof. apply rstrip_left_trimmed, lstrip_left_trimmed. Qed.

Lemma strip_idem s : strip (strip s) = strip s.
Proof.
  unfold strip at 1. rewrite (lstrip_fixed (strip s)) by apply strip_left_trimmed.
  apply rstrip_idem.
Qed.

End StrFacts.

(** ** Sorting *)

Module SortFacts.
Section Sort.
Context {A : Type} (lt : A -> A -> bool).

Lemma insert_sorted_perm x l : Permutation (Sorting.insert_sorted lt x l) (x :: l).
Proof.
  induction l as [|y l IH]; simpl; [reflexivity|].
  destruct (lt y x); [|reflexivity].
  rewrite IH. apply perm_swap.
Qed.

(** Sorting neither drops nor duplicates. *)
Lemma sorted_perm l : Permutation (Sorting.sorted lt l) l.
Proof.
  induction l as [|x l IH]; simpl; [reflexivity|].
  rewrite insert_sorted_perm. now constructor.
Qed.

(** When [lt] is the strict part of a total preorder, the result is
    sorted: no element is strictly less than an earlier one. *)
Hypothesis lt_asym : forall a b, lt a b = true -> lt b a = false.
Hypothesis ge_trans :
  forall a b c, lt b a = false -> lt c b = false -> lt c a = false.

Lemma insert_sorted_strongly x l :
  StronglySorted (fun a b => lt b a = false) l ->
  StronglySorted (fun a b => lt b a = false) (Sorting.insert_sorted lt x l).
Proof.
  induction 1 as [|y l Hl IH Hy]; simpl; [repeat constructor|].
  destruct (lt y x) eqn:E.
  - constructor; [exact IH|].
    eapply Permutation_Forall; [symmetry; apply insert_sorted_perm|].
    constructor; [now apply lt_asym | exact Hy].
  - constructor; [now constructor|].
    constructor; [exact E|].
    eapply Forall_impl; [exact Hy|]. intros z Hz. simpl in Hz.
    now apply (ge_trans x y z).
Qed.

Lemma sorted_strongly l :
  StronglySorted (fun a b => lt b a = false) (Sorting.sorted lt l).
Proof.
  induction l as [|x l IH]; simpl; [constructor|].
  now apply insert_sorted_strongly.
Qed.

End Sort.

Lemma StronglySorted_weaken {A} (R R' : A -> A -> Prop) l :
  (forall a b, R a b -> R' a b) -> StronglySorted R l -> StronglySorted R' l.
Proof.
  intros HR. induction 1 as [|x l Hl IH Hx]; constructor; [exact IH|].
  eapply Forall_impl; [exact Hx|]. intros y. apply HR.
Qed.

End SortFacts.

(** ** Tallies *)

Module TallyFacts.
Section Tally.
Context {K : Type} (eqb : K -> K -> bool).

Lemma max_from_nat_in {B} (key : B -> nat) best l :
  Num.max_from_nat key best l = best \/ In (Num.max_from_nat key best l) l.
Proof.
  revert best. induction l as [|x l IH]; intros best; simpl; [now left|].
  destruct (IH (if Nat.ltb (key best) (key x) then x else best)) as [E|E].
  - rewrite E. destruct (Nat.ltb (key best) (key x)); auto.
  - auto.
Qed.

Lemma bump_keys k d k' :
  In k' (map fst (Tally.bump eqb k d)) -> k' = k \/ In k' (map fst d).
Proof.
  induction d as [|[k0 n] d IH]; simpl.
  - intros [<-|[]]. now left.
  - destruct (eqb k k0); simpl; intros [<-|H]; auto.
    destruct (IH H); auto.
Qed.

Lemma bump_nonempty k d : Tally.bump eqb k d <> [].
Proof. destruct d as [|[k0 n] d]; simpl; [|destruct (eqb k k0)]; discriminate. Qed.

Lemma tally_from_keys l d k' :
  In k' (map fst (fold_left (fun d k => Tally.bump eqb k d) l d)) ->
  In k' l \/ In k' (map fst d).
Proof.
  revert d. induction l as [|k l IH]; intros d; simpl; [auto|].
  intros H. destruct (IH _ H) as [H1|H1]; [auto|].
  destruct (bump_keys _ _ _ H1); auto.
Qed.

Lemma tally_from_nonempty l d :
  d <> [] -> fold_left (fun d k => Tally.bump eqb k d) l d <> [].
Proof.
  revert d. induction l as [|k l IH]; intros d Hd; simpl; [exact Hd|].
  apply IH, bump_nonempty.
Qed.

(** The most common key of a non-empty list exists and is one of its
    members. *)
Lemma most_common_in x l :
  exists k, Tally.most_common eqb (x :: l) = Some k /\ In k (x :: l).
Proof.
  unfold Tally.most_common, Tally.tally.
  destruct (fold_left (fun d k => Tally.bump eqb k d) (x :: l) []) as [|e d] eqn:E.
  - exfalso. revert E. simpl. apply tally_from_nonempty. discriminate.
  - simpl. eexists; split; [reflexivity|].
    assert (Hin : In (Num.max_from_nat snd e d) (e :: d)).
    { destruct (max_from_nat_in snd e d) as [->|H]; [now left | now right]. }
    rewrite <- E in Hin.
    destruct (tally_from_keys (x :: l) [] (fst (Num.max_from_nat snd e d))) as [H|[]].
    + apply in_map, Hin.
    + exact H.
Qed.

End Tally.
End TallyFacts.

(** ** The vertical grouper *)

Module GrouperFacts.
Import Grouper Spec.

(** The inner loop splits the list it scans: what it absorbs, then what
    it leaves. *)
Lemma absorb_split current rest :
  forall n g r, absorb current n rest = (g, r) -> rest = (g ++ r)%list.
Proof.
  induction rest as [|nxt rest IH]; intros n g r; simpl.
  - intros [= <- <-]. reflexivity.
  - destruct (Nat.eqb (h_page nxt) (h_page current)); [|intros [= <- <-]; reflexivity].
    destruct (font_similar _ _ && size_similar _ _ && Num.leb _ 50).
    + destruct (absorb current (S n) rest) as [g' r'] eqn:E.
      intros [= <- <-]. simpl. f_equal. eapply IH, E.
    + destruct (Nat.ltb 1 n); [|intros [= <- <-]; reflexivity].
      destruct (font_similar _ _ && size_similar _ _ && Num.leb _ 80);
        [|intros [= <- <-]; reflexivity].
      destruct (absorb current (S n) rest) as [g' r'] eqn:E.
      intros [= <- <-]. simpl. f_equal. eapply IH, E.
Qed.

(** The sort key orders the headings by page, then from the top of the
    page down. *)
Lemma reading_order_false a b : reading_order b a = false <-> reads_before a b.
Proof.
  unfold reading_order, reads_before, Num.ltb.
  destruct (Nat.eqb (h_page b) (h_page a)) eqn:E.
  - apply Nat.eqb_eq in E. rewrite negb_false_iff, Qle_bool_iff. split.
    + intros Hle. right. split; [now symmetry|].
      apply Qopp_le_compat in Hle. now rewrite !Qopp_involutive in Hle.
    + intros [Hlt|[_ Hle]]; [lia|]. now apply Qopp_le_compat.
  - apply Nat.eqb_neq in E. rewrite Nat.ltb_ge. split.
    + intros Hle. left. lia.
    + intros [Hlt|[Heq _]]; lia.
Qed.

Lemma reading_order_true a b : reading_order a b = true -> reading_order b a = false.
Proof.
  intros Hab. apply reading_order_false.
  unfold reading_order, Num.ltb in Hab. unfold reads_before.
  destruct (Nat.eqb (h_page a) (h_page b)) eqn:E.
  - apply Nat.eqb_eq in E. right. split; [exact E|].
    apply negb_true_iff in Hab.
    assert (Hlt : (- h_y0 a < - h_y0 b)%Q).
    { apply Qnot_le_lt. intros H. apply Qle_bool_iff in H. congruence. }
    apply Qlt_le_weak, Qopp_le_compat in Hlt. now rewrite !Qopp_involutive in Hlt.
  - apply Nat.ltb_lt in Hab. now left.
Qed.

Lemma reads_before_trans a b c :
  reads_before a b -> reads_before b c -> reads_before a c.
Proof.
  unfold reads_before. intros [Hab|[Hab Yab]] [Hbc|[Hbc Ybc]]; try (left; lia).
  right. split; [lia|]. eapply Qle_trans; eassumption.
Qed.

(** The sorted headings are in reading order. *)
Lemma sorted_headings_reading_order headings :
  StronglySorted reads_before (sorted_headings headings).
Proof.
  apply (SortFacts.StronglySorted_weaken (fun a b => reading_order b a = false)).
  { intros a b. apply reading_order_false. }
  apply SortFacts.sorted_strongly.
  - apply reading_order_true.
  - intros a b c Hab Hbc. apply reading_order_false.
    apply reading_order_false in Hab, Hbc. eapply reads_before_trans; eassumption.
Qed.

(** [combine] never fails, and the level it picks is the level of a
    member. *)
Lemma combine_total current g :
  exists o, combine current g = Some o /\
            In (h_level o) (map h_level (current :: g)).
Proof.
  destruct g as [|h g].
  - exists current. split; [reflexivity | now left].
  - destruct (TallyFacts.most_common_in level_eqb (h_level current)
                (map h_level (h :: g))) as (lvl & E & Hin).
    unfold combine. cbv zeta. cbn [map] in E, Hin |- *.
    rewrite E. simpl. eexists; split; [reflexivity|]. exact Hin.
Qed.

Lemma grouped_concat l segs out : grouped l segs out -> concat segs = l.
Proof.
  induction 1 as [|current g r o segs out _ _ _ IH]; [reflexivity|].
  simpl. now rewrite IH.
Qed.

(** With the length of the list as fuel the outer loop ends. *)
Lemma group_loop_grouped fuel :
  forall l, length l <= fuel ->
  exists segs out, group_loop fuel l = Some out /\ grouped l segs out.
Proof.
  induction fuel as [|fuel IH]; intros l Hl.
  - destruct l; [|simpl in Hl; lia]. exists [], []. split; constructor.
  - destruct l as [|current rest]; [exists [], []; split; constructor|].
    simpl. destruct (absorb current 1 rest) as [g r] eqn:E.
    pose proof (absorb_split _ _ _ _ _ E) as ->.
    destruct (combine_total current g) as (o & Ho & _).
    destruct (IH r) as (segs & out & Hout & Hg).
    { simpl in Hl. rewrite length_app in Hl. lia. }
    rewrite Ho, Hout. simpl.
    exists ((current :: g) :: segs), (o :: out). split; [reflexivity|].
    now constructor.
Qed.

Lemma group_vertical_headings_grouped headings :
  exists segs out,
    group_vertical_headings headings = Some out /\
    grouped (sorted_headings headings) segs out.
Proof.
  destruct headings as [|h hs].
  - exists [], []. split; constructor.
  - unfold group_vertical_headings. apply group_loop_grouped. reflexivity.
Qed.

Lemma combine_merged current g o :
  combine current g = Some o -> merged_from (current :: g) o.
Proof.
  destruct g as [|h g]; simpl.
  - now intros [= <-].
  - destruct (TallyFacts.most_common_in level_eqb (h_level current)
                (map h_level (h :: g))) as (lvl & E & Hin).
    unfold combine. cbv zeta. cbn [map] in E, Hin |- *.
    rewrite E. simpl. intros [= <-]. simpl. repeat split; try reflexivity.
    exact Hin.
Qed.

Lemma grouped_merged l segs out :
  grouped l segs out -> Forall2 merged_from segs out.
Proof.
  induction 1 as [|current g r o segs out _ Ho _ IH]; constructor; [|exact IH].
  now apply combine_merged.
Qed.

End GrouperFacts.

(** *** Runs that the grouper merges into one record *)

Module RunFacts.
Import Grouper Spec.

Lemma dist_self q c : (0 <= c)%Q -> Num.leb (Num.dist q q) c = true.
Proof.
  intros Hc. unfold Num.leb, Num.dist. apply Qle_bool_iff.
  assert (E : (q - q == 0)%Q) by ring.
  rewrite E. exact Hc.
Qed.

Lemma font_similar_same f : font_similar f f = true.
Proof.
  unfold font_similar. destruct (truthy_name f); simpl; [|reflexivity].
  now rewrite String.eqb_refl.
Qed.

Lemma size_similar_same s : size_similar s s = true.
Proof.
  unfold size_similar. destruct (Num.truthy s); simpl; [|reflexivity].
  apply dist_self. discriminate.
Qed.

Lemma absorb_step current n h rest :
  joins current h ->
  (2 <= n \/ (Num.dist (h_y0 current) (h_y0 h) <= 50)%Q) ->
  absorb current n (h :: rest) =
  let '(g, r) := absorb current (S n) rest in (h :: g, r).
Proof.
  intros (Hp & Hf & Hs & H80) Hn. simpl.
  rewrite Hp, Nat.eqb_refl, Hf, Hs, font_similar_same, size_similar_same. simpl.
  destruct (Num.leb (Num.dist (h_y0 current) (h_y0 h)) 50) eqn:E50; [reflexivity|].
  destruct Hn as [Hn|H50].
  - apply Nat.ltb_lt in Hn. rewrite Hn.
    apply Qle_bool_iff in H80. unfold Num.leb. now rewrite H80.
  - apply Qle_bool_iff in H50. unfold Num.leb in E50. congruence.
Qed.

Lemma absorb_all current l :
  forall n, 2 <= n -> Forall (joins current) l -> absorb current n l = (l, []).
Proof.
  induction l as [|h l IH]; intros n Hn Hl; [reflexivity|].
  inversion Hl as [|? ? Hh Hl']; subst.
  rewrite absorb_step by auto. rewrite IH by (auto; lia). reflexivity.
Qed.

(** [max] keeps its first argument when nothing is strictly greater. *)
Lemma max_from_first (top : Q) (l : list Q) :
  Forall (fun y => (y <= top)%Q) l -> Num.max_from (fun y => y) top l = top.
Proof.
  induction l as [|y l IH]; intros Hl; [reflexivity|].
  inversion Hl as [|? ? Hy Hl']; subst. simpl.
  unfold Num.ltb. apply Qle_bool_iff in Hy. rewrite Hy. simpl. now apply IH.
Qed.

End RunFacts.

(** ** The tagger *)

Module TaggerFacts.
Import Tagger Spec.

Lemma dict_set_values (P : level -> Prop) k v d :
  P v -> Forall (fun kv => P kv.2) d -> Forall (fun kv => P kv.2) (dict_set k v d).
Proof.
  intros Hv. induction 1 as [|[k' v'] d Hkv Hd IH]; simpl.
  - repeat constructor. exact Hv.
  - destruct (Qeq_bool k k'); constructor; auto.
Qed.

Lemma dict_get_value (P : level -> Prop) k d v :
  Forall (fun kv => P kv.2) d -> dict_get k d = Some v -> P v.
Proof.
  induction 1 as [|[k' v'] d Hkv Hd IH]; simpl; [discriminate|].
  destruct (Qeq_bool k k'); [now intros [= <-] | exact IH].
Qed.

Lemma dict_set_has k v d : is_Some (dict_get k (dict_set k v d)).
Proof.
  induction d as [|[k' v'] d IH]; simpl.
  - rewrite Qeq_bool_refl. eauto.
  - destruct (Qeq_bool k k') eqn:E; simpl; rewrite E; eauto.
Qed.

Lemma dict_set_keeps k v d k' :
  is_Some (dict_get k' d) -> is_Some (dict_get k' (dict_set k v d)).
Proof.
  induction d as [|[k0 v0] d IH]; simpl; [intros [? [=]]|].
  destruct (Qeq_bool k k0) eqn:E; simpl; destruct (Qeq_bool k' k0); eauto.
Qed.

Lemma fill_values l : forall d,
  Forall (fun kv => numbered kv.2) d -> Forall (fun kv => numbered kv.2) (fill d l).
Proof.
  induction l as [|[i s] l IH]; intros d Hd; simpl; [exact Hd|].
  apply IH, dict_set_values; [|exact Hd]. exists (i + 1). split; [reflexivity | lia].
Qed.

Lemma fill_keeps l : forall d k,
  is_Some (dict_get k d) -> is_Some (dict_get k (fill d l)).
Proof.
  induction l as [|[i s] l IH]; intros d k Hk; simpl; [exact Hk|].
  apply IH, dict_set_keeps, Hk.
Qed.

Lemma fill_has l : forall d s,
  In s (map snd l) -> is_Some (dict_get s (fill d l)).
Proof.
  induction l as [|[i s0] l IH]; intros d s; simpl; [intros []|].
  intros [<-|Hs]; [apply fill_keeps, dict_set_has | now apply IH].
Qed.

Lemma enumerate_snd {A} (l : list A) : forall start,
  map snd (PageText.enumerate start l) = l.
Proof. induction l as [|x l IH]; intros start; simpl; [|rewrite IH]; reflexivity. Qed.

Lemma closest_from_in fs l : forall c m s,
  closest_from fs c m l = Some s -> c = Some s \/ In s l.
Proof.
  induction l as [|x l IH]; intros c m s; simpl; [auto|].
  destruct (_ && _); intros E; apply IH in E as [E|E]; auto.
  injection E as <-. auto.
Qed.

(** Tagging a line cannot fail, and names the line [H_body] or a
    numbered level. *)
Lemma level_of_total unique_sizes item :
  exists lvl, level_of unique_sizes (size_to_level_of unique_sizes) item = Some lvl /\
              (lvl = H_body \/ numbered lvl).
Proof.
  unfold level_of.
  destruct (Num.truthy (font_size item)); [|eauto].
  destruct (font_size item) as [fs|]; [|eauto].
  destruct (closest_from fs None None unique_sizes) as [s|] eqn:E; [|eauto].
  apply closest_from_in in E as [[=]|Hs].
  destruct (fill_has (PageText.enumerate 0 unique_sizes) [] s) as [lvl Hl].
  { now rewrite enumerate_snd. }
  exists lvl. split; [exact Hl|]. right.
  eapply dict_get_value; [|exact Hl]. apply fill_values. constructor.
Qed.

Lemma tag_by_font_hierarchy_total all_text :
  exists tagged_text,
    tag_by_font_hierarchy all_text = Some tagged_text /\
    map line tagged_text = all_text /\
    Forall (fun item => tag item = H_body \/ numbered (tag item)) tagged_text.
Proof.
  unfold tag_by_font_hierarchy.
  destruct all_text as [|item0 rest]; [exists []; repeat split; constructor|].
  set (all_text := item0 :: rest).
  set (us := unique_sizes_of _).
  clearbody all_text us. clear item0 rest.
  induction all_text as [|item l (tagged & Ht & Hl & Hn)].
  - exists []. repeat split; constructor.
  - destruct (level_of_total us item) as (lvl & E & Hlvl).
    exists ({| line := item; tag := lvl |} :: tagged).
    split; [|split].
    + cbn [mapM]. rewrite E. cbn. rewrite Ht. reflexivity.
    + simpl. now rewrite Hl.
    + constructor; assumption.
Qed.

End TaggerFacts.

(** ** Extraction *)

Module PageTextFacts.
Import PageText.

Lemma find_split_lt colon_index parts : forall char_count idx i,
  find_split colon_index char_count idx parts = Some i -> i < idx + length parts.
Proof.
  induction parts as [|part parts IH]; intros cc idx i; simpl; [discriminate|].
  destruct (Nat.ltb colon_index (cc + String.length part)).
  - intros [= <-]. lia.
  - intros E. apply IH in E. lia.
Qed.

(** The list indexing of the colon rule stays in range. *)
Lemma split_at_colon_total text text_parts font_names font_sizes :
  length text_parts = length font_names ->
  length font_names = length font_sizes ->
  exists text' font_names' font_sizes',
    split_at_colon text text_parts font_names font_sizes
      = Some (text', font_names', font_sizes') /\
    length font_names' = length font_sizes'.
Proof.
  intros Hp Hs. unfold split_at_colon.
  destruct (Str.index_char ":" text) as [colon_index|]; [|eauto 6].
  destruct (find_split colon_index 0 0 text_parts) as [split_index|] eqn:E; [|eauto 6].
  apply find_split_lt in E. simpl in E.
  destruct (Nat.ltb _ (length font_names)) eqn:Ha; [|eauto 6].
  apply Nat.ltb_lt in Ha.
  destruct (lookup_lt_is_Some_2 font_names split_index) as [fb ->]; [lia|].
  destruct (lookup_lt_is_Some_2 font_names _ Ha) as [fa ->].
  destruct (lookup_lt_is_Some_2 font_sizes split_index) as [sb ->]; [lia|].
  destruct (lookup_lt_is_Some_2 font_sizes
              (skip_spaces (drop (S split_index) text_parts) (S split_index)))
    as [sa ->]; [lia|].
  simpl. destruct (_ || _); [|eauto 6].
  do 3 eexists. split; [reflexivity|]. rewrite !length_take. lia.
Qed.

Lemma line_records_total page_num pg ln :
  exists rs, line_records page_num pg ln = Some rs.
Proof.
  unfold line_records. cbv zeta.
  destruct (_ || _); [eauto|].
  set (glyphs := omap glyph_of (items ln)).
  destruct (split_at_colon_total
              (Normalizer.clean_text
                 (Str.strip (Str.concat_all (map (fun g => g.1.1) glyphs))))
              (map (fun g => g.1.1) glyphs) (map (fun g => g.1.2) glyphs)
              (map (fun g => g.2) glyphs))
    as (text' & fn & fs & -> & Hlen).
  { now rewrite !length_map. }
  { now rewrite !length_map. }
  cbn. destruct fs as [|s fs]; [cbn; eauto|].
  destruct fn as [|f fn]; [discriminate|].
  destruct (TallyFacts.most_common_in String.eqb f fn) as (k & -> & _).
  cbn. eauto.
Qed.

(** The colon rule returns the text as it is, or cut before the first
    colon. *)
Lemma split_at_colon_text text text_parts font_names font_sizes text' fn fs :
  split_at_colon text text_parts font_names font_sizes = Some (text', fn, fs) ->
  text' = text \/
  exists colon_index,
    Str.index_char ":" text = Some colon_index /\
    text' = Str.take colon_index text.
Proof.
  unfold split_at_colon.
  destruct (Str.index_char ":" text) as [colon_index|]; [|intros [= <- _ _]; auto].
  destruct (find_split colon_index 0 0 text_parts) as [split_index|];
    [|intros [= <- _ _]; auto].
  destruct (Nat.ltb _ _); [|intros [= <- _ _]; auto].
  destruct (font_names !! split_index); [|discriminate].
  destruct (font_names !! _); [|discriminate].
  destruct (font_sizes !! split_index); [|discriminate].
  destruct (font_sizes !! _); [|discriminate].
  simpl. destruct (_ || _); intros [= <- _ _]; eauto.
Qed.

(** A record with an empty text is emitted only for a line whose
    cleaned text starts with the colon. *)
Lemma empty_text_after_leading_colon page_num pg ln r :
  In r (default [] (line_records page_num pg ln)) ->
  text r = EmptyString ->
  Str.index_char ":"
    (Normalizer.clean_text
       (Str.strip (Str.concat_all
          (map (fun g => g.1.1) (omap glyph_of (items ln)))))) = Some 0.
Proof.
  unfold line_records. cbv zeta.
  set (glyphs := omap glyph_of (items ln)).
  set (text0 := Normalizer.clean_text _).
  destruct (Str.is_empty text0 || _) eqn:Eempty; [intros []|].
  apply orb_false_elim in Eempty as [Eempty _].
  destruct (split_at_colon text0 _ _ _) as [[[text' fn] fs]|] eqn:Es;
    [|intros []].
  apply split_at_colon_text in Es. cbn.
  destruct (match fs with [] => _ | _ :: _ => _ end) as [[avg mc]|];
    [|intros []].
  cbn. intros [<-|[]]. cbn. intros Ht. subst text'.
  destruct Es as [<-|(colon_index & Ei & Htake)]; [discriminate|].
  destruct colon_index as [|n]; [exact Ei|].
  destruct text0; discriminate.
Qed.

Lemma gather_total {A} (f : A -> option (list RawLine)) l :
  (forall x, exists rs, f x = Some rs) -> exists rs, gather f l = Some rs.
Proof.
  intros Hf. induction l as [|x l [rs IH]]; simpl; [eauto|].
  destruct (Hf x) as [r ->]. rewrite IH. cbn. eauto.
Qed.

Lemma extract_total pages :
  exists all_text, extract_all_text_with_font_tags pages = Some all_text.
Proof.
  apply gather_total. intros [page_num pg].
  apply gather_total. intros [|lines|]; simpl; eauto.
  apply gather_total. intros [ln|]; simpl; eauto using line_records_total.
Qed.

End PageTextFacts.

(** ** The driver *)

Module DriverFacts.
Import Driver Spec.

(** *** Level counts *)

Lemma level_eqb_eq a b : level_eqb a b = true <-> a = b.
Proof.
  destruct a as [n|], b as [m|]; simpl; try (split; congruence).
  rewrite Nat.eqb_eq. split; congruence.
Qed.

Lemma level_eqb_refl a : level_eqb a a = true.
Proof. now apply level_eqb_eq. Qed.

Lemma count_from tagged_text lvl : forall counts : gmap level nat,
  is_heading_level lvl = true ->
  default 0 (fold_left count_line tagged_text counts !! lvl)
  = default 0 (counts !! lvl) + lines_at lvl tagged_text.
Proof.
  unfold lines_at.
  induction tagged_text as [|item l IH]; intros counts Hl; simpl; [lia|].
  rewrite IH by exact Hl. unfold count_line.
  destruct (level_eqb (tag item) lvl) eqn:E.
  - apply level_eqb_eq in E. subst lvl. rewrite Hl, lookup_insert_eq. simpl. lia.
  - destruct (is_heading_level (tag item)); [|reflexivity].
    rewrite lookup_insert_ne; [reflexivity|].
    intros Heq. rewrite Heq, level_eqb_refl in E. discriminate.
Qed.

(** [all_heading_counts] counts the tagged lines of each heading level. *)
Lemma count_levels_spec tagged_text n :
  default 0 (count_levels tagged_text !! H n) = lines_at (H n) tagged_text.
Proof.
  unfold count_levels. rewrite count_from by reflexivity.
  now rewrite lookup_empty.
Qed.

Lemma count_from_keys tagged_text lvl : forall counts : gmap level nat,
  (forall l, is_Some (counts !! l) -> is_heading_level l = true) ->
  is_Some (fold_left count_line tagged_text counts !! lvl) ->
  is_heading_level lvl = true.
Proof.
  induction tagged_text as [|item l IH]; intros counts Hc; simpl; [apply Hc|].
  apply IH. intros l'. unfold count_line.
  destruct (is_heading_level (tag item)) eqn:E; [|apply Hc].
  destruct (decide (tag item = l')) as [<-|Hne]; [auto|].
  rewrite lookup_insert_ne by exact Hne. apply Hc.
Qed.

(** Only heading levels are counted. *)
Lemma count_levels_keys tagged_text lvl :
  is_Some (count_levels tagged_text !! lvl) -> is_heading_level lvl = true.
Proof.
  apply count_from_keys. intros l. rewrite lookup_empty. intros [? [=]].
Qed.

(** *** The breakpoint *)

Lemma find_seq_Some (f : nat -> bool) n : forall a k,
  List.find f (seq a n) = Some k <->
  (a <= k < a + n /\ f k = true /\ forall j, a <= j < k -> f j = false).
Proof.
  induction n as [|n IH]; intros a k; simpl.
  - split; [discriminate | lia].
  - destruct (f a) eqn:Ea.
    + split.
      * intros [= <-]. repeat split; [lia | lia | exact Ea | lia].
      * intros (Hk & Hf & Hj). f_equal.
        destruct (Nat.eq_dec a k) as [E|E]; [exact E|].
        rewrite Hj in Ea by lia. discriminate.
    + rewrite IH. split.
      * intros (Hk & Hf & Hj). repeat split; [lia | lia | exact Hf|].
        intros j Hjk. destruct (Nat.eq_dec j a) as [->|]; [exact Ea|].
        apply Hj. lia.
      * intros (Hk & Hf & Hj). repeat split; [|lia|exact Hf|intros; apply Hj; lia].
        destruct (Nat.eq_dec a k) as [<-|]; [congruence | lia].
Qed.

Lemma find_seq_None (f : nat -> bool) n : forall a,
  List.find f (seq a n) = None <-> (forall j, a <= j < a + n -> f j = false).
Proof.
  induction n as [|n IH]; intros a; simpl.
  - split; [lia | reflexivity].
  - destruct (f a) eqn:Ea.
    + split; [discriminate|]. intros Hj. rewrite Hj in Ea by lia. discriminate.
    + rewrite IH. split; intros Hj j Hja.
      * destruct (Nat.eq_dec j a) as [->|]; [exact Ea | apply Hj; lia].
      * apply Hj. lia.
Qed.

(** *** The filter *)

Lemma keep_below_filter bound headings :
  Forall (fun h => is_heading_level (h_level h) = true) headings ->
  keep_below bound headings = Some (List.filter (within bound) headings).
Proof.
  induction 1 as [|h l Hh _ IH]; [reflexivity|].
  simpl. unfold within at 1. destruct (h_level h) as [n|]; [|discriminate].
  simpl. rewrite IH. simpl. reflexivity.
Qed.

Lemma fold_max_ge l : forall n m, In m (n :: l) -> m <= fold_left Nat.max l n.
Proof.
  induction l as [|x l IH]; intros n m; simpl.
  - intros [<-|[]]. lia.
  - intros [<-|[<-|Hm]].
    + etransitivity; [|apply IH; left; reflexivity]. lia.
    + etransitivity; [|apply IH; left; reflexivity]. lia.
    + apply IH. now right.
Qed.

Lemma fold_max_in l : forall n, In (fold_left Nat.max l n) (n :: l).
Proof.
  induction l as [|x l IH]; intros n; simpl; [auto|].
  destruct (IH (Nat.max n x)) as [E|E]; [|auto].
  rewrite <- E. destruct (Nat.max_spec n x) as [[_ ->]|[_ ->]]; auto.
Qed.

(** Whatever the bound, a kept heading has a level from H1 to H6 at
    most. *)
Lemma within_capped bound h : within bound h = true -> within 100 h = true.
Proof.
  unfold within, max_heading_level. destruct (h_level h) as [n|]; [|discriminate].
  intros Hn. apply andb_prop in Hn as [_ Hn]. apply Nat.leb_le in Hn.
  apply andb_true_intro. split; [apply Nat.ltb_lt; lia | apply Nat.leb_le; lia].
Qed.

(** The keys of [all_heading_counts] all have an index. *)
Lemma indices_total tagged_text :
  exists indices,
    mapM level_index (map fst (map_to_list (count_levels tagged_text))) = Some indices.
Proof.
  apply mapM_is_Some_2, Forall_forall. intros lvl Hin. simpl.
  apply list_elem_of_In, in_map_iff in Hin as ([l c] & <- & Hin).
  apply list_elem_of_In, elem_of_map_to_list in Hin.
  assert (Hl : is_heading_level l = true)
    by (apply (count_levels_keys tagged_text); eauto).
  destruct l; [eauto | discriminate].
Qed.

(** The filter never fails on headings with heading levels, and what it
    keeps is a selection of its input. *)
Lemma filter_headings_total tagged_text headings :
  Forall (fun h => is_heading_level (h_level h) = true) headings ->
  exists keep, filter_headings (count_levels tagged_text) headings
               = Some (List.filter keep headings) /\
               forall h, keep h = true -> within 100 h = true.
Proof.
  intros Hh. unfold filter_headings.
  destruct (find_breakpoint _) as [[k|]|] eqn:Eb.
  - simpl. destruct (Nat.eqb k 1) eqn:Ek.
    + eexists; split; [reflexivity|]. intros h Hk.
      apply andb_prop in Hk as [Hk _]. apply level_eqb_eq in Hk.
      unfold within. now rewrite Hk.
    + exists (within k). split; [now apply keep_below_filter|].
      apply within_capped.
  - unfold find_breakpoint in Eb. destruct (List.find _ _); discriminate.
  - case_bool_decide.
    + exists (fun _ => false). split; [|discriminate].
      f_equal. clear. induction headings as [|h l IH]; [reflexivity | exact IH].
    + destruct (indices_total tagged_text) as [indices Hi]. rewrite Hi. simpl.
      destruct indices as [|n l].
      * exfalso. apply length_mapM in Hi. rewrite length_map in Hi.
        destruct (map_to_list (count_levels tagged_text)) eqn:E;
          [apply map_to_list_empty_iff in E; contradiction | discriminate].
      * simpl. exists (within (fold_left Nat.max l n)).
        split; [now apply keep_below_filter | apply within_capped].
Qed.

Lemma Forall2_In_l {A B} (P : A -> B -> Prop) l k x :
  Forall2 P l k -> In x l -> exists y, In y k /\ P x y.
Proof.
  induction 1 as [|a b l k Hab _ IH]; [intros []|].
  intros [<-|Hx]; [exists b; split; [now left | exact Hab]|].
  destruct (IH Hx) as (y & Hy & Hxy). exists y. split; [now right | exact Hxy].
Qed.

Lemma Forall2_In_r {A B} (P : A -> B -> Prop) l k y :
  Forall2 P l k -> In y k -> exists x, In x l /\ P x y.
Proof.
  induction 1 as [|a b l k Hab _ IH]; [intros []|].
  intros [<-|Hy]; [exists a; split; [now left | exact Hab]|].
  destruct (IH Hy) as (x & Hx & Hxy). exists x. split; [now right | exact Hxy].
Qed.

(** What the filter does without a breakpoint: it keeps the headings
    below the deepest counted level, up to [max_heading_level]. *)
Lemma no_breakpoint_filter tagged_text headings :
  Forall (fun h => is_heading_level (h_level h) = true) headings ->
  find_breakpoint (count_levels tagged_text) = None ->
  count_levels tagged_text <> ∅ ->
  exists deepest,
    is_Some (count_levels tagged_text !! H deepest) /\
    (forall n, is_Some (count_levels tagged_text !! H n) -> n <= deepest) /\
    filter_headings (count_levels tagged_text) headings
    = Some (List.filter (within deepest) headings).
Proof.
  intros Hh Eb Hne. unfold filter_headings. rewrite Eb.
  case_bool_decide; [contradiction|].
  destruct (indices_total tagged_text) as [indices Hi]. rewrite Hi. simpl.
  pose proof (mapM_Some_1 _ _ _ Hi) as Hall.
  destruct indices as [|n l].
  { exfalso. apply length_mapM in Hi. rewrite length_map in Hi.
    destruct (map_to_list (count_levels tagged_text)) eqn:E;
      [apply map_to_list_empty_iff in E; contradiction | discriminate]. }
  simpl. exists (fold_left Nat.max l n). split; [|split].
  - destruct (Forall2_In_r _ _ _ _ Hall (fold_max_in l n)) as (lvl & Hin & Hidx).
    apply in_map_iff in Hin as ([lvl' c] & <- & Hin).
    apply list_elem_of_In, elem_of_map_to_list in Hin. simpl in Hidx.
    destruct lvl' as [m|]; [|discriminate]. injection Hidx as ->. eauto.
  - intros m [c Hc]. apply fold_max_ge.
    apply elem_of_map_to_list, list_elem_of_In in Hc.
    apply (in_map fst) in Hc. simpl in Hc.
    destruct (Forall2_In_l _ _ _ _ Hall Hc) as (y & Hy & [= <-]). exact Hy.
  - now apply keep_below_filter.
Qed.

End DriverFacts.

(** ** The stages together *)

Module PipelineFacts.
Import Driver.

(** A heading of phase 2 comes from a tagged line that the classifier
    accepts. *)
Lemma heading_of_accepts item h :
  heading_of item = Some h ->
  is_heading_level (tag item) = true /\
  Classifier.is_actual_heading (text (line item)) (tag item)
    (Some (x0 (line item))) (Some (y0 (line item)))
    (Some (page_width (line item))) (Some (page_height (line item)))
    (font_name (line item)) = true /\
  h_level h = tag item /\
  h_text h = Str.strip (text (line item)) /\
  h_font_name h = font_name (line item).
Proof.
  unfold heading_of. destruct (is_heading_level (tag item)); [|discriminate].
  simpl. destruct (Classifier.is_actual_heading _ _ _ _ _ _ _); [|discriminate].
  intros [= <-]. simpl. auto.
Qed.

Lemma classify_in tagged_text h :
  In h (classify tagged_text) ->
  exists item, In item tagged_text /\ heading_of item = Some h.
Proof.
  unfold classify. rewrite <- list_elem_of_In, list_elem_of_omap.
  intros (item & Hin & E). exists item. now rewrite <- list_elem_of_In.
Qed.

Lemma unique_from_in outline : forall seen h,
  In h (Dedup.unique_from seen outline) -> In h outline.
Proof.
  induction outline as [|x l IH]; intros seen h; simpl; [auto|].
  case_bool_decide; simpl; [eauto|]. intros [<-|Hh]; eauto.
Qed.

(** The grouper receives trimmed texts: its [text.strip()] does not
    change them. *)
Lemma classified_trimmed tagged_text :
  Forall (fun h => Str.strip (h_text h) = h_text h)
         (Dedup.remove_duplicate_headings (classify tagged_text)).
Proof.
  apply Forall_forall. intros h Hh.
  apply list_elem_of_In, unique_from_in, classify_in in Hh as (item & _ & Hi).
  apply heading_of_accepts in Hi as (_ & _ & _ & -> & _).
  apply StrFacts.strip_idem.
Qed.

(** Every output record of the grouper is made from a segment of the
    sorted input. *)
Lemma grouped_from l segs out o :
  Spec.grouped l segs out -> In o out ->
  exists seg, Spec.merged_from seg o /\ forall h, In h seg -> In h l.
Proof.
  induction 1 as [|current g r o' segs out _ Ho _ IH]; [intros []|].
  intros [<-|Hin].
  - exists (current :: g). split; [now apply GrouperFacts.combine_merged|].
    intros h Hh. change (In h ((current :: g) ++ r)). apply in_or_app. now left.
  - destruct (IH Hin) as (seg & Hm & Hseg). exists seg. split; [exact Hm|].
    intros h Hh. right. apply in_or_app. right. now apply Hseg.
Qed.

Lemma group_vertical_headings_from headings :
  exists out,
    Grouper.group_vertical_headings headings = Some out /\
    forall o, In o out ->
      exists seg, Spec.merged_from seg o /\
                  forall h, In h seg -> In h headings.
Proof.
  destruct (GrouperFacts.group_vertical_headings_grouped headings)
    as (segs & out & E & Hg).
  exists out. split; [exact E|]. intros o Ho.
  destruct (grouped_from _ _ _ _ Hg Ho) as (seg & Hm & Hseg).
  exists seg. split; [exact Hm|]. intros h Hh.
  eapply Permutation_in; [apply SortFacts.sorted_perm|]. apply Hseg, Hh.
Qed.

Lemma merged_level seg o :
  Spec.merged_from seg o -> In (h_level o) (map h_level seg).
Proof.
  destruct seg as [|current [|h g]]; simpl; [intros [] | intros ->; auto|].
  intros (_ & Hl & _). exact Hl.
Qed.

(** The title loop ends with a title whenever its fallback does. *)
Lemma first_page_total {A} (candidates : nat -> list A) key text_of page_nums otherwise :
  is_Some otherwise ->
  is_Some (first_page candidates key text_of page_nums otherwise).
Proof.
  intros Ho. induction page_nums as [|p l IH]; simpl; [exact Ho|].
  destruct (candidates p); [exact IH | simpl; eauto].
Qed.

Lemma resolve_title_total metadata_title headings tagged_text :
  exists t, resolve_title metadata_title headings tagged_text = Some t.
Proof.
  unfold resolve_title.
  destruct (Grouper.truthy_name metadata_title) eqn:E.
  - destruct metadata_title; [eauto | discriminate].
  - apply first_page_total, first_page_total. eauto.
Qed.

(** The stages of [process_lines], none of which fails. *)
Lemma process_lines_stages metadata_title all_text :
  exists tagged_text headings keep t,
    Tagger.tag_by_font_hierarchy all_text = Some tagged_text /\
    map line tagged_text = all_text /\
    Grouper.group_vertical_headings
      (Dedup.remove_duplicate_headings (classify tagged_text)) = Some headings /\
    (forall h, keep h = true -> Spec.within 100 h = true) /\
    resolve_title metadata_title headings tagged_text = Some t /\
    process_lines metadata_title all_text
      = Some {| title := t; outline := map clean (List.filter keep headings) |} /\
    Forall (fun h => Spec.numbered (h_level h)) headings.
Proof.
  destruct (TaggerFacts.tag_by_font_hierarchy_total all_text)
    as (tagged_text & Et & Hlines & Htags).
  destruct (group_vertical_headings_from
              (Dedup.remove_duplicate_headings (classify tagged_text)))
    as (headings & Eg & Hfrom).
  assert (Hnum : Forall (fun h => Spec.numbered (h_level h)) headings).
  { apply Forall_forall. intros o Ho. apply list_elem_of_In in Ho.
    destruct (Hfrom o Ho) as (seg & Hm & Hseg).
    apply merged_level, in_map_iff in Hm as (h & <- & Hh).
    apply Hseg, unique_from_in, classify_in in Hh as (item & Hin & Hi).
    apply heading_of_accepts in Hi as (Hl & _ & -> & _).
    apply list_elem_of_In in Hin.
    destruct (proj1 (Forall_forall _ _) Htags item Hin) as [E|Hn]; [|exact Hn].
    rewrite E in Hl. discriminate. }
  assert (Hlev : Forall (fun h => is_heading_level (h_level h) = true) headings).
  { eapply Forall_impl; [exact Hnum|]. now intros h (n & -> & _). }
  destruct (DriverFacts.filter_headings_total tagged_text headings Hlev)
    as (keep & Ef & Hkeep).
  destruct (resolve_title_total metadata_title headings tagged_text) as [t Ert].
  exists tagged_text, headings, keep, t.
  repeat split; try assumption.
  unfold process_lines. rewrite Et. simpl. rewrite Eg. simpl.
  rewrite Ef. simpl. rewrite Ert. reflexivity.
Qed.

End PipelineFacts.

(** ** The date "March 2003" *)

Module DateFacts.
Import Driver Spec.

(** Without a bold marker in the font name the classifier rejects the
    three texts: the first by the date patterns, the second as a month
    name, the third as a number. *)
Lemma decide_heading_date_parts t lvl x0 y0 page_width page_height font_name :
  In t date_parts ->
  Classifier.bold_font font_name = false ->
  Classifier.decide_heading t lvl x0 y0 page_width page_height font_name = false.
Proof.
  intros Ht Hb. unfold Classifier.decide_heading. rewrite Hb.
  destruct Ht as [<-|[<-|[<-|[]]]]; destruct lvl; reflexivity.
Qed.

(** Reading an equation [t ++ " " ++ rest = "..."] character by
    character: [t] ends where the constant has its space. *)
Ltac peel t E :=
  repeat (destruct t as [|? t]; simpl in E;
          [ first [discriminate E | injection E as <-; split; reflexivity]
          | first [discriminate E | injection E as -> E] ]).

Lemma split_at_space t rest :
  (t ++ String " " rest)%string = "March 2003" -> t = "March" /\ rest = "2003".
Proof. intros E. peel t E. Qed.

Lemma no_space_in_year t rest : (t ++ String " " rest)%string <> "2003".
Proof. intros E. peel t E. Qed.

(** Two or more texts joined by spaces give "March 2003" only as
    "March" and "2003". *)
Lemma join_is_date t1 t2 l :
  Str.join " " (t1 :: t2 :: l) = "March 2003" ->
  t1 = "March" /\ t2 = "2003" /\ l = [].
Proof.
  change (Str.join " " (t1 :: t2 :: l))
    with (t1 ++ String " " (Str.join " " (t2 :: l)))%string.
  intros E. apply split_at_space in E as [-> E]. split; [reflexivity|].
  destruct l as [|t3 l]; [auto|].
  change (Str.join " " (t2 :: t3 :: l))
    with (t2 ++ String " " (Str.join " " (t3 :: l)))%string in E.
  now apply no_space_in_year in E.
Qed.

(** No heading of phase 2 reads as one of the three texts, unless its
    font is bold. *)
Lemma heading_not_date_part tagged_text h :
  Forall (fun item => In (Str.strip (text (line item))) date_parts ->
                      Classifier.bold_font (font_name (line item)) = false)
         tagged_text ->
  In h (Dedup.remove_duplicate_headings (classify tagged_text)) ->
  ~ In (Str.strip (h_text h)) date_parts.
Proof.
  intros Hfonts Hh Hparts.
  apply PipelineFacts.unique_from_in, PipelineFacts.classify_in in Hh
    as (item & Hin & Hi).
  apply PipelineFacts.heading_of_accepts in Hi as (_ & Hacc & _ & Htext & _).
  rewrite Htext, StrFacts.strip_idem in Hparts.
  apply list_elem_of_In in Hin.
  pose proof (proj1 (Forall_forall _ _) Hfonts item Hin Hparts) as Hb.
  unfold Classifier.is_actual_heading in Hacc.
  rewrite decide_heading_date_parts in Hacc by assumption. discriminate.
Qed.

End DateFacts.

(** ** The title *)

Module TitleFacts.
Import Driver Spec.

Lemma ltb_le a b : (a <= if Num.ltb a b then b else a)%Q.
Proof.
  unfold Num.ltb. destruct (Qle_bool b a) eqn:E; simpl; [apply Qle_refl|].
  apply Qlt_le_weak, Qnot_le_lt. intros H. apply Qle_bool_iff in H. congruence.
Qed.

Lemma ltb_ge a b : (b <= if Num.ltb a b then b else a)%Q.
Proof.
  unfold Num.ltb. destruct (Qle_bool b a) eqn:E; simpl; [|apply Qle_refl].
  now apply Qle_bool_iff.
Qed.

(** [max] returns a member with the greatest key. *)
Lemma max_from_largest {A} (key : A -> Q) l : forall best,
  largest key (best :: l) (Num.max_from key best l).
Proof.
  unfold largest. induction l as [|x l IH]; intros best; simpl.
  - split; [now left|]. repeat constructor. apply Qle_refl.
  - destruct (IH (if Num.ltb (key best) (key x) then x else best)) as [Hin Hall].
    inversion Hall as [|? ? Hb Hl]; subst. split.
    + destruct Hin as [E|Hin]; [|auto].
      rewrite <- E. destruct (Num.ltb (key best) (key x)); auto.
    + assert (Hk : key (if Num.ltb (key best) (key x) then x else best)
                   = if Num.ltb (key best) (key x) then key x else key best)
        by (destruct (Num.ltb (key best) (key x)); reflexivity).
      rewrite Hk in Hb.
      constructor; [|constructor; [|exact Hl]].
      * eapply Qle_trans; [apply ltb_le | exact Hb].
      * eapply Qle_trans; [apply ltb_ge | exact Hb].
Qed.

Lemma max_by_largest {A} (key : A -> Q) l m :
  Num.max_by key l = Some m -> largest key l m.
Proof.
  destruct l as [|x l]; simpl; [discriminate|].
  intros [= <-]. apply max_from_largest.
Qed.

(** The loop over the pages 1 and 2. *)
Lemma first_page_cases {A} (candidates : nat -> list A) key text_of otherwise t :
  first_page candidates key text_of [1; 2] otherwise = Some t ->
  (exists p c, first_with candidates p /\ largest key (candidates p) c
               /\ t = text_of c) \/
  (candidates 1 = [] /\ candidates 2 = [] /\ otherwise = Some t).
Proof.
  simpl. destruct (candidates 1) as [|c1 l1] eqn:E1.
  - destruct (candidates 2) as [|c2 l2] eqn:E2; [auto|].
    simpl. intros [= <-]. left. exists 2, (Num.max_from key c2 l2).
    split; [right; rewrite E1, E2; auto|].
    rewrite E2. split; [apply max_from_largest | reflexivity].
  - simpl. intros [= <-]. left. exists 1, (Num.max_from key c1 l1).
    split; [left; rewrite E1; auto|].
    rewrite E1. split; [apply max_from_largest | reflexivity].
Qed.

Lemma resolve_title_chosen metadata_title headings tagged_text t :
  resolve_title metadata_title headings tagged_text = Some t ->
  chosen_title metadata_title headings tagged_text t.
Proof.
  unfold resolve_title.
  destruct (Grouper.truthy_name metadata_title) eqn:Em.
  - intros ->. destruct t as [|c t]; [discriminate|].
    now apply title_metadata.
  - assert (Hm : no_title metadata_title).
    { destruct metadata_title as [[|c s]|]; [now right | discriminate | now left]. }
    intros E. apply first_page_cases in E as [(p & h & Hp & Hl & ->)|(E1 & E2 & E)].
    + eapply title_heading; eassumption.
    + apply first_page_cases in E as [(p & l & Hp & Hl & ->)|(E3 & E4 & [= <-])].
      * eapply title_line; eassumption.
      * now apply title_untitled.
Qed.

End TitleFacts.

(** * The claims *)

(** ** C1: the filter when there is no breakpoint *)

(** C1 against the code: [seven_levels] has one line at each of the
    levels H1..H7, so no level exceeds 14 and there is no breakpoint;
    the filter keeps the levels below H7 up to [max_heading_level = 6],
    and the outline has an entry of level H6. *)
Theorem no_breakpoint_keeps_H6 :
  exists all_text tagged_text r,
    PageText.extract_all_text_with_font_tags (pages Samples.seven_levels)
      = Some all_text /\
    Tagger.tag_by_font_hierarchy all_text = Some tagged_text /\
    (forall n, Spec.lines_at (H n) tagged_text <= 14) /\
    Driver.find_breakpoint (Driver.count_levels tagged_text) = None /\
    Driver.process_pdf Samples.seven_levels = Some r /\
    In {| e_level := H 6; e_text := "Note"; e_page := 1 |} (outline r).
Proof.
  do 3 eexists.
  split; [vm_compute; reflexivity|].
  split; [vm_compute; reflexivity|].
  split.
  { intros n. unfold Spec.lines_at.
    etransitivity; [apply filter_length_le|]. simpl. lia. }
  split; [vm_compute; reflexivity|].
  split; [vm_compute; reflexivity|].
  simpl. tauto.
Qed.

(** ** C2: runs merged by the vertical grouper *)

(** C2, as stated, fails: the distance is measured from the first
    heading of the group, not between neighbours.  The three headings of
    [three_lines] share page, font and size and lie 45pt apart, but the
    third is 90pt below the first: the grouper returns two records. *)
Lemma neighbours_within_50_not_merged :
  Forall (fun h => h_page h = 1 /\ h_font_name h = Some "Arial"
                   /\ h_font_size h = Some 12%Q) Samples.three_lines /\
  map h_y0 Samples.three_lines = [100; 55; 10]%Q /\
  Grouper.group_vertical_headings Samples.three_lines
  = Some [ {| h_level := H 1; h_text := "Alpha Beta"; h_page := 1; h_y0 := 100;
              h_x0 := None; h_font_name := Some "Arial";
              h_font_size := Some 12%Q |};
           Samples.stacked "Gamma" 10 ].
Proof.
  split; [repeat constructor|]. split; reflexivity.
Qed.

(** C2, amended: take any list of two or more headings of one page,
    font name and font size, and read it in the order of the sort, from
    the top down.  When its second heading is at most 50pt from the
    first and the later ones are at most 80pt from the first, the
    grouper returns exactly one record: the texts (trimmed) joined by
    spaces in that order, the [y0] of the first and topmost heading,
    the page, font and size of the run, and the level of one of its
    members. *)
Theorem run_grouped_into_one (run : list Heading) (h1 h2 : Heading)
    (rest : list Heading) :
  Grouper.sorted_headings run = h1 :: h2 :: rest ->
  Forall (fun h => h_page h = h_page h1 /\
                   h_font_name h = h_font_name h1 /\
                   h_font_size h = h_font_size h1) run ->
  (Num.dist (h_y0 h1) (h_y0 h2) <= 50)%Q ->
  Forall (fun h => (Num.dist (h_y0 h1) (h_y0 h) <= 80)%Q) rest ->
  exists lvl,
    In lvl (map h_level run) /\
    Grouper.group_vertical_headings run
    = Some [ {| h_level := lvl;
                h_text := Str.join " " (map (fun h => Str.strip (h_text h))
                                            (h1 :: h2 :: rest));
                h_page := h_page h1;
                h_y0 := h_y0 h1;
                h_x0 := None;
                h_font_name := h_font_name h1;
                h_font_size := h_font_size h1 |} ].
Proof.
  intros Hsorted Hsame H50 H80.
  assert (Hperm : Permutation (h1 :: h2 :: rest) run)
    by (rewrite <- Hsorted; apply SortFacts.sorted_perm).
  assert (Hsame' : Forall (fun h => h_page h = h_page h1 /\
                                    h_font_name h = h_font_name h1 /\
                                    h_font_size h = h_font_size h1)
                          (h1 :: h2 :: rest))
    by (eapply Permutation_Forall; [symmetry; exact Hperm | exact Hsame]).
  inversion Hsame' as [|? ? _ Hsame2]; subst.
  inversion Hsame2 as [|? ? (Hp2 & Hf2 & Hs2) Hrest]; subst.
  assert (Habsorb : Grouper.absorb h1 1 (h2 :: rest) = (h2 :: rest, [])).
  { rewrite RunFacts.absorb_step.
    - rewrite RunFacts.absorb_all; [reflexivity | lia |].
      apply Forall_forall. intros h Hh.
      pose proof (proj1 (Forall_forall _ _) Hrest h Hh) as (Hp & Hf & Hs).
      pose proof (proj1 (Forall_forall _ _) H80 h Hh) as Hd.
      repeat split; assumption.
    - repeat split; try assumption.
      eapply Qle_trans; [exact H50 | discriminate].
    - now right. }
  assert (Htop : Forall (fun y => (y <= h_y0 h1)%Q) (map h_y0 (h2 :: rest))).
  { pose proof (GrouperFacts.sorted_headings_reading_order run) as Hord.
    rewrite Hsorted in Hord. inversion Hord as [|? ? _ Hfirst]; subst.
    apply Forall_forall. intros y Hy.
    apply list_elem_of_In, in_map_iff in Hy as (h & <- & Hh).
    apply list_elem_of_In in Hh.
    pose proof (proj1 (Forall_forall _ _) Hsame2 h Hh) as (Hp & _).
    destruct (proj1 (Forall_forall _ _) Hfirst h Hh) as [Hlt|[_ Hle]];
      [lia | exact Hle]. }
  destruct (TallyFacts.most_common_in level_eqb (h_level h1)
              (map h_level (h2 :: rest))) as (lvl & Elvl & Hlvl).
  exists lvl. split.
  { eapply Permutation_in; [apply Permutation_map, Hperm | exact Hlvl]. }
  unfold Grouper.group_vertical_headings.
  destruct run as [|x run']; [discriminate Hsorted|].
  cbv zeta. rewrite Hsorted.
  cbn [length Grouper.group_loop]. rewrite Habsorb.
  unfold Grouper.combine. cbv zeta. cbn [map] in Elvl |- *. rewrite Elvl.
  cbn [mbind option_bind Grouper.group_loop].
  rewrite RunFacts.max_from_first; [reflexivity | exact Htop].
Qed.

(** Three lines 40pt apart, given out of order: the third is 80pt below
    the first. *)
Lemma run_grouped_into_one_witness :
  exists lvl,
    Grouper.group_vertical_headings
      [Samples.stacked "Beta" 60; Samples.stacked "Gamma" 20;
       Samples.stacked "Alpha" 100]
    = Some [ {| h_level := lvl; h_text := "Alpha Beta Gamma"; h_page := 1;
                h_y0 := 100; h_x0 := None; h_font_name := Some "Arial";
                h_font_size := Some 12%Q |} ].
Proof.
  destruct (run_grouped_into_one
              [Samples.stacked "Beta" 60; Samples.stacked "Gamma" 20;
               Samples.stacked "Alpha" 100]
              (Samples.stacked "Alpha" 100) (Samples.stacked "Beta" 60)
              [Samples.stacked "Gamma" 20])
    as (lvl & _ & E).
  - reflexivity.
  - repeat constructor.
  - vm_compute. discriminate.
  - repeat constructor. vm_compute. discriminate.
  - exists lvl. exact E.
Defined.

(** ** C3: no line with empty text is emitted *)

(** C3 against the code: the test for an empty text comes before the
    colon rule.  In [colon_first] the cleaned text is [":x"], the colon
    rule cuts it before the colon, and the record with the empty text is
    emitted and tagged. *)
Theorem colon_rule_emits_empty_text :
  exists r tagged,
    PageText.extract_all_text_with_font_tags (pages Samples.colon_first) = Some [r] /\
    text r = EmptyString /\
    Tagger.tag_by_font_hierarchy [r] = Some [tagged] /\
    text (line tagged) = EmptyString /\ tag tagged = H 1.
Proof.
  do 2 eexists.
  split; [vm_compute; reflexivity|].
  split; [reflexivity|].
  split; [vm_compute; reflexivity|].
  split; reflexivity.
Qed.

(** ** C4: the title *)

(** C4, as stated, fails: the candidates of the second step are the
    headings after classification, de-duplication and grouping, not
    the tagged lines.  In [two_line_title] page 1 has heading-level
    tagged lines, but the title is the merged text "ANNUAL REPORT",
    which is the text of no tagged line. *)
Lemma title_is_merged_text :
  exists all_text tagged_text r,
    PageText.extract_all_text_with_font_tags (pages Samples.two_line_title)
      = Some all_text /\
    Tagger.tag_by_font_hierarchy all_text = Some tagged_text /\
    PageText.extract_metadata_title Samples.two_line_title = None /\
    Exists (fun item => page (line item) = 1 /\ tag item = H 1) tagged_text /\
    Driver.process_pdf Samples.two_line_title = Some r /\
    title r = "ANNUAL REPORT" /\
    Forall (fun item => text (line item) <> title r) tagged_text.
Proof.
  do 3 eexists.
  split; [vm_compute; reflexivity|].
  split; [vm_compute; reflexivity|].
  split; [reflexivity|].
  split; [left; split; reflexivity|].
  split; [vm_compute; reflexivity|].
  split; [reflexivity|].
  repeat constructor; discriminate.
Qed.

(** C4, amended: [process_pdf] returns a result whose title follows the
    chain [chosen_title]: a non-empty metadata title as it is;
    otherwise the text of a heading with the largest font size among
    the headings (classified, de-duplicated and grouped, so possibly a
    merged text) of page 1 that have a level other than [H_body] and a
    font size, else of page 2; otherwise the text of a tagged line with
    the largest font size on page 1, else page 2; otherwise
    "Untitled".  The first page with a candidate decides. *)
Theorem title_fallback_chain (d : Document) :
  exists all_text tagged_text headings r,
    PageText.extract_all_text_with_font_tags (pages d) = Some all_text /\
    Tagger.tag_by_font_hierarchy all_text = Some tagged_text /\
    Grouper.group_vertical_headings
      (Dedup.remove_duplicate_headings (Driver.classify tagged_text))
      = Some headings /\
    Driver.process_pdf d = Some r /\
    Spec.chosen_title (PageText.extract_metadata_title d) headings
      tagged_text (title r).
Proof.
  unfold Driver.process_pdf.
  destruct (PageTextFacts.extract_total (pages d)) as [all_text Ee].
  destruct (PipelineFacts.process_lines_stages
              (PageText.extract_metadata_title d) all_text)
    as (tagged_text & headings & keep & t & Et & _ & Eg & _ & Ert & Epl & _).
  exists all_text, tagged_text, headings. eexists.
  rewrite Ee. simpl. rewrite Epl.
  repeat split; try assumption; try reflexivity.
  simpl. now apply TitleFacts.resolve_title_chosen.
Qed.

(** ** C5: the sentence rule of the classifier *)

(** C5, as stated, fails: the source counts the spaces of the text
    ([t.count(' ') > 5]), not its words.  This text is longer than 20
    characters, has a comma and six space-separated words (five
    spaces); its level is not [H_body], it is not bracketed and it does
    not start in lower case; the classifier accepts it (by the
    upper-case rule). *)
Lemma six_words_accepted :
  let t := "ALPHA, BETA GAMMA DELTA EPSILON ZETA" in
  Classifier.bracketed (Str.strip t) = false /\
  Classifier.starts_lower (Str.lstrip (Str.strip t)) = false /\
  20 < String.length (Str.strip t) /\
  Str.has_char "," (Str.strip t) = true /\
  5 < length (Str.split (Str.strip t)) /\
  Classifier.is_actual_heading t (H 1) (Some 50%Q) (Some 700%Q)
    (Some 600%Q) (Some 800%Q) (Some "Arial") = true.
Proof. vm_compute. repeat split; lia. Qed.

(** C5, amended: a text (trimmed) longer than 20 characters that has a
    comma and more than 5 space characters is rejected, whatever its
    level, position and font: the rule fires before the upper-case and
    bold rules, and the three rules before it reject as well. *)
Theorem sentence_rule_rejects (text : string) (lvl : level)
    (x0 y0 page_width page_height : option Q) (font_name : option string) :
  20 < String.length (Str.strip text) ->
  Str.has_char "," (Str.strip text) = true ->
  5 < Str.count_char " " (Str.strip text) ->
  Classifier.is_actual_heading text lvl x0 y0 page_width page_height font_name
  = false.
Proof.
  intros Hlen Hcomma Hspaces.
  unfold Classifier.is_actual_heading, Classifier.decide_heading.
  destruct (Classifier.bracketed _); [reflexivity|].
  destruct (Classifier.starts_lower _); [reflexivity|].
  destruct (level_eqb lvl H_body); [reflexivity|].
  unfold Classifier.sentence_like.
  apply Nat.ltb_lt in Hlen, Hspaces. now rewrite Hlen, Hcomma, Hspaces.
Qed.

(** An upper-case sentence in a bold font, with six spaces. *)
Lemma sentence_rule_rejects_witness :
  Classifier.is_actual_heading "ALPHA, BETA GAMMA DELTA EPSILON ZETA ETA" (H 1)
    (Some 50%Q) (Some 700%Q) (Some 600%Q) (Some 800%Q) (Some "Arial-Bold")
  = false.
Proof.
  apply sentence_rule_rejects; vm_compute; [lia | reflexivity | lia].
Defined.

(** ** C6: the breakpoint *)

(** C6, as stated, fails: the scan stops at H99.  The lines of
    [hundred_sizes] are tagged H1, ..., H99 (one line each) and H100
    (fifteen lines); the count of H100 exceeds 14, and no breakpoint is
    chosen. *)
Lemma breakpoint_scan_stops_at_H99 :
  exists tagged_text,
    Tagger.tag_by_font_hierarchy Samples.hundred_sizes = Some tagged_text /\
    Spec.lines_at (H 100) tagged_text = 15 /\
    default 0 (Driver.count_levels tagged_text !! H 100) = 15 /\
    Driver.find_breakpoint (Driver.count_levels tagged_text) = None.
Proof.
  eexists. split; [vm_compute; reflexivity|].
  split; [vm_compute; reflexivity|].
  split; vm_compute; reflexivity.
Qed.

(** C6, amended: the breakpoint is the lowest level [H k], [1 <= k <= 99],
    whose count exceeds 14; there is none exactly when no level from H1
    to H99 exceeds 14; and the counts are those of all tagged lines. *)
Theorem breakpoint_is_lowest_level_over_14 (counts : gmap level nat) :
  (forall lvl, Driver.find_breakpoint counts = Some lvl <->
     exists k, lvl = H k /\ 1 <= k <= 99 /\
               14 < default 0 (counts !! H k) /\
               forall j, 1 <= j < k -> default 0 (counts !! H j) <= 14) /\
  (Driver.find_breakpoint counts = None <->
     forall k, 1 <= k <= 99 -> default 0 (counts !! H k) <= 14) /\
  (forall tagged_text k,
     default 0 (Driver.count_levels tagged_text !! H k)
     = Spec.lines_at (H k) tagged_text).
Proof.
  unfold Driver.find_breakpoint, Driver.max_items_per_level.
  set (f := fun i => Nat.ltb 14 (default 0 (counts !! H i))).
  split; [|split].
  - intros lvl. split.
    + destruct (List.find f (seq 1 99)) as [k|] eqn:E; [|discriminate].
      intros [= <-]. apply DriverFacts.find_seq_Some in E as (Hk & Hf & Hj).
      exists k. repeat split; [lia | lia | now apply Nat.ltb_lt |].
      intros j Hjk. specialize (Hj j Hjk). apply Nat.ltb_ge in Hj. exact Hj.
    + intros (k & -> & Hk & Hf & Hj).
      assert (E : List.find f (seq 1 99) = Some k).
      { apply DriverFacts.find_seq_Some. repeat split; [lia | lia | |].
        - now apply Nat.ltb_lt.
        - intros j Hjk. apply Nat.ltb_ge. now apply Hj. }
      now rewrite E.
  - split.
    + destruct (List.find f (seq 1 99)) as [k|] eqn:E; [discriminate|].
      intros _ k Hk. apply (proj1 (DriverFacts.find_seq_None f 99 1)) with (j := k) in E;
        [|lia]. now apply Nat.ltb_ge in E.
    + intros Hk.
      assert (E : List.find f (seq 1 99) = None).
      { apply DriverFacts.find_seq_None. intros j Hj. apply Nat.ltb_ge, Hk. lia. }
      now rewrite E.
  - intros tagged_text k. apply DriverFacts.count_levels_spec.
Qed.

(** ** C7: the entries of the outline *)

(** C7: [process_pdf] returns a result for every document; every entry
    of its outline is the [level], [text] and [page] ([clean], an
    [OutlineEntry] has no other field) of a record of the grouped
    headings, and its level is [H n] with [1 <= n <= 6]. *)
Theorem outline_levels_H1_to_H6 (d : Document) :
  exists all_text tagged_text headings r,
    PageText.extract_all_text_with_font_tags (pages d) = Some all_text /\
    Tagger.tag_by_font_hierarchy all_text = Some tagged_text /\
    Grouper.group_vertical_headings
      (Dedup.remove_duplicate_headings (Driver.classify tagged_text))
      = Some headings /\
    Driver.process_pdf d = Some r /\
    Forall (fun e => (exists h, In h headings /\ e = Driver.clean h) /\
                     (exists n, e_level e = H n /\ 1 <= n <= 6))
           (outline r).
Proof.
  unfold Driver.process_pdf.
  destruct (PageTextFacts.extract_total (pages d)) as [all_text Ee].
  rewrite Ee. simpl.
  destruct (PipelineFacts.process_lines_stages
              (PageText.extract_metadata_title d) all_text)
    as (tagged_text & headings & keep & t & Et & _ & Eg & Hkeep & _ & -> & Hnum).
  exists all_text, tagged_text, headings. eexists.
  split; [reflexivity|]. split; [exact Et|]. split; [exact Eg|].
  split; [reflexivity|].
  simpl. apply Forall_forall. intros e He.
  apply list_elem_of_In, in_map_iff in He as (h & <- & Hh).
  apply filter_In in Hh as [Hh Hk]. apply Hkeep in Hk.
  split; [exists h; auto|].
  apply list_elem_of_In in Hh.
  destruct (proj1 (Forall_forall _ _) Hnum h Hh) as (n & En & Hn).
  unfold Spec.within in Hk. simpl. rewrite En in Hk |- *.
  apply andb_prop in Hk as [_ Hk]. apply Nat.leb_le in Hk.
  unfold Driver.max_heading_level in Hk. exists n. split; [reflexivity | lia].
Qed.

(** ** C8: the date "March 2003" *)

(** C8, as stated, fails: the bold rule comes before the date rule.  In
    [bold_date] the line "March 2003" is set in "Arial-Bold"; the
    classifier accepts it and it is an entry of the outline. *)
Lemma bold_date_in_outline :
  Classifier.is_actual_heading "March 2003" (H 1) (Some 50%Q) (Some 700%Q)
    (Some 600%Q) (Some 800%Q) (Some "Arial-Bold") = true /\
  Driver.process_pdf Samples.bold_date
  = Some {| title := "March 2003";
            outline := [ {| e_level := H 1; e_text := "March 2003";
                            e_page := 1 |} ] |}.
Proof. split; vm_compute; reflexivity. Qed.

(** C8, amended: in a font without a bold marker the classifier rejects
    a line that reads "March 2003", at any level and position; and when
    no extracted line that reads "March 2003", "March" or "2003" is set
    in a font with a bold marker, no entry of the outline has the text
    "March 2003", neither from one line nor from grouped lines. *)
Theorem march_2003_not_in_outline :
  (forall text lvl x0 y0 page_width page_height font_name,
     Str.strip text = "March 2003" ->
     Classifier.bold_font font_name = false ->
     Classifier.is_actual_heading text lvl x0 y0 page_width page_height font_name
     = false) /\
  (forall d all_text r,
     PageText.extract_all_text_with_font_tags (pages d) = Some all_text ->
     Forall (fun l => In (Str.strip (text l)) Spec.date_parts ->
                      Classifier.bold_font (font_name l) = false) all_text ->
     Driver.process_pdf d = Some r ->
     Forall (fun e => e_text e <> "March 2003") (outline r)).
Proof.
  split.
  { intros text lvl x0 y0 pw ph fn Ht Hb. unfold Classifier.is_actual_heading.
    rewrite Ht. apply DateFacts.decide_heading_date_parts; [now left | exact Hb]. }
  intros d all_text r Ee Hfonts Ep.
  unfold Driver.process_pdf in Ep. rewrite Ee in Ep. simpl in Ep.
  destruct (PipelineFacts.process_lines_stages
              (PageText.extract_metadata_title d) all_text)
    as (tagged_text & headings & keep & t & _ & Hlines & Eg & _ & _ & Epl & _).
  rewrite Epl in Ep. injection Ep as <-. simpl.
  assert (Hfonts' :
    Forall (fun item => In (Str.strip (text (line item))) Spec.date_parts ->
                        Classifier.bold_font (font_name (line item)) = false)
           tagged_text).
  { apply Forall_forall. intros item Hin.
    apply (proj1 (Forall_forall _ _) Hfonts).
    rewrite <- Hlines. apply list_elem_of_In, in_map, list_elem_of_In, Hin. }
  destruct (PipelineFacts.group_vertical_headings_from
              (Dedup.remove_duplicate_headings (Driver.classify tagged_text)))
    as (out & Eg' & Hfrom).
  rewrite Eg in Eg'. injection Eg' as <-.
  apply Forall_forall. intros e He Htext.
  apply list_elem_of_In, in_map_iff in He as (o & <- & Ho).
  apply filter_In in Ho as [Ho _]. simpl in Htext.
  destruct (Hfrom o Ho) as (seg & Hm & Hseg).
  destruct seg as [|current [|h2 g]]; simpl in Hm.
  - exact Hm.
  - subst o.
    apply (DateFacts.heading_not_date_part tagged_text current Hfonts').
    + apply Hseg. now left.
    + rewrite Htext. now left.
  - destruct Hm as (Hjoin & _). rewrite Htext in Hjoin. symmetry in Hjoin.
    apply DateFacts.join_is_date in Hjoin as (Hc & _ & _).
    apply (DateFacts.heading_not_date_part tagged_text current Hfonts').
    + apply Hseg. now left.
    + rewrite Hc. right. now left.
Qed.

Lemma march_2003_not_in_outline_witness :
  Driver.process_pdf Samples.plain_date
  = Some {| title := "Overview";
            outline := [ {| e_level := H 1; e_text := "Overview"; e_page := 1 |} ] |}
  /\ Forall (fun e => e_text e <> "March 2003")
            [ {| e_level := H 1; e_text := "Overview"; e_page := 1 |} ].
Proof.
  assert (E : Driver.process_pdf Samples.plain_date
              = Some {| title := "Overview";
                        outline := [ {| e_level := H 1; e_text := "Overview";
                                        e_page := 1 |} ] |})
    by (vm_compute; reflexivity).
  split; [exact E|].
  refine (proj2 march_2003_not_in_outline Samples.plain_date _ _ _ _ E).
  - vm_compute. reflexivity.
  - repeat constructor; intros _; reflexivity.
Defined.

(** ** C9: no headings, no error *)

(** C9: when the classifier accepts no line, [process_pdf] returns a
    result with an empty outline; when moreover no line was extracted
    and the metadata has no title, the result is the title "Untitled"
    with the empty outline. *)
Theorem zero_headings_no_error (d : Document) (all_text : list RawLine)
    (tagged_text : list TaggedLine) :
  PageText.extract_all_text_with_font_tags (pages d) = Some all_text ->
  Tagger.tag_by_font_hierarchy all_text = Some tagged_text ->
  Driver.classify tagged_text = [] ->
  (exists r, Driver.process_pdf d = Some r /\ outline r = []) /\
  (all_text = [] -> PageText.extract_metadata_title d = None ->
   Driver.process_pdf d = Some {| title := "Untitled"; outline := [] |}).
Proof.
  intros Ee Et Ec. unfold Driver.process_pdf. rewrite Ee. simpl. split.
  - destruct (PipelineFacts.process_lines_stages
                (PageText.extract_metadata_title d) all_text)
      as (tagged' & headings & keep & t & Et' & _ & Eg & _ & _ & -> & _).
    rewrite Et in Et'. injection Et' as <-. rewrite Ec in Eg.
    injection Eg as <-. eexists. split; reflexivity.
  - intros -> ->. reflexivity.
Qed.

(** A document without pages and without a title. *)
Lemma zero_headings_no_error_witness :
  Driver.process_pdf (Samples.document_of [])
  = Some {| title := "Untitled"; outline := [] |}.
Proof.
  apply (zero_headings_no_error (Samples.document_of []) [] []); reflexivity.
Defined.

(** ** C10: the vertical grouper conserves its input *)

(** C10: the grouper never fails, and its output reads the sorted input
    as consecutive segments, one per output record and in the same
    order: a segment of one heading gives that heading, a longer one
    the merged record whose text is the members' texts, as the grouper
    reads them ([text.strip()]), joined by spaces in scan order; for
    trimmed texts, which is what the pipeline passes
    ([classified_trimmed]), these are the texts themselves.  The
    segments together are the sorted input, which is in reading order
    (page ascending, [y0] descending) and a permutation of the input:
    no heading is dropped or duplicated. *)
Theorem grouper_conserves_headings (headings : list Heading) :
  exists segs out,
    Grouper.group_vertical_headings headings = Some out /\
    concat segs = Grouper.sorted_headings headings /\
    StronglySorted Spec.reads_before (concat segs) /\
    Permutation (concat segs) headings /\
    Forall2 Spec.merged_from segs out /\
    (Forall (fun h => Str.strip (h_text h) = h_text h) headings ->
     Forall2 (fun seg o => 2 <= length seg ->
                           h_text o = Str.join " " (map h_text seg)) segs out).
Proof.
  destruct (GrouperFacts.group_vertical_headings_grouped headings)
    as (segs & out & E & Hg).
  exists segs, out.
  pose proof (GrouperFacts.grouped_concat _ _ _ Hg) as Hc.
  pose proof (GrouperFacts.grouped_merged _ _ _ Hg) as Hm.
  split; [exact E|]. split; [exact Hc|]. rewrite Hc.
  split; [apply GrouperFacts.sorted_headings_reading_order|].
  split; [apply SortFacts.sorted_perm|]. split; [exact Hm|].
  intros Htrim.
  assert (Hsegs : Forall (Forall (fun h => Str.strip (h_text h) = h_text h)) segs).
  { apply Forall_concat. rewrite Hc.
    eapply Permutation_Forall; [symmetry; apply SortFacts.sorted_perm | exact Htrim]. }
  clear - Hm Hsegs. induction Hm as [|seg o segs out Hso _ IH]; [constructor|].
  inversion Hsegs as [|? ? Hseg Hsegs']; subst. constructor; [|now apply IH].
  intros Hlen. destruct seg as [|h1 [|h2 g]]; simpl in Hlen; try lia.
  destruct Hso as (-> & _). f_equal.
  apply map_ext_in. intros h Hh. apply list_elem_of_In in Hh.
  exact (proj1 (Forall_forall _ _) Hseg h Hh).
Qed.

(** * Further properties of the code *)

(** ** De-duplication *)

Module DedupFacts.
Import Dedup.

(** What is kept has a key that was not seen before. *)
Lemma unique_from_fresh outline : forall seen h,
  In h (unique_from seen outline) -> key_of h ∉ seen.
Proof.
  induction outline as [|x l IH]; intros seen h; simpl; [intros []|].
  case_bool_decide as Hx; [apply IH|].
  intros [<-|Hh]; [exact Hx|].
  apply IH in Hh. intros Hs. apply Hh. apply elem_of_union. now right.
Qed.

Lemma unique_from_NoDup outline : forall seen,
  NoDup (map key_of (unique_from seen outline)).
Proof.
  induction outline as [|x l IH]; intros seen; simpl; [constructor|].
  case_bool_decide as Hx; [apply IH|].
  simpl. apply NoDup_cons_2; [|apply IH].
  rewrite list_elem_of_In, in_map_iff. intros (h & Hk & Hh).
  apply unique_from_fresh in Hh. rewrite Hk in Hh.
  apply Hh, elem_of_union. left. now apply elem_of_singleton.
Qed.

(** A list with distinct, unseen keys is left as it is. *)
Lemma unique_from_fixed outline : forall seen,
  NoDup (map key_of outline) ->
  (forall h, In h outline -> key_of h ∉ seen) ->
  unique_from seen outline = outline.
Proof.
  induction outline as [|x l IH]; intros seen Hnd Hseen; simpl; [reflexivity|].
  apply NoDup_cons in Hnd as [Hx Hnd].
  rewrite bool_decide_eq_false_2 by (apply Hseen; now left).
  f_equal. apply IH; [exact Hnd|].
  intros h Hh. specialize (Hseen h (or_intror Hh)).
  assert (Hne : key_of h <> key_of x).
  { intros E. apply Hx. rewrite <- E. apply list_elem_of_In, in_map, Hh. }
  rewrite elem_of_union, elem_of_singleton. tauto.
Qed.

Lemma unique_from_sublist outline : forall seen,
  unique_from seen outline `sublist_of` outline.
Proof.
  induction outline as [|x l IH]; intros seen; simpl; [constructor|].
  case_bool_decide; [apply sublist_cons | apply sublist_skip]; apply IH.
Qed.

(** The loop, one heading further. *)
Lemma unique_from_snoc outline heading : forall seen,
  unique_from seen (outline ++ [heading])%list
  = (unique_from seen outline ++
     if bool_decide (key_of heading ∈ seen \/ key_of heading ∈ map key_of outline)
     then [] else [heading])%list.
Proof.
  induction outline as [|x l IH]; intros seen; simpl.
  - erewrite bool_decide_ext; [reflexivity|]. rewrite elem_of_nil. tauto.
  - case_bool_decide as Hx.
    + rewrite IH. f_equal. erewrite bool_decide_ext; [reflexivity|].
      rewrite elem_of_cons. split; [tauto|]. intros [H|[H|H]]; auto.
      left. now rewrite H.
    + simpl. rewrite IH. do 2 f_equal.
      erewrite bool_decide_ext; [reflexivity|].
      rewrite elem_of_union, elem_of_singleton, elem_of_cons. tauto.
Qed.

End DedupFacts.

(** X1: de-duplication is idempotent. *)
Theorem remove_duplicate_headings_idempotent (outline : list Heading) :
  Dedup.remove_duplicate_headings (Dedup.remove_duplicate_headings outline)
  = Dedup.remove_duplicate_headings outline.
Proof.
  unfold Dedup.remove_duplicate_headings.
  apply DedupFacts.unique_from_fixed; [apply DedupFacts.unique_from_NoDup|].
  intros h _. apply not_elem_of_empty.
Qed.

(** X2: what de-duplication returns is a sub-list of its input (same
    records, same order) in which no two records have the same key: the
    lower-cased trimmed text and the level. *)
Theorem remove_duplicate_headings_distinct (outline : list Heading) :
  Dedup.remove_duplicate_headings outline `sublist_of` outline /\
  NoDup (map Dedup.key_of (Dedup.remove_duplicate_headings outline)).
Proof.
  split; [apply DedupFacts.unique_from_sublist | apply DedupFacts.unique_from_NoDup].
Qed.

(** X3: the first occurrence wins: a heading appended to a list is kept
    exactly when no heading of the list has its key, and the headings
    kept before are not affected. *)
Theorem remove_duplicate_headings_first_wins (outline : list Heading)
    (heading : Heading) :
  Dedup.remove_duplicate_headings (outline ++ [heading])%list
  = (Dedup.remove_duplicate_headings outline ++
     if bool_decide (Dedup.key_of heading ∈ map Dedup.key_of outline)
     then [] else [heading])%list.
Proof.
  unfold Dedup.remove_duplicate_headings. rewrite DedupFacts.unique_from_snoc.
  f_equal. erewrite bool_decide_ext; [reflexivity|].
  split; [|auto]. intros [H|H]; [|exact H]. now apply not_elem_of_empty in H.
Qed.

(** ** The vertical grouper, further *)

Module AbsorbFacts.
Import Grouper Vocab.

(** The inner loop, one heading at a time. *)
Lemma absorb_cons current n h rest :
  absorb current n (h :: rest)
  = if absorbable current n h
    then let '(g, r) := absorb current (S n) rest in (h :: g, r)
    else ([], h :: rest).
Proof.
  simpl. unfold absorbable.
  destruct (Nat.eqb (h_page h) (h_page current)); [|reflexivity].
  destruct (font_similar _ _); [|destruct (Nat.ltb 1 n); reflexivity].
  destruct (size_similar _ _); [|destruct (Nat.ltb 1 n); reflexivity].
  simpl. destruct (Num.leb _ 50); [reflexivity|].
  destruct (Nat.ltb 1 n); [|reflexivity].
  simpl. destruct (Num.leb _ 80); reflexivity.
Qed.

Lemma absorb_absorbed current rest : forall n g r,
  absorb current n rest = (g, r) ->
  absorbed current n g /\
  match r with
  | [] => True
  | next :: _ => absorbable current (n + length g) next = false
  end.
Proof.
  induction rest as [|h rest IH]; intros n g r.
  - intros [= <- <-]. split; exact I.
  - rewrite absorb_cons. destruct (absorbable current n h) eqn:E.
    + destruct (absorb current (S n) rest) as [g' r'] eqn:E'.
      intros [= <- <-]. destruct (IH _ _ _ E') as [Hg Hr].
      split; [split; assumption|].
      simpl. now rewrite Nat.add_succ_r.
    + intros [= <- <-]. split; [exact I|]. simpl. now rewrite Nat.add_0_r.
Qed.

Lemma grouped_well_grouped l segs out :
  Spec.grouped l segs out -> Forall well_grouped segs /\ closed_groups segs.
Proof.
  induction 1 as [|current g r o segs out Ha _ Hg [IH1 IH2]]; [split; constructor|].
  apply absorb_absorbed in Ha as [Hg' Hr].
  split; [constructor; assumption|].
  split; [|exact IH2].
  apply GrouperFacts.grouped_concat in Hg.
  destruct segs as [|[|next seg'] segs']; try exact I.
  simpl in Hg. subst r. exact Hr.
Qed.

(** A member of a group is on the page of the first, has a similar font
    and size, and lies at most 80pt from the first. *)
Lemma absorbable_joins current n h :
  absorbable current n h = true ->
  h_page h = h_page current /\
  font_similar (h_font_name current) (h_font_name h) = true /\
  size_similar (h_font_size current) (h_font_size h) = true /\
  (Num.dist (h_y0 current) (h_y0 h) <= 80)%Q /\
  (n <= 1 -> (Num.dist (h_y0 current) (h_y0 h) <= 50)%Q).
Proof.
  unfold absorbable. intros H.
  apply andb_prop in H as [H Hd]. apply andb_prop in H as [H Hs].
  apply andb_prop in H as [Hp Hf]. apply Nat.eqb_eq in Hp.
  repeat split; try assumption.
  - apply orb_prop in Hd as [Hd|Hd].
    + apply Qle_bool_iff in Hd. eapply Qle_trans; [exact Hd | discriminate].
    + apply andb_prop in Hd as [_ Hd]. now apply Qle_bool_iff in Hd.
  - intros Hn. apply orb_prop in Hd as [Hd|Hd]; [now apply Qle_bool_iff in Hd|].
    apply andb_prop in Hd as [Hd _]. apply Nat.ltb_lt in Hd. lia.
Qed.

Lemma absorbed_members current g : forall n h,
  absorbed current n g -> In h g ->
  h_page h = h_page current /\
  font_similar (h_font_name current) (h_font_name h) = true /\
  size_similar (h_font_size current) (h_font_size h) = true /\
  (Num.dist (h_y0 current) (h_y0 h) <= 80)%Q.
Proof.
  induction g as [|x g IH]; intros n h; simpl; [intros _ []|].
  intros [Hx Hg] [<-|Hh]; [|eapply IH; eassumption].
  apply absorbable_joins in Hx as (? & ? & ? & ? & _). auto.
Qed.

End AbsorbFacts.


(** X5: groups are maximal: a group ends only at the end of the sorted
    list or before a heading that fails the test against the first
    heading of the group (another page, a dissimilar font or size, or
    too far: more than 50pt for a group of one, more than 80pt for a
    longer one). *)
Theorem groups_are_maximal (headings : list Heading) :
  exists segs out,
    Grouper.group_vertical_headings headings = Some out /\
    concat segs = Grouper.sorted_headings headings /\
    Forall2 Spec.merged_from segs out /\
    Vocab.closed_groups segs.
Proof.
  destruct (GrouperFacts.group_vertical_headings_grouped headings)
    as (segs & out & E & Hg).
  exists segs, out. split; [exact E|].
  split; [eapply GrouperFacts.grouped_concat, Hg|].
  split; [eapply GrouperFacts.grouped_merged, Hg|].
  now apply AbsorbFacts.grouped_well_grouped in Hg as [_ Hc].
Qed.

Module OrderFacts.
Import Grouper Vocab.

(** [reads_before] looks at the page and at [y0] only. *)
Lemma reads_before_same a a' b b' :
  h_page a' = h_page a -> h_y0 a' = h_y0 a ->
  h_page b' = h_page b -> h_y0 b' = h_y0 b ->
  Spec.reads_before a b -> Spec.reads_before a' b'.
Proof. unfold Spec.reads_before. intros -> -> -> ->. exact id. Qed.

(** The record of a group has the page and the [y0] of its first
    heading, which is the topmost of the group. *)
Lemma combine_first current g o :
  combine current g = Some o ->
  absorbed current 1 g ->
  Forall (Spec.reads_before current) g ->
  h_page o = h_page current /\ h_y0 o = h_y0 current.
Proof.
  intros Ho Hg Hord. apply GrouperFacts.combine_merged in Ho.
  destruct g as [|h g]; [simpl in Ho; now subst|].
  destruct Ho as (_ & _ & Hp & Hy & _). split; [exact Hp|].
  rewrite Hy. apply RunFacts.max_from_first.
  apply Forall_forall. intros y Hy'.
  apply list_elem_of_In, in_map_iff in Hy' as (x & <- & Hx).
  destruct (AbsorbFacts.absorbed_members _ _ _ _ Hg Hx) as (Hpx & _).
  apply list_elem_of_In in Hx.
  destruct (proj1 (Forall_forall _ _) Hord x Hx) as [Hlt|[_ Hle]]; [lia | exact Hle].
Qed.

Lemma grouped_reading_order l segs out :
  Spec.grouped l segs out ->
  StronglySorted Spec.reads_before l ->
  StronglySorted Spec.reads_before out /\
  Forall (fun o => exists f, In f l /\ h_page o = h_page f /\ h_y0 o = h_y0 f) out.
Proof.
  induction 1 as [|current g r o segs out Ha Ho Hg IH]; [split; constructor|].
  intros Hs. apply StronglySorted_inv in Hs as [Hs Hfirst].
  apply Forall_app in Hfirst as [Hfg Hfr].
  assert (Hr : StronglySorted Spec.reads_before r).
  { clear - Hs. induction g as [|x g IHg]; [exact Hs|].
    apply StronglySorted_inv in Hs as [Hs _]. now apply IHg. }
  destruct (IH Hr) as [IHs IHf].
  apply AbsorbFacts.absorb_absorbed in Ha as [Hab _].
  destruct (combine_first _ _ _ Ho Hab Hfg) as [Hp Hy].
  split.
  - constructor; [exact IHs|].
    eapply Forall_impl; [exact IHf|].
    intros o' (f & Hf & Hp' & Hy'). simpl.
    apply (reads_before_same current o f o'); auto.
    apply list_elem_of_In in Hf. exact (proj1 (Forall_forall _ _) Hfr f Hf).
  - constructor.
    + exists current. split; [now left | auto].
    + eapply Forall_impl; [exact IHf|].
      intros o' (f & Hf & Hpf). exists f. split; [|exact Hpf].
      right. apply in_or_app. now right.
Qed.

End OrderFacts.

(** X6: the grouper returns its records in reading order: page
    ascending, and from the top of the page down ([y0] descending);
    the record of a group stands at the place of its first heading. *)
Theorem grouped_headings_in_reading_order (headings out : list Heading) :
  Grouper.group_vertical_headings headings = Some out ->
  StronglySorted Spec.reads_before out.
Proof.
  destruct (GrouperFacts.group_vertical_headings_grouped headings)
    as (segs & out' & E & Hg).
  rewrite E. intros [= <-].
  eapply OrderFacts.grouped_reading_order; [exact Hg|].
  apply GrouperFacts.sorted_headings_reading_order.
Qed.

(** Two headings 90pt apart, given from the bottom up. *)
Lemma grouped_headings_in_reading_order_witness :
  StronglySorted Spec.reads_before
    [Samples.stacked "Alpha" 100; Samples.stacked "Beta" 10].
Proof.
  apply (grouped_headings_in_reading_order
           [Samples.stacked "Beta" 10; Samples.stacked "Alpha" 100]).
  reflexivity.
Defined.

(** ** The level of a merged record *)

Module MajorityFacts.
Section Counting.
Context {K : Type} (eqb : K -> K -> bool).
Hypothesis eqb_eq : forall a b, eqb a b = true <-> a = b.

Local Abbreviation count := (Vocab.count eqb).
Local Abbreviation counts_of := (Vocab.counts_of eqb).

Lemma eqb_refl k : eqb k k = true.
Proof. now apply eqb_eq. Qed.

Lemma eqb_neq a b : a <> b -> eqb a b = false.
Proof.
  intros Hne. destruct (eqb a b) eqn:E; [|reflexivity].
  apply eqb_eq in E. contradiction.
Qed.

Lemma count_snoc k l x :
  count k (l ++ [x]) = count k l + (if eqb k x then 1 else 0).
Proof.
  unfold count. rewrite List.filter_app, length_app. simpl.
  destruct (eqb k x); reflexivity.
Qed.

Lemma bump_keys_in k d k' :
  In k' (map fst (Tally.bump eqb k d)) <-> k' = k \/ In k' (map fst d).
Proof.
  induction d as [|[k0 n] d IH]; simpl; [intuition congruence|].
  destruct (eqb k k0) eqn:E; simpl.
  - apply eqb_eq in E. subst k0. intuition congruence.
  - rewrite IH. intuition congruence.
Qed.

Lemma bump_NoDup k d : NoDup (map fst d) -> NoDup (map fst (Tally.bump eqb k d)).
Proof.
  induction d as [|[k0 n] d IH]; simpl; intros Hnd.
  - repeat constructor. intros H. inversion H.
  - apply NoDup_cons in Hnd as [Hk0 Hnd].
    destruct (eqb k k0) eqn:E; simpl; apply NoDup_cons_2; auto.
    rewrite list_elem_of_In, bump_keys_in. intros [->|H].
    + rewrite eqb_refl in E. discriminate.
    + apply Hk0. now apply list_elem_of_In.
Qed.

Lemma bump_entries k d k' n' :
  NoDup (map fst d) ->
  In (k', n') (Tally.bump eqb k d) ->
  (k' <> k /\ In (k', n') d) \/
  (k' = k /\ ((exists n, In (k, n) d /\ n' = S n) \/
              (~ In k (map fst d) /\ n' = 1))).
Proof.
  induction d as [|[k0 n] d IH]; simpl; intros Hnd.
  - intros [[= <- <-]|[]]. right. split; [reflexivity|]. right. tauto.
  - apply NoDup_cons in Hnd as [Hk0 Hnd].
    destruct (eqb k k0) eqn:E; simpl.
    + apply eqb_eq in E. subst k0. intros [[= <- <-]|H].
      * right. split; [reflexivity|]. left. eauto.
      * left. split; [|auto]. intros ->. apply Hk0.
        apply list_elem_of_In, in_map_iff. exists (k, n'). auto.
    + intros [[= <- <-]|H].
      * left. split; [|auto]. intros ->. rewrite eqb_refl in E. discriminate.
      * destruct (IH Hnd H) as [[Hne Hin]|[-> [(m & Hin & ->)|[Hnot ->]]]].
        -- left. auto.
        -- right. split; [reflexivity|]. left. eauto.
        -- right. split; [reflexivity|]. right. split; [|reflexivity].
           intros [Hk|Hk]; [|contradiction].
           subst k0. rewrite eqb_refl in E. discriminate.
Qed.

Lemma counts_of_bump l d k :
  counts_of l d -> counts_of (l ++ [k]) (Tally.bump eqb k d).
Proof.
  intros (Hnd & Hcount & Hkeys). split; [now apply bump_NoDup|]. split.
  - intros k' n' Hin. rewrite count_snoc.
    destruct (bump_entries _ _ _ _ Hnd Hin)
      as [[Hne Hin']|[-> [(n & Hin' & ->)|[Hnot ->]]]].
    + rewrite (eqb_neq _ _ Hne), (Hcount _ _ Hin'). lia.
    + rewrite eqb_refl, (Hcount _ _ Hin'). lia.
    + rewrite eqb_refl.
      assert (E : count k l = 0).
      { unfold count. destruct (List.filter (eqb k) l) as [|x f] eqn:Ef; [reflexivity|].
        exfalso. assert (Hx : In x (List.filter (eqb k) l)) by (rewrite Ef; now left).
        apply filter_In in Hx as [Hx Hkx]. apply eqb_eq in Hkx. subst x.
        apply Hnot, Hkeys, Hx. }
      rewrite E. reflexivity.
  - intros k' Hk'. apply bump_keys_in. apply in_app_or in Hk' as [Hk'|[<-|[]]]; auto.
Qed.

Lemma counts_of_fold l : forall pre d,
  counts_of pre d ->
  counts_of (pre ++ l) (fold_left (fun d k => Tally.bump eqb k d) l d).
Proof.
  induction l as [|k l IH]; intros pre d Hd; simpl.
  - now rewrite app_nil_r.
  - replace (pre ++ k :: l)%list with ((pre ++ [k]) ++ l)%list
      by (now rewrite <- app_assoc).
    apply IH, counts_of_bump, Hd.
Qed.

Lemma counts_of_tally l : counts_of l (Tally.tally eqb l).
Proof.
  apply (counts_of_fold l [] []). split; [constructor|]. split; intros ? ? []|| intros ? [].
Qed.

Lemma max_from_nat_max {B} (key : B -> nat) l : forall best x,
  In x (best :: l) -> key x <= key (Num.max_from_nat key best l).
Proof.
  induction l as [|y l IH]; intros best x; simpl.
  - intros [->|[]]. lia.
  - intros [->|[->|Hx]].
    + etransitivity; [|apply IH; now left].
      destruct (Nat.ltb (key x) (key y)) eqn:E; [apply Nat.ltb_lt in E; lia | lia].
    + etransitivity; [|apply IH; now left].
      destruct (Nat.ltb (key best) (key x)) eqn:E; [lia | apply Nat.ltb_ge in E; lia].
    + apply IH. now right.
Qed.

(** The most common key occurs at least as often as any other. *)
Lemma most_common_max l k :
  Tally.most_common eqb l = Some k -> forall k', count k' l <= count k l.
Proof.
  unfold Tally.most_common. destruct (counts_of_tally l) as (Hnd & Hcount & Hkeys).
  destruct (Tally.tally eqb l) as [|e d] eqn:Et; [discriminate|].
  simpl. intros [= <-] k'.
  set (m := Num.max_from_nat snd e d).
  assert (Hm : In m (e :: d)).
  { destruct (TallyFacts.max_from_nat_in snd e d) as [E|E];
      [left; symmetry; exact E | right; exact E]. }
  destruct (List.filter (eqb k') l) as [|x f] eqn:Ef.
  { unfold count at 1. rewrite Ef. simpl. lia. }
  assert (Hx : In k' l).
  { assert (Hx : In x (List.filter (eqb k') l)) by (rewrite Ef; now left).
    apply filter_In in Hx as [Hx Hkx]. apply eqb_eq in Hkx. now subst x. }
  apply Hkeys, in_map_iff in Hx as ([k0 n] & <- & Hin). simpl.
  rewrite <- (Hcount _ _ Hin).
  destruct m as [km nm] eqn:Em. simpl. rewrite <- (Hcount _ _ Hm).
  change n with (snd (k0, n)). change nm with (snd (km, nm)). rewrite <- Em.
  now apply max_from_nat_max.
Qed.

End Counting.

Lemma combine_majority current g o :
  Grouper.combine current g = Some o ->
  forall lvl, Vocab.occurrences lvl (map h_level (current :: g))
              <= Vocab.occurrences (h_level o) (map h_level (current :: g)).
Proof.
  destruct g as [|h g]; simpl.
  - intros [= <-] lvl. unfold Vocab.occurrences. simpl.
    rewrite DriverFacts.level_eqb_refl. destruct (level_eqb _ _); simpl; lia.
  - unfold Grouper.combine. cbv zeta.
    destruct (Tally.most_common level_eqb _) as [lvl0|] eqn:E; [|discriminate].
    simpl. intros [= <-] lvl. simpl.
    exact (most_common_max level_eqb DriverFacts.level_eqb_eq _ _ E lvl).
Qed.

Lemma grouped_majority l segs out :
  Spec.grouped l segs out ->
  Forall2 (fun seg o =>
             forall lvl, Vocab.occurrences lvl (map h_level seg)
                         <= Vocab.occurrences (h_level o) (map h_level seg))
          segs out.
Proof.
  induction 1 as [|current g r o segs out _ Ho _ IH]; constructor; [|exact IH].
  now apply combine_majority.
Qed.

End MajorityFacts.

(** X7: the level of a merged record is a majority level: no level
    occurs more often among the members of the group than the level of
    the record. *)
Theorem merged_level_is_most_frequent (headings : list Heading) :
  exists segs out,
    Grouper.group_vertical_headings headings = Some out /\
    concat segs = Grouper.sorted_headings headings /\
    Forall2 Spec.merged_from segs out /\
    Forall2 (fun seg o =>
               forall lvl, Vocab.occurrences lvl (map h_level seg)
                           <= Vocab.occurrences (h_level o) (map h_level seg))
            segs out.
Proof.
  destruct (GrouperFacts.group_vertical_headings_grouped headings)
    as (segs & out & E & Hg).
  exists segs, out. split; [exact E|].
  split; [eapply GrouperFacts.grouped_concat, Hg|].
  split; [eapply GrouperFacts.grouped_merged, Hg|].
  eapply MajorityFacts.grouped_majority, Hg.
Qed.

(** ** The tagger, further *)

Module ClusterFacts.
Import Tagger Vocab.

Lemma near_iff a b :
  near a b <-> (a - b <= 1 # 10)%Q /\ (b - a <= 1 # 10)%Q.
Proof.
  unfold near, Num.dist, tolerance. rewrite Qabs_Qle_condition. split; intros [H1 H2]; split; lra.
Qed.

Lemma near_refl a : near a a.
Proof. apply near_iff. split; lra. Qed.

Lemma near_sym a b : near a b -> near b a.
Proof. rewrite !near_iff. tauto. Qed.

Lemma near_leb a b : Num.leb (Num.dist a b) tolerance = true <-> near a b.
Proof. apply Qle_bool_iff. Qed.

Lemma ltb_true_iff a b : Num.ltb a b = true <-> (a < b)%Q.
Proof.
  unfold Num.ltb. rewrite negb_true_iff. split.
  - intros E. apply Qnot_le_lt. intros H. apply Qle_bool_iff in H. congruence.
  - intros H. destruct (Qle_bool b a) eqn:E; [|reflexivity].
    apply Qle_bool_iff in E. lra.
Qed.

Lemma ltb_false_iff a b : Num.ltb a b = false <-> (b <= a)%Q.
Proof. unfold Num.ltb. rewrite negb_false_iff. apply Qle_bool_iff. Qed.

(** *** The groups *)

Lemma existsb_near size grouped_sizes :
  List.existsb (fun group => Num.leb (Num.dist size group) tolerance) grouped_sizes
  = true <-> exists group, In group grouped_sizes /\ near size group.
Proof.
  rewrite existsb_exists. split; intros (g & Hg & Hn); exists g; split; auto;
    now apply near_leb.
Qed.

Lemma group_sizes_keeps font_sizes : forall grouped_sizes g,
  In g grouped_sizes -> In g (group_sizes grouped_sizes font_sizes).
Proof.
  induction font_sizes as [|s l IH]; intros acc g Hg; simpl; [exact Hg|].
  destruct (List.existsb _ acc); apply IH; [exact Hg|].
  apply in_or_app. now left.
Qed.

Lemma group_sizes_from font_sizes : forall grouped_sizes g,
  In g (group_sizes grouped_sizes font_sizes) ->
  In g grouped_sizes \/ In g font_sizes.
Proof.
  induction font_sizes as [|s l IH]; intros acc g; simpl; [auto|].
  destruct (List.existsb _ acc); intros Hg; apply IH in Hg as [Hg|Hg]; auto.
  apply in_app_or in Hg as [Hg|[<-|[]]]; auto.
Qed.

(** Every size is near a group. *)
Lemma group_sizes_cover font_sizes : forall grouped_sizes s,
  In s font_sizes ->
  exists g, In g (group_sizes grouped_sizes font_sizes) /\ near s g.
Proof.
  induction font_sizes as [|x l IH]; intros acc s; simpl; [intros []|].
  intros [->|Hs].
  - destruct (List.existsb _ acc) eqn:E.
    + apply existsb_near in E as (g & Hg & Hn). exists g.
      split; [now apply group_sizes_keeps | exact Hn].
    + exists s. split; [|apply near_refl].
      apply group_sizes_keeps, in_or_app. right. now left.
  - destruct (List.existsb _ acc); now apply IH.
Qed.

(** No two groups are near each other. *)
Lemma group_sizes_spread font_sizes : forall grouped_sizes,
  spread grouped_sizes -> spread (group_sizes grouped_sizes font_sizes).
Proof.
  induction font_sizes as [|s l IH]; intros acc Hacc; simpl; [exact Hacc|].
  destruct (List.existsb _ acc) eqn:E; apply IH; [exact Hacc|].
  assert (Hfar : forall g, In g acc -> ~ near s g).
  { intros g Hg Hn. assert (Ht : List.existsb
      (fun group => Num.leb (Num.dist s group) tolerance) acc = true)
      by (apply existsb_near; eauto). congruence. }
  destruct Hacc as [Hnd Hpairs]. split.
  - apply NoDup_app. split; [exact Hnd|]. split; [|repeat constructor; inversion 1].
    intros x Hx Hs. apply list_elem_of_singleton in Hs. subst x.
    apply (Hfar s); [now apply list_elem_of_In | apply near_refl].
  - intros a b Ha Hb Hab.
    apply in_app_or in Ha as [Ha|[<-|[]]]; apply in_app_or in Hb as [Hb|[<-|[]]].
    + now apply Hpairs.
    + intros Hn. apply (Hfar a Ha). now apply near_sym.
    + now apply Hfar.
    + contradiction.
Qed.

Lemma spread_perm l l' : Permutation l l' -> spread l -> spread l'.
Proof.
  intros Hp [Hnd Hpairs]. split.
  - now rewrite <- Hp.
  - intros a b Ha Hb. apply Hpairs; eapply Permutation_in; try eassumption;
      now symmetry.
Qed.

(** *** The clusters, largest first *)

Lemma unique_sizes_perm grouped_sizes :
  Permutation (unique_sizes_of grouped_sizes) grouped_sizes.
Proof. apply SortFacts.sorted_perm. Qed.

Lemma unique_sizes_descending grouped_sizes :
  StronglySorted (fun a b => (b <= a)%Q) (unique_sizes_of grouped_sizes).
Proof.
  apply (SortFacts.StronglySorted_weaken (fun a b => Num.ltb a b = false)).
  { intros a b. apply ltb_false_iff. }
  apply (SortFacts.sorted_strongly (fun a b => Num.ltb b a)).
  - intros a b Hab. apply ltb_true_iff in Hab. apply ltb_false_iff. lra.
  - intros a b c Hab Hbc. apply ltb_false_iff in Hab, Hbc. apply ltb_false_iff. lra.
Qed.

Lemma StronglySorted_lookup {A} (R : A -> A -> Prop) l : forall i j a b,
  StronglySorted R l -> i < j -> l !! i = Some a -> l !! j = Some b -> R a b.
Proof.
  induction l as [|x l IH]; intros i j a b Hs Hij Ha Hb; [discriminate|].
  apply StronglySorted_inv in Hs as [Hs Hx].
  destruct j as [|j]; [lia|]. simpl in Hb.
  destruct i as [|i]; simpl in Ha.
  - injection Ha as ->. apply list_elem_of_lookup_2 in Hb.
    exact (proj1 (Forall_forall _ _) Hx b Hb).
  - eapply (IH i j); eauto. lia.
Qed.

(** An earlier cluster is larger than a later one by more than the
    tolerance. *)
Lemma clusters_gap all_text i j a b :
  i < j -> clusters_of all_text !! i = Some a -> clusters_of all_text !! j = Some b ->
  (b + (1 # 10) < a)%Q.
Proof.
  intros Hij Ha Hb. unfold clusters_of in *.
  set (G := group_sizes [] (font_sizes_of all_text)) in *.
  pose proof (StronglySorted_lookup _ _ _ _ _ _ (unique_sizes_descending G) Hij Ha Hb)
    as Hle. simpl in Hle.
  assert (Hs : spread (unique_sizes_of G)).
  { eapply spread_perm; [symmetry; apply unique_sizes_perm|].
    apply group_sizes_spread. split; [constructor | intros ? ? []]. }
  destruct Hs as [Hnd Hpairs].
  assert (Hne : a <> b).
  { intros ->. pose proof (NoDup_lookup _ _ _ _ Hnd Ha Hb). lia. }
  apply list_elem_of_lookup_2, list_elem_of_In in Ha, Hb.
  pose proof (Hpairs a b Ha Hb Hne) as Hfar. rewrite near_iff in Hfar.
  apply Qnot_le_lt. intros H. apply Hfar. split; lra.
Qed.

Lemma clusters_spread all_text : spread (clusters_of all_text).
Proof.
  eapply spread_perm; [symmetry; apply unique_sizes_perm|].
  apply group_sizes_spread. split; [constructor | intros ? ? []].
Qed.

(** A cluster is the font size of a line. *)
Lemma clusters_from all_text g :
  In g (clusters_of all_text) -> In g (font_sizes_of all_text).
Proof.
  intros Hg. eapply Permutation_in in Hg; [|apply unique_sizes_perm].
  apply group_sizes_from in Hg as [[]|Hg]. exact Hg.
Qed.

(** Every font size is near a cluster. *)
Lemma clusters_cover all_text s :
  In s (font_sizes_of all_text) -> exists g, In g (clusters_of all_text) /\ near s g.
Proof.
  intros Hs. destruct (group_sizes_cover _ [] s Hs) as (g & Hg & Hn).
  exists g. split; [|exact Hn].
  eapply Permutation_in; [symmetry; apply unique_sizes_perm | exact Hg].
Qed.

(** *** The dict *)

Lemma dict_get_set_eq k v d : dict_get k (dict_set k v d) = Some v.
Proof.
  induction d as [|[k0 v0] d IH]; simpl.
  - now rewrite Qeq_bool_refl.
  - destruct (Qeq_bool k k0) eqn:E; simpl; now rewrite E.
Qed.

Lemma dict_get_set_ne k k' v d :
  Qeq_bool k' k = false -> dict_get k' (dict_set k v d) = dict_get k' d.
Proof.
  intros Hne. induction d as [|[k0 v0] d IH]; simpl.
  - now rewrite Hne.
  - destruct (Qeq_bool k k0) eqn:E; simpl.
    + destruct (Qeq_bool k' k0) eqn:E'; [|reflexivity].
      exfalso. apply Qeq_bool_iff in E, E'. apply Qeq_bool_neq in Hne.
      apply Hne. rewrite E', E. reflexivity.
    + destruct (Qeq_bool k' k0); [reflexivity | exact IH].
Qed.

Lemma fill_get_other k l : forall d,
  (forall j s, In (j, s) l -> Qeq_bool k s = false) ->
  dict_get k (Spec.fill d l) = dict_get k d.
Proof.
  induction l as [|[j s] l IH]; intros d Hl; simpl; [reflexivity|].
  rewrite IH by (intros; eapply Hl; right; eassumption).
  apply dict_get_set_ne. eapply Hl. now left.
Qed.

Lemma enumerate_In {A} (l : list A) : forall start j x,
  In (j, x) (PageText.enumerate start l) -> In x l.
Proof.
  induction l as [|y l IH]; intros start j x; simpl; [auto|].
  intros [[= _ ->]|H]; [now left | right; eapply IH, H].
Qed.

Lemma not_near_neq a b : ~ near a b -> Qeq_bool a b = false.
Proof.
  intros Hfar. destruct (Qeq_bool a b) eqn:E; [|reflexivity].
  exfalso. apply Hfar. apply Qeq_bool_iff in E. apply near_iff. split; lra.
Qed.

(** The dict maps the cluster of rank [i] to the level [H (i + 1)]. *)
Lemma fill_enumerate unique_sizes : forall start d i s,
  spread unique_sizes ->
  unique_sizes !! i = Some s ->
  dict_get s (Spec.fill d (PageText.enumerate start unique_sizes))
  = Some (H (start + i + 1)).
Proof.
  induction unique_sizes as [|s0 us IH]; intros start d i s Hs Hi; [discriminate|].
  destruct Hs as [Hnd Hpairs]. apply NoDup_cons in Hnd as [Hs0 Hnd].
  simpl. destruct i as [|i]; simpl in Hi.
  - injection Hi as ->. rewrite fill_get_other.
    + rewrite dict_get_set_eq. do 2 f_equal. lia.
    + intros j x Hx. apply enumerate_In in Hx. apply not_near_neq.
      apply Hpairs; [now left | now right |].
      intros ->. apply Hs0. now apply list_elem_of_In.
  - rewrite (IH (S start) _ i s); [do 2 f_equal; lia | | exact Hi].
    split; [exact Hnd|]. intros a b Ha Hb. apply Hpairs; now right.
Qed.

Lemma size_to_level_lookup all_text i s :
  clusters_of all_text !! i = Some s ->
  dict_get s (size_to_level_of (clusters_of all_text)) = Some (H (i + 1)).
Proof.
  intros Hi. unfold size_to_level_of.
  change (fold_left _ ?l []) with (Spec.fill [] l).
  rewrite (fill_enumerate _ 0 [] i s (clusters_spread all_text) Hi). reflexivity.
Qed.

(** *** The closest cluster *)

Lemma closest_from_Some fs l : forall c s,
  near fs c ->
  closest_from fs (Some c) (Some (Num.dist fs c)) l = Some s ->
  (s = c \/ In s l) /\ near fs s /\
  (Num.dist fs s <= Num.dist fs c)%Q /\
  (forall s', In s' l -> near fs s' -> (Num.dist fs s <= Num.dist fs s')%Q).
Proof.
  induction l as [|x l IH]; intros c s Hc; simpl.
  - intros [= <-]. repeat split; auto; [lra | intros ? []].
  - destruct (Num.leb (Num.dist fs x) tolerance) eqn:Ex; simpl.
    + apply near_leb in Ex.
      destruct (Num.ltb (Num.dist fs x) (Num.dist fs c)) eqn:El.
      * apply ltb_true_iff in El. intros E. apply (IH x s Ex) in E as (Hin & Hn & Hle & Hmin).
        repeat split; [destruct Hin as [->|Hin]; simpl; auto | exact Hn | lra |].
        intros s' [<-|Hs'] Hn'; [exact Hle | now apply Hmin].
      * apply ltb_false_iff in El. intros E. apply (IH c s Hc) in E as (Hin & Hn & Hle & Hmin).
        repeat split; [simpl; tauto | exact Hn | exact Hle |].
        intros s' [<-|Hs'] Hn'; [lra | now apply Hmin].
    + intros E. apply (IH c s Hc) in E as (Hin & Hn & Hle & Hmin).
      repeat split; [simpl; tauto | exact Hn | exact Hle |].
      intros s' [<-|Hs'] Hn'; [|now apply Hmin].
      apply near_leb in Hn'. congruence.
Qed.

(** The search returns a nearest cluster among those near the size,
    and nothing when no cluster is near. *)
Lemma closest_from_spec fs l :
  match closest_from fs None None l with
  | Some s =>
      In s l /\ near fs s /\
      forall s', In s' l -> near fs s' -> (Num.dist fs s <= Num.dist fs s')%Q
  | None => forall s', In s' l -> ~ near fs s'
  end.
Proof.
  induction l as [|x l IH]; simpl; [intros ? []|].
  destruct (Num.leb (Num.dist fs x) tolerance) eqn:Ex; simpl.
  - apply near_leb in Ex.
    destruct (closest_from fs (Some x) (Some (Num.dist fs x)) l) as [s|] eqn:E.
    + apply (closest_from_Some fs l x s Ex) in E as (Hin & Hn & Hle & Hmin).
      repeat split; [destruct Hin as [->|Hin]; simpl; auto | exact Hn |].
      intros s' [<-|Hs'] Hn'; [exact Hle | now apply Hmin].
    + exfalso. clear - E. revert E. generalize (Num.dist fs x). generalize x.
      induction l as [|y l IHl]; intros c m; simpl; [discriminate|].
      destruct (_ && _); apply IHl.
  - destruct (closest_from fs None None l) as [s|].
    + destruct IH as (Hin & Hn & Hmin). repeat split; [simpl; tauto | exact Hn |].
      intros s' [<-|Hs'] Hn'; [|now apply Hmin].
      apply near_leb in Hn'. congruence.
    + intros s' [<-|Hs'] Hn'; [|now apply (IH s')].
      apply near_leb in Hn'. congruence.
Qed.

(** *** The level of a line *)

Lemma font_sizes_of_In all_text s :
  In s (font_sizes_of all_text) <->
  exists item, In item all_text /\ font_size item = Some s /\
               Num.truthy (font_size item) = true.
Proof.
  unfold font_sizes_of. rewrite <- list_elem_of_In, list_elem_of_omap. split.
  - intros (item & Hin & E). exists item. apply list_elem_of_In in Hin.
    destruct (Num.truthy (font_size item)); [auto | discriminate].
  - intros (item & Hin & E & Ht). exists item. apply list_elem_of_In in Hin.
    now rewrite Ht.
Qed.

(** The level of a line with a font size is [H (i + 1)] for the rank
    [i] of a nearest cluster; a line without one is [H_body]. *)
Lemma level_of_spec all_text item :
  In item all_text ->
  match font_size item with
  | Some fs =>
      if Num.truthy (font_size item) then
        exists i s,
          clusters_of all_text !! i = Some s /\ near fs s /\
          (forall s', In s' (clusters_of all_text) -> near fs s' ->
                      (Num.dist fs s <= Num.dist fs s')%Q) /\
          level_of (clusters_of all_text) (size_to_level_of (clusters_of all_text))
                   item = Some (H (i + 1))
      else level_of (clusters_of all_text) (size_to_level_of (clusters_of all_text))
                    item = Some H_body
  | None => level_of (clusters_of all_text) (size_to_level_of (clusters_of all_text))
                     item = Some H_body
  end.
Proof.
  intros Hin. unfold level_of.
  destruct (font_size item) as [fs|] eqn:Ef;
    [|destruct (Num.truthy None); reflexivity].
  destruct (Num.truthy (Some fs)) eqn:Et; [|reflexivity].
  pose proof (closest_from_spec fs (clusters_of all_text)) as Hc.
  destruct (closest_from fs None None (clusters_of all_text)) as [s|].
  - destruct Hc as (Hs & Hn & Hmin).
    apply list_elem_of_In, list_elem_of_lookup_1 in Hs as [i Hi].
    exists i, s. repeat split; try assumption.
    now apply size_to_level_lookup.
  - exfalso. destruct (clusters_cover all_text fs) as (g & Hg & Hn).
    + apply font_sizes_of_In. exists item. rewrite Ef. auto.
    + exact (Hc g Hg Hn).
Qed.

(** The tagger, line by line. *)
Lemma tag_by_font_hierarchy_items all_text tagged_text :
  tag_by_font_hierarchy all_text = Some tagged_text ->
  Forall2 (fun item t =>
             line t = item /\
             level_of (clusters_of all_text) (size_to_level_of (clusters_of all_text))
                      item = Some (tag t))
          all_text tagged_text.
Proof.
  unfold tag_by_font_hierarchy.
  destruct all_text as [|item0 rest]; [intros [= <-]; constructor|].
  set (all_text := item0 :: rest).
  change (unique_sizes_of (group_sizes [] _)) with (clusters_of all_text).
  intros E. apply mapM_Some_1 in E.
  eapply Forall2_impl; [exact E|].
  intros item t Ht. simpl in Ht.
  destruct (level_of _ _ item) as [lvl|]; [|discriminate].
  injection Ht as <-. auto.
Qed.

Lemma tagged_item all_text tagged_text t :
  tag_by_font_hierarchy all_text = Some tagged_text ->
  In t tagged_text ->
  In (line t) all_text /\
  level_of (clusters_of all_text) (size_to_level_of (clusters_of all_text))
           (line t) = Some (tag t).
Proof.
  intros E Ht. apply tag_by_font_hierarchy_items in E.
  destruct (DriverFacts.Forall2_In_r _ _ _ _ E Ht) as (item & Hin & <- & Hl).
  auto.
Qed.

End ClusterFacts.

(** *** The rank of the nearest cluster *)

Module RankFacts.
Import Tagger Vocab ClusterFacts.

Lemma closest_from_acc fs l : forall c s,
  closest_from fs (Some c) (Some (Num.dist fs c)) l = Some s ->
  (s = c /\
   forall s', In s' l -> near fs s' -> (Num.dist fs c <= Num.dist fs s')%Q) \/
  (exists l1 l2, l = (l1 ++ s :: l2)%list /\ first_nearest fs l1 s l2 /\
                 (Num.dist fs s < Num.dist fs c)%Q).
Proof.
  induction l as [|x l IH]; intros c s; simpl.
  - intros [= <-]. left. split; [reflexivity | intros ? []].
  - destruct (Num.leb (Num.dist fs x) tolerance) eqn:Ex; simpl.
    + apply near_leb in Ex.
      destruct (Num.ltb (Num.dist fs x) (Num.dist fs c)) eqn:El.
      * apply ltb_true_iff in El. intros E.
        apply IH in E as [[-> Hmin]|(l1 & l2 & -> & (Hn & Hb & Ha) & Hlt)]; right.
        -- exists [], l. repeat split; [exact Ex | intros ? [] | exact Hmin | exact El].
        -- exists (x :: l1), l2. repeat split; [exact Hn | | exact Ha | lra].
           intros s' [<-|Hs'] Hn'; [exact Hlt | now apply Hb].
      * apply ltb_false_iff in El. intros E.
        apply IH in E as [[-> Hmin]|(l1 & l2 & -> & (Hn & Hb & Ha) & Hlt)].
        -- left. split; [reflexivity|].
           intros s' [<-|Hs'] Hn'; [exact El | now apply Hmin].
        -- right. exists (x :: l1), l2. repeat split; [exact Hn | | exact Ha | exact Hlt].
           intros s' [<-|Hs'] Hn'; [lra | now apply Hb].
    + assert (Hx : ~ near fs x) by (rewrite <- near_leb; congruence).
      intros E.
      apply IH in E as [[-> Hmin]|(l1 & l2 & -> & (Hn & Hb & Ha) & Hlt)].
      * left. split; [reflexivity|].
        intros s' [<-|Hs'] Hn'; [contradiction | now apply Hmin].
      * right. exists (x :: l1), l2. repeat split; [exact Hn | | exact Ha | exact Hlt].
        intros s' [<-|Hs'] Hn'; [contradiction | now apply Hb].
Qed.

Lemma closest_from_split fs l :
  match closest_from fs None None l with
  | Some s => exists l1 l2, l = (l1 ++ s :: l2)%list /\ first_nearest fs l1 s l2
  | None => forall s', In s' l -> ~ near fs s'
  end.
Proof.
  induction l as [|x l IH]; simpl; [intros ? []|].
  destruct (Num.leb (Num.dist fs x) tolerance) eqn:Ex; simpl.
  - apply near_leb in Ex.
    destruct (closest_from fs (Some x) (Some (Num.dist fs x)) l) as [s|] eqn:E.
    + apply closest_from_acc in E
        as [[-> Hmin]|(l1 & l2 & -> & (Hn & Hb & Ha) & Hlt)].
      * exists [], l. repeat split; [exact Ex | intros ? [] | exact Hmin].
      * exists (x :: l1), l2. repeat split; [exact Hn | | exact Ha].
        intros s' [<-|Hs'] Hn'; [exact Hlt | now apply Hb].
    + exfalso. clear - E. revert E. generalize (Num.dist fs x). generalize x.
      induction l as [|y l IHl]; intros c m; simpl; [discriminate|].
      destruct (_ && _); apply IHl.
  - assert (Hx : ~ near fs x) by (rewrite <- near_leb; congruence).
    destruct (closest_from fs None None l) as [s|].
    + destruct IH as (l1 & l2 & -> & Hn & Hb & Ha).
      exists (x :: l1), l2. repeat split; [exact Hn | | exact Ha].
      intros s' [<-|Hs'] Hn'; [contradiction | now apply Hb].
    + intros s' [<-|Hs']; [exact Hx | now apply IH].
Qed.

(** The level of a line with a font size: one more than the rank of
    the first of its nearest clusters. *)
Lemma level_of_rank all_text item fs :
  In item all_text -> font_size item = Some fs ->
  Num.truthy (font_size item) = true ->
  exists l1 s l2,
    clusters_of all_text = (l1 ++ s :: l2)%list /\ first_nearest fs l1 s l2 /\
    tagged_level all_text item = Some (H (length l1 + 1)).
Proof.
  intros Hin Ef Ht. unfold tagged_level, level_of. rewrite Ht, Ef.
  pose proof (closest_from_split fs (clusters_of all_text)) as Hc.
  destruct (closest_from fs None None (clusters_of all_text)) as [s|].
  - destruct Hc as (l1 & l2 & E & Hfn). exists l1, s, l2.
    repeat split; try apply Hfn; [exact E|].
    apply size_to_level_lookup. rewrite E.
    rewrite lookup_app_r by lia. now rewrite Nat.sub_diag.
  - exfalso. destruct (clusters_cover all_text fs) as (g & Hg & Hn).
    + apply font_sizes_of_In. exists item. rewrite Ef. rewrite Ef in Ht. auto.
    + exact (Hc g Hg Hn).
Qed.

Lemma level_of_body all_text item :
  Num.truthy (font_size item) = false -> tagged_level all_text item = Some H_body.
Proof.
  intros Ht. unfold tagged_level, level_of. now rewrite Ht.
Qed.

(** A line is [H_body] exactly when it has no font size. *)
Lemma level_body_iff all_text item lvl :
  In item all_text -> tagged_level all_text item = Some lvl ->
  lvl = H_body <-> Num.truthy (font_size item) = false.
Proof.
  intros Hin El. destruct (Num.truthy (font_size item)) eqn:Ht.
  - destruct (font_size item) as [fs|] eqn:Ef; [|discriminate].
    destruct (level_of_rank all_text item fs Hin Ef) as (l1 & s & l2 & _ & _ & E).
    { now rewrite Ef. }
    rewrite E in El. injection El as <-. split; discriminate.
  - rewrite level_of_body in El by exact Ht. injection El as <-. tauto.
Qed.

Lemma level_rank_inv all_text item k :
  In item all_text -> tagged_level all_text item = Some (H k) ->
  exists fs l1 s l2,
    font_size item = Some fs /\ Num.truthy (font_size item) = true /\
    clusters_of all_text = (l1 ++ s :: l2)%list /\ first_nearest fs l1 s l2 /\
    k = length l1 + 1.
Proof.
  intros Hin El. destruct (Num.truthy (font_size item)) eqn:Ht.
  - destruct (font_size item) as [fs|] eqn:Ef; [|discriminate].
    destruct (level_of_rank all_text item fs Hin Ef) as (l1 & s & l2 & Hc & Hfn & E).
    { now rewrite Ef. }
    rewrite E in El. injection El as <-. exists fs, l1, s, l2. auto.
  - rewrite level_of_body in El by exact Ht. discriminate.
Qed.

(** The distance, case by case. *)
Lemma dist_cases a b :
  (a <= b /\ Num.dist a b == b - a)%Q \/ (b <= a /\ Num.dist a b == a - b)%Q.
Proof.
  unfold Num.dist. destruct (Qlt_le_dec a b) as [Hlt|Hle].
  - left. split; [lra|]. rewrite Qabs_neg by lra. lra.
  - right. split; [exact Hle|]. rewrite Qabs_pos by lra. lra.
Qed.

Lemma near_dec a b : near a b \/ ~ near a b.
Proof.
  unfold near. destruct (Qlt_le_dec tolerance (Num.dist a b)) as [Hlt|Hle];
    [right; lra | left; exact Hle].
Qed.

(** A cluster of lower rank is larger by more than the tolerance. *)
Lemma split_gap all_text l1 s l2 l1' s' l2' :
  clusters_of all_text = (l1 ++ s :: l2)%list ->
  clusters_of all_text = (l1' ++ s' :: l2')%list ->
  length l1 < length l1' ->
  In s l1' /\ In s' l2 /\ (s' + (1 # 10) < s)%Q.
Proof.
  intros E E' Hlen.
  assert (Hs : clusters_of all_text !! length l1 = Some s).
  { rewrite E, lookup_app_r by lia. now rewrite Nat.sub_diag. }
  assert (Hs' : clusters_of all_text !! length l1' = Some s').
  { rewrite E', lookup_app_r by lia. now rewrite Nat.sub_diag. }
  split; [|split].
  - rewrite E', lookup_app_l in Hs by exact Hlen.
    now apply list_elem_of_lookup_2, list_elem_of_In in Hs.
  - rewrite E, lookup_app_r in Hs' by lia.
    destruct (length l1' - length l1) as [|n] eqn:En; [lia|]. simpl in Hs'.
    now apply list_elem_of_lookup_2, list_elem_of_In in Hs'.
  - exact (clusters_gap all_text _ _ s s' Hlen Hs Hs').
Qed.

(** The levels follow the sizes: a line of a lower level index has the
    strictly larger font size. *)
Lemma level_monotone all_text a b i j fa fb :
  In a all_text -> In b all_text ->
  tagged_level all_text a = Some (H i) -> tagged_level all_text b = Some (H j) ->
  font_size a = Some fa -> font_size b = Some fb ->
  i < j -> (fb < fa)%Q.
Proof.
  intros Ha Hb La Lb Efa Efb Hij.
  destruct (level_rank_inv _ _ _ Ha La)
    as (fa' & l1 & s & l2 & Efa' & _ & E & (Hn & Hbef & Haft) & ->).
  destruct (level_rank_inv _ _ _ Hb Lb)
    as (fb' & l1' & s' & l2' & Efb' & _ & E' & (Hn' & Hbef' & Haft') & ->).
  rewrite Efa in Efa'. injection Efa' as <-.
  rewrite Efb in Efb'. injection Efb' as <-.
  destruct (split_gap all_text l1 s l2 l1' s' l2' E E') as (Hs & Hs' & Hgap); [lia|].
  apply near_iff in Hn as [Hn1 Hn2]. apply near_iff in Hn' as [Hn1' Hn2'].
  unfold tolerance in *.
  assert (H2b : (fb + fb < s + s')%Q).
  { destruct (near_dec fb s) as [Hnear|Hfar].
    - specialize (Hbef' s Hs Hnear).
      destruct (dist_cases fb s) as [[? Hd]|[? Hd]],
               (dist_cases fb s') as [[? Hd']|[? Hd']]; lra.
    - rewrite near_iff in Hfar. apply Qnot_le_lt. intros Hle. apply Hfar.
      split; lra. }
  assert (H2a : (s + s' <= fa + fa)%Q).
  { destruct (near_dec fa s') as [Hnear|Hfar].
    - specialize (Haft s' Hs' Hnear).
      destruct (dist_cases fa s) as [[? Hd]|[? Hd]],
               (dist_cases fa s') as [[? Hd']|[? Hd']]; lra.
    - rewrite near_iff in Hfar. apply Qnot_lt_le. intros Hlt. apply Hfar.
      split; lra. }
  lra.
Qed.

(** Every cluster is the font size of a line, and that line has the
    level of the cluster's rank. *)
Lemma cluster_level all_text i s :
  clusters_of all_text !! i = Some s ->
  exists item, In item all_text /\ font_size item = Some s /\
               tagged_level all_text item = Some (H (i + 1)).
Proof.
  intros Hi.
  assert (Hs : In s (clusters_of all_text))
    by now apply list_elem_of_lookup_2, list_elem_of_In in Hi.
  apply clusters_from, font_sizes_of_In in Hs as (item & Hin & Ef & Ht).
  exists item. split; [exact Hin|]. split; [exact Ef|].
  destruct (level_of_rank all_text item s Hin Ef Ht)
    as (l1 & s' & l2 & E & (Hn & _ & _) & El).
  rewrite El. do 3 f_equal.
  assert (Hs' : clusters_of all_text !! length l1 = Some s').
  { rewrite E, lookup_app_r by lia. now rewrite Nat.sub_diag. }
  destruct (clusters_spread all_text) as [Hnd Hpairs].
  destruct (decide (length l1 = i)) as [|Hne]; [assumption|]. exfalso.
  apply (Hpairs s s'); try assumption.
  - now apply list_elem_of_lookup_2, list_elem_of_In in Hi.
  - now apply list_elem_of_lookup_2, list_elem_of_In in Hs'.
  - intros Heq. subst s'. apply Hne. exact (NoDup_lookup _ _ _ _ Hnd Hs' Hi).
Qed.

(** The level indices run from 1 to the number of clusters. *)
Lemma level_bound all_text item k :
  In item all_text -> tagged_level all_text item = Some (H k) ->
  1 <= k <= length (clusters_of all_text).
Proof.
  intros Hin El.
  destruct (level_rank_inv _ _ _ Hin El) as (fs & l1 & s & l2 & _ & _ & E & _ & ->).
  rewrite E, length_app. simpl. lia.
Qed.

(** The tagger returns the lines in order, each with its level. *)
Lemma tagged_all all_text :
  exists tagged_text,
    tag_by_font_hierarchy all_text = Some tagged_text /\
    Forall2 (fun item t => line t = item /\ tagged_level all_text item = Some (tag t))
            all_text tagged_text.
Proof.
  destruct (TaggerFacts.tag_by_font_hierarchy_total all_text) as (tt & E & _).
  exists tt. split; [exact E|]. now apply tag_by_font_hierarchy_items.
Qed.

Lemma tagged_of all_text tagged_text t :
  tag_by_font_hierarchy all_text = Some tagged_text -> In t tagged_text ->
  In (line t) all_text /\ tagged_level all_text (line t) = Some (tag t).
Proof. apply tagged_item. Qed.

Lemma tagged_for all_text tagged_text item :
  tag_by_font_hierarchy all_text = Some tagged_text -> In item all_text ->
  exists t, In t tagged_text /\ line t = item /\
            tagged_level all_text item = Some (tag t).
Proof.
  intros E Hin. apply tag_by_font_hierarchy_items in E.
  destruct (DriverFacts.Forall2_In_l _ _ _ _ E Hin) as (t & Ht & Hl & Hlvl).
  eauto.
Qed.

End RankFacts.

(** X8: the tagger never fails and returns the lines as they are, in
    order; a line is tagged [H_body] exactly when it has no font size
    ([None] or [0]), so every line with a font size gets a numbered
    level. *)
Theorem body_level_iff_no_font_size (all_text : list RawLine) :
  exists tagged_text,
    Tagger.tag_by_font_hierarchy all_text = Some tagged_text /\
    map line tagged_text = all_text /\
    Forall (fun t => tag t = H_body <-> Num.truthy (font_size (line t)) = false)
           tagged_text.
Proof.
  destruct (TaggerFacts.tag_by_font_hierarchy_total all_text) as (tt & E & Hl & _).
  exists tt. split; [exact E|]. split; [exact Hl|].
  apply Forall_forall. intros t Ht. apply list_elem_of_In in Ht.
  destruct (RankFacts.tagged_of _ _ _ E Ht) as [Hin Hlvl].
  exact (RankFacts.level_body_iff _ _ _ Hin Hlvl).
Qed.

(** X9: the levels are used without gaps: when a line is tagged [H k],
    [k] is at least 1 and every level from [H 1] to [H k] is the tag of
    some line. *)
Theorem tagged_levels_have_no_gaps (all_text : list RawLine)
    (tagged_text : list TaggedLine) (t : TaggedLine) (k : nat) :
  Tagger.tag_by_font_hierarchy all_text = Some tagged_text ->
  In t tagged_text -> tag t = H k ->
  1 <= k /\
  forall k', 1 <= k' <= k -> exists t', In t' tagged_text /\ tag t' = H k'.
Proof.
  intros E Ht Hk. destruct (RankFacts.tagged_of _ _ _ E Ht) as [Hin Hlvl].
  rewrite Hk in Hlvl. pose proof (RankFacts.level_bound _ _ _ Hin Hlvl) as Hb.
  split; [lia|]. intros k' Hk'.
  destruct (lookup_lt_is_Some_2 (Vocab.clusters_of all_text) (k' - 1)) as [s Hs];
    [lia|].
  destruct (RankFacts.cluster_level _ _ _ Hs) as (item & Hitem & _ & Hl).
  destruct (RankFacts.tagged_for _ _ _ E Hitem) as (t' & Ht' & _ & Hl').
  exists t'. split; [exact Ht'|].
  rewrite Hl in Hl'. injection Hl' as <-. f_equal. lia.
Qed.

(** Two lines of 12pt and 10pt: the second is [H 2], and [H 1] is
    used. *)
Lemma tagged_levels_have_no_gaps_witness :
  1 <= 2 /\
  forall k', 1 <= k' <= 2 ->
    exists t', In t' [ {| line := Samples.sized_line 12; tag := H 1 |};
                       {| line := Samples.sized_line 10; tag := H 2 |} ] /\
               tag t' = H k'.
Proof.
  apply (tagged_levels_have_no_gaps
           [Samples.sized_line 12; Samples.sized_line 10] _
           {| line := Samples.sized_line 10; tag := H 2 |}).
  - reflexivity.
  - simpl. auto.
  - reflexivity.
Defined.

(** X10: the levels follow the font sizes: of two tagged lines, the
    one with the lower level index has the strictly larger font
    size. *)
Theorem lower_level_index_larger_size (all_text : list RawLine)
    (tagged_text : list TaggedLine) (a b : TaggedLine) (i j : nat) (fa fb : Q) :
  Tagger.tag_by_font_hierarchy all_text = Some tagged_text ->
  In a tagged_text -> In b tagged_text ->
  tag a = H i -> tag b = H j ->
  font_size (line a) = Some fa -> font_size (line b) = Some fb ->
  i < j -> (fb < fa)%Q.
Proof.
  intros E Ha Hb Hi Hj Efa Efb Hij.
  destruct (RankFacts.tagged_of _ _ _ E Ha) as [Hina Hla].
  destruct (RankFacts.tagged_of _ _ _ E Hb) as [Hinb Hlb].
  rewrite Hi in Hla. rewrite Hj in Hlb.
  exact (RankFacts.level_monotone _ _ _ _ _ _ _ Hina Hinb Hla Hlb Efa Efb Hij).
Qed.

Lemma lower_level_index_larger_size_witness : (10 < 12)%Q.
Proof.
  apply (lower_level_index_larger_size
           [Samples.sized_line 10; Samples.sized_line 12]
           [ {| line := Samples.sized_line 10; tag := H 2 |};
             {| line := Samples.sized_line 12; tag := H 1 |} ]
           {| line := Samples.sized_line 12; tag := H 1 |}
           {| line := Samples.sized_line 10; tag := H 2 |} 1 2);
    try reflexivity; simpl; auto.
Defined.

(** X11: a line whose font size is the largest of the document is
    tagged [H 1]. *)
Theorem largest_size_is_H1 (all_text : list RawLine)
    (tagged_text : list TaggedLine) (t : TaggedLine) (fs : Q) :
  Tagger.tag_by_font_hierarchy all_text = Some tagged_text ->
  In t tagged_text ->
  font_size (line t) = Some fs -> Num.truthy (Some fs) = true ->
  (forall item fs', In item all_text -> font_size item = Some fs' ->
                    Num.truthy (Some fs') = true -> (fs' <= fs)%Q) ->
  tag t = H 1.
Proof.
  intros E Ht Ef Htr Hmax. destruct (RankFacts.tagged_of _ _ _ E Ht) as [Hin Hlvl].
  destruct (RankFacts.level_of_rank all_text (line t) fs Hin Ef)
    as (l1 & s & l2 & Hc & _ & Hl); [now rewrite Ef|].
  rewrite Hl in Hlvl. injection Hlvl as Hlvl. rewrite <- Hlvl.
  destruct l1 as [|s0 l1]; [reflexivity|]. exfalso.
  assert (Hs0 : Vocab.clusters_of all_text !! 0 = Some s0) by now rewrite Hc.
  destruct (RankFacts.cluster_level _ _ _ Hs0) as (item & Hitem & Ef0 & Hl0).
  destruct (RankFacts.level_rank_inv _ _ _ Hitem Hl0)
    as (f0 & _ & _ & _ & Ef0' & Htr0 & _).
  rewrite Ef0 in Htr0.
  pose proof (Hmax item s0 Hitem Ef0 Htr0) as Hle.
  assert (Hlt : (fs < s0)%Q).
  { eapply (RankFacts.level_monotone all_text item (line t) 1 (length (s0 :: l1) + 1));
      eauto. simpl. lia. }
  apply Qlt_not_le in Hlt. contradiction.
Qed.

Lemma largest_size_is_H1_witness :
  tag {| line := Samples.sized_line 12; tag := H 1 |} = H 1.
Proof.
  apply (largest_size_is_H1
           [Samples.sized_line 10; Samples.sized_line 12]
           [ {| line := Samples.sized_line 10; tag := H 2 |};
             {| line := Samples.sized_line 12; tag := H 1 |} ]
           {| line := Samples.sized_line 12; tag := H 1 |} 12).
  - reflexivity.
  - simpl. auto.
  - reflexivity.
  - reflexivity.
  - intros item fs' [<-|[<-|[]]] [= <-] _; vm_compute; discriminate.
Defined.



(** ** The outline *)

Module OutlineFacts.
Import Driver Spec.

Lemma StronglySorted_filter {A} (R : A -> A -> Prop) (f : A -> bool) l :
  StronglySorted R l -> StronglySorted R (List.filter f l).
Proof.
  induction 1 as [|x l Hs IH Hx]; simpl; [constructor|].
  destruct (f x); [|exact IH]. constructor; [exact IH|].
  apply Forall_forall. intros y Hy. apply list_elem_of_In, filter_In in Hy as [Hy _].
  apply list_elem_of_In in Hy. exact (proj1 (Forall_forall _ _) Hx y Hy).
Qed.

Lemma StronglySorted_map {A B} (R : A -> A -> Prop) (R' : B -> B -> Prop)
    (f : A -> B) l :
  (forall a b, R a b -> R' (f a) (f b)) ->
  StronglySorted R l -> StronglySorted R' (map f l).
Proof.
  intros HR. induction 1 as [|x l Hs IH Hx]; simpl; constructor; [exact IH|].
  apply Forall_forall. intros y Hy.
  apply list_elem_of_In, in_map_iff in Hy as (a & <- & Ha).
  apply HR. apply list_elem_of_In in Ha. exact (proj1 (Forall_forall _ _) Hx a Ha).
Qed.

(** The stages of [process_lines] with the filter in view. *)
Lemma process_lines_filter metadata_title all_text :
  exists tagged_text headings filtered_headings t,
    Tagger.tag_by_font_hierarchy all_text = Some tagged_text /\
    Grouper.group_vertical_headings
      (Dedup.remove_duplicate_headings (classify tagged_text)) = Some headings /\
    filter_headings (count_levels tagged_text) headings = Some filtered_headings /\
    Forall (fun h => numbered (h_level h)) headings /\
    process_lines metadata_title all_text
      = Some {| title := t; outline := map clean filtered_headings |}.
Proof.
  destruct (PipelineFacts.process_lines_stages metadata_title all_text)
    as (tagged_text & headings & keep & t & Et & _ & Eg & _ & Ert & Ep & Hnum).
  assert (Hlev : Forall (fun h => is_heading_level (h_level h) = true) headings).
  { eapply Forall_impl; [exact Hnum|]. now intros h (n & -> & _). }
  destruct (DriverFacts.filter_headings_total tagged_text headings Hlev)
    as (keep' & Ef & _).
  exists tagged_text, headings, (List.filter keep' headings), t.
  repeat split; try assumption.
  unfold process_lines. rewrite Et. simpl. rewrite Eg. simpl.
  rewrite Ef. simpl. rewrite Ert. reflexivity.
Qed.

(** The headings are in reading order. *)
Lemma headings_reading_order headings out :
  Grouper.group_vertical_headings headings = Some out ->
  StronglySorted reads_before out.
Proof.
  destruct (GrouperFacts.group_vertical_headings_grouped headings)
    as (segs & out' & E & Hg).
  rewrite E. intros [= <-].
  eapply OrderFacts.grouped_reading_order; [exact Hg|].
  apply GrouperFacts.sorted_headings_reading_order.
Qed.

(** A level that the dict of counts holds is the tag of a line. *)
Lemma count_from_positive tagged_text : forall counts : gmap level nat,
  (forall l n, counts !! l = Some n -> 1 <= n) ->
  forall l n, fold_left count_line tagged_text counts !! l = Some n -> 1 <= n.
Proof.
  induction tagged_text as [|item rest IH]; intros counts Hc; simpl; [exact Hc|].
  apply IH. unfold count_line. destruct (is_heading_level (tag item)); [|exact Hc].
  intros l n. destruct (decide (l = tag item)) as [->|Hne].
  - rewrite lookup_insert_eq. intros [= <-]. lia.
  - rewrite lookup_insert_ne by congruence. apply Hc.
Qed.

Lemma lines_at_positive lvl tagged_text :
  1 <= lines_at lvl tagged_text -> exists t, In t tagged_text /\ tag t = lvl.
Proof.
  unfold lines_at. intros Hn.
  destruct (List.filter _ tagged_text) as [|t l] eqn:E; [simpl in Hn; lia|].
  assert (Ht : In t (List.filter (fun item => level_eqb (tag item) lvl) tagged_text))
    by (rewrite E; now left).
  apply filter_In in Ht as [Ht Hl]. exists t. split; [exact Ht|].
  now apply DriverFacts.level_eqb_eq.
Qed.

Lemma counted_level tagged_text n :
  is_Some (count_levels tagged_text !! H n) ->
  exists t, In t tagged_text /\ tag t = H n.
Proof.
  intros [c Hc]. apply lines_at_positive.
  rewrite <- DriverFacts.count_levels_spec, Hc. simpl.
  eapply (count_from_positive tagged_text ∅); [|exact Hc].
  intros l m. rewrite lookup_empty. discriminate.
Qed.

Lemma find_breakpoint_Some tagged_text lvl :
  find_breakpoint (count_levels tagged_text) = Some lvl ->
  exists b, lvl = H b /\ 1 <= b /\ 14 < lines_at (H b) tagged_text.
Proof.
  unfold find_breakpoint. destruct (List.find _ _) as [b|] eqn:E; [|discriminate].
  intros [= <-]. apply DriverFacts.find_seq_Some in E as (Hb & Hlt & _).
  exists b. split; [reflexivity|]. split; [lia|].
  rewrite DriverFacts.count_levels_spec in Hlt.
  apply Nat.ltb_lt in Hlt. exact Hlt.
Qed.

(** What the filter lets through: with the breakpoint [H 1] the [H 1]
    headings that the classifier still accepts, with a deeper
    breakpoint or none the levels below the bound. *)
Lemma filter_headings_cases tagged_text headings filtered_headings h :
  Forall (fun h => is_heading_level (h_level h) = true) headings ->
  filter_headings (count_levels tagged_text) headings = Some filtered_headings ->
  In h filtered_headings ->
  In h headings /\
  ((14 < lines_at (H 1) tagged_text /\ h_level h = H 1 /\ still_heading h = true) \/
   exists bound, within bound h = true /\
                 exists t, In t tagged_text /\ tag t = H bound).
Proof.
  intros Hlev Ef Hh.
  destruct (find_breakpoint (count_levels tagged_text)) as [lvl|] eqn:Eb.
  - pose proof Eb as Eb'.
    apply find_breakpoint_Some in Eb' as (b & -> & Hb & Hlt).
    unfold filter_headings in Ef. rewrite Eb in Ef. simpl in Ef.
    destruct (Nat.eqb b 1) eqn:E1.
    + apply Nat.eqb_eq in E1. subst b. injection Ef as <-.
      apply filter_In in Hh as [Hin Hk]. apply andb_true_iff in Hk as [Hl Hs].
      apply DriverFacts.level_eqb_eq in Hl. split; [exact Hin|]. left. auto.
    + rewrite DriverFacts.keep_below_filter in Ef by exact Hlev.
      injection Ef as <-. apply filter_In in Hh as [Hin Hk].
      split; [exact Hin|]. right. exists b. split; [exact Hk|].
      apply lines_at_positive. lia.
  - destruct (decide (count_levels tagged_text = ∅)) as [He|Hne].
    + unfold filter_headings in Ef. rewrite Eb in Ef.
      rewrite bool_decide_eq_true_2 in Ef by exact He.
      injection Ef as <-. destruct Hh.
    + destruct (DriverFacts.no_breakpoint_filter tagged_text headings Hlev Eb Hne)
        as (deepest & Hd & _ & Ef').
      rewrite Ef' in Ef. injection Ef as <-.
      apply filter_In in Hh as [Hin Hk]. split; [exact Hin|]. right.
      exists deepest. split; [exact Hk|]. now apply counted_level.
Qed.

Lemma within_lt bound h :
  within bound h = true -> exists k, h_level h = H k /\ k < bound /\ k <= 6.
Proof.
  unfold within. destruct (h_level h) as [k|]; [|discriminate].
  intros Hk. apply andb_true_iff in Hk as [Hlt Hle].
  apply Nat.ltb_lt in Hlt. apply Nat.leb_le in Hle.
  exists k. unfold max_heading_level in Hle. auto.
Qed.

(** A heading of the grouper stems from a heading of phase 2 on the
    same page, and from a tagged line. *)
Lemma heading_source tagged_text headings o :
  Grouper.group_vertical_headings
    (Dedup.remove_duplicate_headings (classify tagged_text)) = Some headings ->
  In o headings ->
  exists seg current g,
    seg = current :: g /\ merged_from seg o /\ h_page o = h_page current /\
    forall h, In h seg ->
      exists item, In item tagged_text /\ heading_of item = Some h.
Proof.
  intros Eg Ho.
  destruct (PipelineFacts.group_vertical_headings_from
              (Dedup.remove_duplicate_headings (classify tagged_text)))
    as (out & Eg' & Hfrom).
  rewrite Eg in Eg'. injection Eg' as <-.
  destruct (Hfrom o Ho) as (seg & Hm & Hseg).
  destruct seg as [|current g]; [destruct Hm|].
  exists (current :: g), current, g. split; [reflexivity|]. split; [exact Hm|].
  split.
  - destruct g as [|h g]; [simpl in Hm; now subst o|]. apply Hm.
  - intros h Hh. apply Hseg, PipelineFacts.unique_from_in in Hh.
    now apply PipelineFacts.classify_in.
Qed.

Lemma heading_of_page item h : heading_of item = Some h -> h_page h = page (line item).
Proof.
  unfold heading_of. destruct (_ && _); [|discriminate]. now intros [= <-].
Qed.

End OutlineFacts.

(** X13: [process_pdf] writes a result for every parsed document, and
    the entries of its outline stand in page order. *)
Theorem outline_pages_ascending (d : Document) :
  exists r,
    Driver.process_pdf d = Some r /\
    StronglySorted (fun a b => e_page a <= e_page b) (outline r).
Proof.
  unfold Driver.process_pdf.
  destruct (PageTextFacts.extract_total (pages d)) as [all_text Ea]. rewrite Ea. simpl.
  destruct (OutlineFacts.process_lines_filter
              (PageText.extract_metadata_title d) all_text)
    as (tagged_text & headings & filtered & t & _ & Eg & Ef & Hnum & Ep).
  rewrite Ep. eexists. split; [reflexivity|]. simpl.
  assert (Hlev : Forall (fun h => is_heading_level (h_level h) = true) headings).
  { eapply Forall_impl; [exact Hnum|]. now intros h (n & -> & _). }
  destruct (DriverFacts.filter_headings_total tagged_text headings Hlev)
    as (keep & Ef' & _).
  rewrite Ef in Ef'. injection Ef' as ->.
  apply (OutlineFacts.StronglySorted_map Spec.reads_before).
  - intros a b [Hlt|[He _]]; simpl; lia.
  - apply OutlineFacts.StronglySorted_filter.
    eapply OutlineFacts.headings_reading_order, Eg.
Qed.

(** X14: an outline entry of level [H k] is there because the document
    has a tagged line of a deeper level, or because [k] is 1 and more
    than 14 lines are tagged [H 1]: the deepest level of a document
    never reaches the outline otherwise. *)
Theorem outline_entry_has_deeper_line (metadata_title : option string)
    (all_text : list RawLine) :
  exists tagged_text r,
    Tagger.tag_by_font_hierarchy all_text = Some tagged_text /\
    Driver.process_lines metadata_title all_text = Some r /\
    Forall (fun e =>
              (e_level e = H 1 /\ 14 < Spec.lines_at (H 1) tagged_text) \/
              exists k k' t, e_level e = H k /\ In t tagged_text /\
                             tag t = H k' /\ k < k')
           (outline r).
Proof.
  destruct (OutlineFacts.process_lines_filter metadata_title all_text)
    as (tagged_text & headings & filtered & t & Et & Eg & Ef & Hnum & Ep).
  exists tagged_text. eexists. split; [exact Et|]. split; [exact Ep|]. simpl.
  assert (Hlev : Forall (fun h => is_heading_level (h_level h) = true) headings).
  { eapply Forall_impl; [exact Hnum|]. now intros h (n & -> & _). }
  apply Forall_forall. intros e He.
  apply list_elem_of_In, in_map_iff in He as (h & <- & Hh).
  destruct (OutlineFacts.filter_headings_cases _ _ _ _ Hlev Ef Hh)
    as [_ [(Hlt & Hl & _)|(bound & Hw & t' & Ht' & Htag)]]; simpl.
  - left. auto.
  - right. apply OutlineFacts.within_lt in Hw as (k & Hk & Hlt & _).
    exists k, bound, t'. auto.
Qed.

(** ** Documents of one font size *)

Module UniformFacts.
Import Tagger Vocab ClusterFacts.

Lemma group_sizes_one g font_sizes :
  (forall s, In s font_sizes -> near s g) -> group_sizes [g] font_sizes = [g].
Proof.
  induction font_sizes as [|s l IH]; intros Hn; simpl; [reflexivity|].
  assert (Hs : Num.leb (Num.dist s g) tolerance = true)
    by (apply near_leb, Hn; now left).
  rewrite Hs. simpl. apply IH. intros x Hx. apply Hn. now right.
Qed.

(** Sizes that are all near each other make one cluster. *)
Lemma one_cluster all_text :
  (forall a b, In a (font_sizes_of all_text) -> In b (font_sizes_of all_text) ->
               near a b) ->
  length (clusters_of all_text) <= 1.
Proof.
  intros Hn. unfold clusters_of.
  rewrite (Permutation_length (unique_sizes_perm _)).
  destruct (font_sizes_of all_text) as [|g l]; simpl; [lia|].
  rewrite group_sizes_one; [simpl; lia|].
  intros s Hs. apply Hn; [now right | now left].
Qed.

End UniformFacts.

(** X15: a document whose font sizes are all within the tolerance of
    each other and that has at most 14 lines gets an empty outline:
    every sized line is [H 1], the deepest level, and no level has more
    than 14 lines. *)
Theorem single_size_document_has_empty_outline (metadata_title : option string)
    (all_text : list RawLine) :
  (forall a b, In a (Vocab.font_sizes_of all_text) ->
               In b (Vocab.font_sizes_of all_text) -> Vocab.near a b) ->
  length all_text <= 14 ->
  exists t, Driver.process_lines metadata_title all_text
            = Some {| title := t; outline := [] |}.
Proof.
  intros Hn Hlen.
  destruct (OutlineFacts.process_lines_filter metadata_title all_text)
    as (tagged_text & headings & filtered & t & Et & Eg & Ef & Hnum & Ep).
  exists t. rewrite Ep. do 2 f_equal.
  assert (Hlev : Forall (fun h => is_heading_level (h_level h) = true) headings).
  { eapply Forall_impl; [exact Hnum|]. now intros h (n & -> & _). }
  assert (Hone : forall t' k, In t' tagged_text -> tag t' = H k -> k = 1).
  { intros t' k Ht' Hk. destruct (RankFacts.tagged_of _ _ _ Et Ht') as [Hin Hl].
    rewrite Hk in Hl. pose proof (RankFacts.level_bound _ _ _ Hin Hl).
    pose proof (UniformFacts.one_cluster all_text Hn). lia. }
  assert (Hcount : Spec.lines_at (H 1) tagged_text <= 14).
  { unfold Spec.lines_at. etransitivity; [apply List.filter_length_le|].
    destruct (TaggerFacts.tag_by_font_hierarchy_total all_text) as (tt & Et' & Hl & _).
    rewrite Et in Et'. injection Et' as <-.
    rewrite <- Hl in Hlen. now rewrite length_map in Hlen. }
  destruct filtered as [|h rest]; [reflexivity|]. exfalso.
  destruct (OutlineFacts.filter_headings_cases _ _ _ h Hlev Ef)
    as [Hin [(Hlt & _)|(bound & Hw & t' & Ht' & Htag)]]; [now left | lia |].
  apply OutlineFacts.within_lt in Hw as (k & Hk & Hlt & _).
  pose proof (Hone t' bound Ht' Htag). 
  assert (Hk1 : 1 <= k).
  { apply list_elem_of_In in Hin.
    destruct (proj1 (Forall_forall _ _) Hnum h Hin) as (n & En & Hn1).
    rewrite Hk in En. injection En as ->. exact Hn1. }
  lia.
Qed.

(** Two lines of 12pt. *)
Lemma single_size_document_has_empty_outline_witness :
  exists t, Driver.process_lines None [Samples.sized_line 12; Samples.sized_line 12]
            = Some {| title := t; outline := [] |}.
Proof.
  apply single_size_document_has_empty_outline.
  - intros a b [<-|[<-|[]]] [<-|[<-|[]]]; vm_compute; discriminate.
  - simpl. lia.
Defined.

(** ** Extraction, further *)

Module RecordFacts.
Import PageText Vocab.

Lemma gather_In {A} (f : A -> option (list RawLine)) l : forall rs r,
  gather f l = Some rs -> In r rs ->
  exists x rx, In x l /\ f x = Some rx /\ In r rx.
Proof.
  induction l as [|x l IH]; intros rs r; simpl.
  - intros [= <-] [].
  - destruct (f x) as [rx|] eqn:Ex; [|discriminate]. simpl.
    destruct (gather f l) as [rs'|]; [|discriminate]. simpl.
    intros [= <-] Hr. apply in_app_or in Hr as [Hr|Hr].
    + exists x, rx. auto.
    + destruct (IH rs' r eq_refl Hr) as (y & ry & Hy & Ey & Hry).
      exists y, ry. auto.
Qed.

Lemma enumerate_lookup {A} (l : list A) : forall start k x,
  In (k, x) (enumerate start l) -> start <= k /\ l !! (k - start) = Some x.
Proof.
  induction l as [|y l IH]; intros start k x; simpl; [intros []|].
  intros [[= <- <-]|Hk].
  - split; [lia|]. now rewrite Nat.sub_diag.
  - apply IH in Hk as [Hle Hl]. split; [lia|].
    replace (k - start) with (S (k - S start)) by lia. exact Hl.
Qed.

(** The colon rule keeps the lists or cuts both behind the glyph of
    the colon. *)
Lemma split_at_colon_lists text text_parts font_names font_sizes text' fn fs :
  split_at_colon text text_parts font_names font_sizes = Some (text', fn, fs) ->
  (fn = font_names /\ fs = font_sizes) \/
  exists i, fn = take (S i) font_names /\ fs = take (S i) font_sizes.
Proof.
  unfold split_at_colon.
  destruct (Str.index_char ":" text) as [colon_index|]; [|intros [= _ <- <-]; auto].
  destruct (find_split colon_index 0 0 text_parts) as [split_index|];
    [|intros [= _ <- <-]; auto].
  destruct (Nat.ltb _ _); [|intros [= _ <- <-]; auto].
  destruct (font_names !! split_index) as [fb|]; [|discriminate]. simpl.
  destruct (font_names !! _) as [fa|]; [|discriminate]. simpl.
  destruct (font_sizes !! split_index) as [sb|]; [|discriminate]. simpl.
  destruct (font_sizes !! _) as [sa|]; [|discriminate]. simpl.
  destruct (_ || _); intros [= _ <- <-]; [right; eauto | auto].
Qed.

Lemma glyph_of_name items f :
  In f (map (fun g => g.1.2) (omap glyph_of items)) ->
  exists g, In (LTChar g) items /\ fontname g = f.
Proof.
  rewrite in_map_iff. intros ([[t n] q] & <- & Hg).
  apply list_elem_of_In, list_elem_of_omap in Hg as (it & Hit & Eg).
  destruct it as [g|]; [|discriminate]. injection Eg as _ <- _.
  exists g. split; [now apply list_elem_of_In | reflexivity].
Qed.

Lemma In_take {A} (l : list A) n x : In x (take n l) -> In x l.
Proof.
  intros Hx. apply list_elem_of_In in Hx. apply list_elem_of_In.
  eapply elem_of_sublist; [exact Hx | apply sublist_take].
Qed.

(** The records of a line: the page and the place of the line, a font
    size, and the font name of one of its glyphs. *)
Lemma line_records_fields page_num pg ln rs r :
  line_records page_num pg ln = Some rs -> In r rs ->
  page r = page_num /\ page_width r = width pg /\ page_height r = height pg /\
  y0 r = line_y0 ln /\ x0 r = line_x0 ln /\ x1 r = line_x1 ln /\
  is_Some (font_size r) /\
  exists g, In (LTChar g) (items ln) /\ font_name r = Some (fontname g).
Proof.
  unfold line_records.
  destruct (omap glyph_of (items ln)) as [|g0 gs] eqn:Eg.
  { simpl. intros [= <-] []. }
  set (glyphs := g0 :: gs).
  destruct (_ || _); [intros [= <-] []|].
  destruct (split_at_colon _ _ _ _) as [[[text' fn] fs]|] eqn:Es; [|discriminate].
  simpl. apply split_at_colon_lists in Es.
  assert (Hshape : exists f0 fn' q0 fs',
             fn = f0 :: fn' /\ fs = q0 :: fs' /\
             forall f, In f fn -> In f (map (fun g => g.1.2) glyphs)).
  { destruct Es as [[-> ->]|(i & -> & ->)]; subst glyphs; simpl.
    - do 4 eexists. repeat split. auto.
    - do 4 eexists. repeat split. intros f [<-|Hf]; [now left|].
      right. eapply In_take, Hf. }
  destruct Hshape as (f0 & fn' & q0 & fs' & -> & -> & Hfn).
  destruct (TallyFacts.most_common_in String.eqb f0 fn') as (f & Ef & Hf).
  rewrite Ef. simpl. intros [= <-] [<-|[]]. simpl.
  repeat split; eauto.
  apply Hfn in Hf. subst glyphs. rewrite <- Eg in Hf.
  apply glyph_of_name in Hf as (g & Hg & <-). eauto.
Qed.

(** Every record of [all_text] is the record of a line of a page. *)
Lemma extract_from pages all_text r :
  extract_all_text_with_font_tags pages = Some all_text -> In r all_text ->
  exists pg ln rs,
    line_on pages (page r) pg ln /\
    line_records (page r) pg ln = Some rs /\ In r rs.
Proof.
  unfold extract_all_text_with_font_tags. intros E Hr.
  destruct (gather_In _ _ _ _ E Hr) as ([k pg] & rp & Hk & Ep & Hrp).
  destruct (gather_In _ _ _ _ Ep Hrp) as (e & re & He & Ee & Hre).
  destruct e as [|lines|]; simpl in Ee; try (injection Ee as <-; destruct Hre).
  destruct (gather_In _ _ _ _ Ee Hre) as (b & rb & Hb & Eb & Hrb).
  destruct b as [ln|]; simpl in Eb; [|injection Eb as <-; destruct Hrb].
  destruct (line_records_fields _ _ _ _ _ Eb Hrb) as (Hp & _).
  apply enumerate_lookup in Hk as [Hk Hl].
  exists pg, ln, rb. rewrite Hp. repeat split; eauto.
Qed.

End RecordFacts.

(** X16: every record of [all_text] is made from a horizontal text
    line of a text box of the page it names (pages count from 1): it
    has the place of that line and the size of that page. *)
Theorem extracted_lines_keep_page_and_place (pages : list Page) :
  exists all_text,
    PageText.extract_all_text_with_font_tags pages = Some all_text /\
    Forall (fun r =>
              exists pg ln,
                Vocab.line_on pages (page r) pg ln /\
                y0 r = line_y0 ln /\ x0 r = line_x0 ln /\ x1 r = line_x1 ln /\
                page_width r = width pg /\ page_height r = height pg)
           all_text.
Proof.
  destruct (PageTextFacts.extract_total pages) as [all_text E].
  exists all_text. split; [exact E|].
  apply Forall_forall. intros r Hr. apply list_elem_of_In in Hr.
  destruct (RecordFacts.extract_from _ _ _ E Hr) as (pg & ln & rs & Hon & El & Hrs).
  destruct (RecordFacts.line_records_fields _ _ _ _ _ El Hrs)
    as (_ & Hw & Hh & Hy & Hx0 & Hx1 & _).
  exists pg, ln. auto 10.
Qed.

(** X17: every record of [all_text] has a font size and a font name,
    the name being the font of a glyph of its line: the branch that
    sets both to [None] is never taken, because a line without glyphs
    has an empty text and is skipped. *)
Theorem extracted_lines_have_font (pages : list Page) :
  exists all_text,
    PageText.extract_all_text_with_font_tags pages = Some all_text /\
    Forall (fun r =>
              is_Some (font_size r) /\
              exists pg ln g,
                Vocab.line_on pages (page r) pg ln /\
                In (LTChar g) (items ln) /\ font_name r = Some (fontname g))
           all_text.
Proof.
  destruct (PageTextFacts.extract_total pages) as [all_text E].
  exists all_text. split; [exact E|].
  apply Forall_forall. intros r Hr. apply list_elem_of_In in Hr.
  destruct (RecordFacts.extract_from _ _ _ E Hr) as (pg & ln & rs & Hon & El & Hrs).
  destruct (RecordFacts.line_records_fields _ _ _ _ _ El Hrs)
    as (_ & _ & _ & _ & _ & _ & Hs & g & Hg & Hn).
  split; [exact Hs|]. exists pg, ln, g. auto.
Qed.

(** ** The entries of the outline, further *)

Module EntryFacts.
Import Driver Spec.

(** The classifier accepts no text that starts with a lower-case
    letter. *)
Lemma decide_heading_not_lower t lvl x0 y0 page_width page_height font_name :
  Classifier.decide_heading t lvl x0 y0 page_width page_height font_name = true ->
  Classifier.starts_lower (Str.lstrip t) = false.
Proof.
  unfold Classifier.decide_heading.
  destruct (Classifier.bracketed t); [discriminate|].
  destruct (Classifier.starts_lower (Str.lstrip t)); [discriminate | reflexivity].
Qed.

Lemma heading_of_not_lower item h :
  heading_of item = Some h ->
  h_text h = Str.strip (text (line item)) /\
  Classifier.starts_lower (Str.strip (text (line item))) = false.
Proof.
  intros E. apply PipelineFacts.heading_of_accepts in E as (_ & Ha & _ & Ht & _).
  split; [exact Ht|]. unfold Classifier.is_actual_heading in Ha.
  apply decide_heading_not_lower in Ha.
  now rewrite (StrFacts.lstrip_fixed _ (StrFacts.strip_left_trimmed _)) in Ha.
Qed.

Lemma starts_lower_app a b :
  Classifier.starts_lower a = false ->
  Classifier.starts_lower (a ++ String " " b) = false.
Proof. destruct a as [|c a]; simpl; [reflexivity | auto]. Qed.

Lemma starts_lower_join a b l :
  Classifier.starts_lower a = false ->
  Classifier.starts_lower (Str.join " " (a :: b :: l)) = false.
Proof.
  intros Ha.
  change (Str.join " " (a :: b :: l))
    with (a ++ String " " (Str.join " " (b :: l)))%string.
  now apply starts_lower_app.
Qed.

(** The text of a heading of the grouper does not start with a
    lower-case letter. *)
Lemma heading_not_lower tagged_text headings o :
  Grouper.group_vertical_headings
    (Dedup.remove_duplicate_headings (classify tagged_text)) = Some headings ->
  In o headings -> Classifier.starts_lower (h_text o) = false.
Proof.
  intros Eg Ho.
  destruct (OutlineFacts.heading_source _ _ _ Eg Ho)
    as (seg & current & g & -> & Hm & _ & Hseg).
  destruct (Hseg current (or_introl eq_refl)) as (item & _ & Hi).
  apply heading_of_not_lower in Hi as [Ht Hl].
  destruct g as [|h g]; simpl in Hm.
  - subst o. now rewrite Ht.
  - destruct Hm as (-> & _). simpl map. apply starts_lower_join.
    rewrite Ht, StrFacts.strip_idem. exact Hl.
Qed.

End EntryFacts.

(** X18: no entry of the outline has a text that starts with a
    lower-case letter, merged texts included. *)
Theorem outline_text_never_starts_lower_case (d : Document) :
  exists r,
    Driver.process_pdf d = Some r /\
    Forall (fun e => Classifier.starts_lower (e_text e) = false) (outline r).
Proof.
  unfold Driver.process_pdf.
  destruct (PageTextFacts.extract_total (pages d)) as [all_text Ea]. rewrite Ea. simpl.
  destruct (OutlineFacts.process_lines_filter
              (PageText.extract_metadata_title d) all_text)
    as (tagged_text & headings & filtered & t & Et & Eg & Ef & Hnum & Ep).
  rewrite Ep. eexists. split; [reflexivity|]. simpl.
  assert (Hlev : Forall (fun h => is_heading_level (h_level h) = true) headings).
  { eapply Forall_impl; [exact Hnum|]. now intros h (n & -> & _). }
  apply Forall_forall. intros e He.
  apply list_elem_of_In, in_map_iff in He as (h & <- & Hh).
  destruct (OutlineFacts.filter_headings_cases _ _ _ _ Hlev Ef Hh) as [Hin _].
  simpl. eapply EntryFacts.heading_not_lower; eauto.
Qed.

(** X19: the page of every entry of the outline is the number of a
    page of the document, counted from 1. *)
Theorem outline_pages_exist (d : Document) :
  exists r,
    Driver.process_pdf d = Some r /\
    Forall (fun e => 1 <= e_page e <= length (pages d)) (outline r).
Proof.
  unfold Driver.process_pdf.
  destruct (PageTextFacts.extract_total (pages d)) as [all_text Ea]. rewrite Ea. simpl.
  destruct (OutlineFacts.process_lines_filter
              (PageText.extract_metadata_title d) all_text)
    as (tagged_text & headings & filtered & t & Et & Eg & Ef & Hnum & Ep).
  rewrite Ep. eexists. split; [reflexivity|]. simpl.
  assert (Hlev : Forall (fun h => is_heading_level (h_level h) = true) headings).
  { eapply Forall_impl; [exact Hnum|]. now intros h (n & -> & _). }
  apply Forall_forall. intros e He.
  apply list_elem_of_In, in_map_iff in He as (h & <- & Hh).
  destruct (OutlineFacts.filter_headings_cases _ _ _ _ Hlev Ef Hh) as [Hin _].
  destruct (OutlineFacts.heading_source _ _ _ Eg Hin)
    as (seg & current & g & -> & _ & Hp & Hseg).
  destruct (Hseg current (or_introl eq_refl)) as (item & Hitem & Hi).
  apply OutlineFacts.heading_of_page in Hi. simpl. rewrite Hp, Hi.
  destruct (RankFacts.tagged_of _ _ _ Et Hitem) as [Hline _].
  destruct (RecordFacts.extract_from _ _ _ Ea Hline)
    as (pg & ln & rs & (Hk & Hl & _) & _).
  apply lookup_lt_Some in Hl. lia.
Qed.


(** ** The line normaliser *)

Module CleanFacts.
Import Chars Normalizer Vocab Spec.

Lemma ink_space s : ink (String " " s) = ink s.
Proof. reflexivity. Qed.

Lemma ink_cons c s s' : ink s = ink s' -> ink (String c s) = ink (String c s').
Proof. intros E. simpl. now rewrite E. Qed.

(** The substitutions, one step at a time. *)
Lemma sub_between_step p1 p2 c1 c2 rest :
  sub_between p1 p2 (String c1 (String c2 rest)) =
  if p1 c1 && p2 c2
  then String c1 (String " " (String c2 (sub_between p1 p2 rest)))
  else String c1 (sub_between p1 p2 (String c2 rest)).
Proof. reflexivity. Qed.

Lemma sub_caps_step c1 c2 c3 rest :
  sub_caps (String c1 (String c2 (String c3 rest))) =
  if is_upper c1 && is_upper c2 && is_lower c3
  then String c1 (String " " (String c2 (String c3 (sub_caps rest))))
  else String c1 (sub_caps (String c2 (String c3 rest))).
Proof. reflexivity. Qed.

Lemma sub_after_step x c1 c2 c3 rest :
  sub_after x (String c1 (String c2 (String c3 rest))) =
  if is_alpha c1 && eqc x c2 && is_alpha c3
  then String c1 (String c2 (String " " (String c3 (sub_after x rest))))
  else String c1 (sub_after x (String c2 (String c3 rest))).
Proof. reflexivity. Qed.

Lemma sub_bullet_after_step c1 c2 c3 c4 rest :
  sub_bullet_after (String c1 (String c2 (String c3 (String c4 rest)))) =
  if eqc b1 c1 && eqc b2 c2 && eqc b3 c3 && is_alpha c4
  then bullet (String " " (String c4 (sub_bullet_after rest)))
  else String c1 (sub_bullet_after (String c2 (String c3 (String c4 rest)))).
Proof. reflexivity. Qed.

Lemma sub_bullet_before_step c1 c2 c3 c4 rest :
  sub_bullet_before (String c1 (String c2 (String c3 (String c4 rest)))) =
  if is_lower c1 && eqc b1 c2 && eqc b2 c3 && eqc b3 c4
  then String c1 (String " " (bullet (sub_bullet_before rest)))
  else String c1 (sub_bullet_before (String c2 (String c3 (String c4 rest)))).
Proof. reflexivity. Qed.

Lemma ink_sub_between p1 p2 : forall n s,
  String.length s <= n -> ink (sub_between p1 p2 s) = ink s.
Proof.
  induction n as [|n IH]; intros s Hn.
  - destruct s; [reflexivity | simpl in Hn; lia].
  - destruct s as [|c1 [|c2 rest]]; try reflexivity.
    rewrite sub_between_step. simpl in Hn. destruct (p1 c1 && p2 c2).
    + apply ink_cons. rewrite ink_space. apply ink_cons, IH. lia.
    + apply ink_cons, IH. simpl. lia.
Qed.

Lemma ink_sub_caps : forall n s,
  String.length s <= n -> ink (sub_caps s) = ink s.
Proof.
  induction n as [|n IH]; intros s Hn.
  - destruct s; [reflexivity | simpl in Hn; lia].
  - destruct s as [|c1 [|c2 [|c3 rest]]]; try reflexivity; simpl in Hn.
    rewrite sub_caps_step. destruct (_ && _).
    + apply ink_cons. rewrite ink_space. do 2 apply ink_cons. apply IH. lia.
    + apply ink_cons, IH. simpl. lia.
Qed.

Lemma ink_sub_after x : forall n s,
  String.length s <= n -> ink (sub_after x s) = ink s.
Proof.
  induction n as [|n IH]; intros s Hn.
  - destruct s; [reflexivity | simpl in Hn; lia].
  - destruct s as [|c1 [|c2 [|c3 rest]]]; try reflexivity; simpl in Hn.
    rewrite sub_after_step. destruct (_ && _).
    + do 2 apply ink_cons. rewrite ink_space. apply ink_cons. apply IH. lia.
    + apply ink_cons, IH. simpl. lia.
Qed.

Lemma ink_sub_bullet_after : forall n s,
  String.length s <= n -> ink (sub_bullet_after s) = ink s.
Proof.
  induction n as [|n IH]; intros s Hn.
  - destruct s; [reflexivity | simpl in Hn; lia].
  - destruct s as [|c1 [|c2 [|c3 [|c4 rest]]]]; try reflexivity; simpl in Hn.
    rewrite sub_bullet_after_step. destruct (_ && _) eqn:E.
    + apply andb_true_iff in E as [E _]. apply andb_true_iff in E as [E E3].
      apply andb_true_iff in E as [E1 E2].
      apply Ascii.eqb_eq in E1, E2, E3. subst c1 c2 c3. unfold bullet.
      do 3 apply ink_cons. rewrite ink_space. apply ink_cons, IH. lia.
    + apply ink_cons, IH. simpl. lia.
Qed.

Lemma ink_sub_bullet_before : forall n s,
  String.length s <= n -> ink (sub_bullet_before s) = ink s.
Proof.
  induction n as [|n IH]; intros s Hn.
  - destruct s; [reflexivity | simpl in Hn; lia].
  - destruct s as [|c1 [|c2 [|c3 [|c4 rest]]]]; try reflexivity; simpl in Hn.
    rewrite sub_bullet_before_step. destruct (_ && _) eqn:E.
    + apply andb_true_iff in E as [E E4]. apply andb_true_iff in E as [E E3].
      apply andb_true_iff in E as [_ E2].
      apply Ascii.eqb_eq in E2, E3, E4. subst c2 c3 c4. unfold bullet.
      apply ink_cons. rewrite ink_space. do 3 apply ink_cons. apply IH. lia.
    + apply ink_cons, IH. simpl. lia.
Qed.

Lemma ink_collapse_spaces s : ink (collapse_spaces s) = ink s.
Proof.
  induction s as [|c s IH]; [reflexivity|]. simpl.
  destruct (is_space c) eqn:Ec.
  - destruct s as [|c' s']; [reflexivity|].
    destruct (is_space c') eqn:Ec'; [exact IH|]. rewrite ink_space. exact IH.
  - simpl. now rewrite Ec, IH.
Qed.

Lemma ink_lstrip s : ink (Str.lstrip s) = ink s.
Proof.
  induction s as [|c s IH]; [reflexivity|]. simpl.
  destruct (is_space c) eqn:Ec; [exact IH|]. simpl. now rewrite Ec.
Qed.

Lemma ink_rstrip s : ink (Str.rstrip s) = ink s.
Proof.
  induction s as [|c s IH]; [reflexivity|]. simpl.
  destruct (Str.rstrip s) as [|c' r] eqn:Er.
  - destruct (is_space c) eqn:Ec; simpl; rewrite ?Ec, <- IH; reflexivity.
  - change (ink (String c (String c' r)) = ink (String c s)).
    apply ink_cons. exact IH.
Qed.

Lemma ink_strip s : ink (Str.strip s) = ink s.
Proof. unfold Str.strip. now rewrite ink_rstrip, ink_lstrip. Qed.

(** *** The shape of the result *)

Lemma collapse_left_trimmed c s :
  is_space c = false -> left_trimmed (collapse_spaces (String c s)).
Proof. intros Ec. simpl. rewrite Ec. exact Ec. Qed.

Lemma collapse_single_spaced s : single_spaced (collapse_spaces s).
Proof.
  induction s as [|c s IH]; [exact I|]. simpl.
  destruct (is_space c) eqn:Ec.
  - destruct s as [|c' s']; [simpl; auto|].
    destruct (is_space c') eqn:Ec'; [exact IH|].
    split; [|exact IH]. intros _. split; [reflexivity|].
    now apply collapse_left_trimmed.
  - split; [|exact IH]. intros Hc. simpl in Hc. congruence.
Qed.

Lemma lstrip_single_spaced s : single_spaced s -> single_spaced (Str.lstrip s).
Proof.
  induction s as [|c s IH]; [auto|]. intros [Hc Hs]. simpl.
  destruct (is_space c) eqn:Ec; [now apply IH|]. split; [|exact Hs].
  intros Hc'. congruence.
Qed.

Lemma rstrip_single_spaced s : single_spaced s -> single_spaced (Str.rstrip s).
Proof.
  induction s as [|c s IH]; [auto|]. intros [Hc Hs]. simpl.
  destruct (Str.rstrip s) as [|c' r] eqn:Er.
  - destruct (is_space c) eqn:Ec; simpl; [exact I|]. split; [|exact I].
    intros Hc'. congruence.
  - split; [|now apply IH]. intros Hsp. destruct (Hc Hsp) as [-> Hl].
    split; [reflexivity|]. rewrite <- Er. now apply StrFacts.rstrip_left_trimmed.
Qed.

Lemma strip_single_spaced s : single_spaced s -> single_spaced (Str.strip s).
Proof. intros Hs. now apply rstrip_single_spaced, lstrip_single_spaced. Qed.

End CleanFacts.

(** X21: [clean_text] changes white space only: the characters of the
    result that are not white space are those of the text, in order. *)
Theorem clean_text_keeps_every_other_character (text : string) :
  Vocab.ink (Normalizer.clean_text text) = Vocab.ink text.
Proof.
  unfold Normalizer.clean_text. destruct (Str.is_empty text); [reflexivity|].
  rewrite CleanFacts.ink_strip, CleanFacts.ink_collapse_spaces.
  rewrite (CleanFacts.ink_sub_after _ _ _ (le_n _)).
  rewrite (CleanFacts.ink_sub_after _ _ _ (le_n _)).
  rewrite (CleanFacts.ink_sub_bullet_before _ _ (le_n _)).
  rewrite (CleanFacts.ink_sub_bullet_after _ _ (le_n _)).
  rewrite (CleanFacts.ink_sub_between _ _ _ _ (le_n _)).
  rewrite (CleanFacts.ink_sub_between _ _ _ _ (le_n _)).
  rewrite (CleanFacts.ink_sub_caps _ _ (le_n _)).
  apply (CleanFacts.ink_sub_between _ _ _ _ (le_n _)).
Qed.

(** X22: the result of [clean_text] is trimmed at both ends, and its
    only white space is single spaces between other characters. *)
Theorem clean_text_is_trimmed_and_single_spaced (text : string) :
  Str.strip (Normalizer.clean_text text) = Normalizer.clean_text text /\
  Vocab.single_spaced (Normalizer.clean_text text).
Proof.
  unfold Normalizer.clean_text. destruct (Str.is_empty text) eqn:E.
  - destruct text; [split; [reflexivity | exact I] | discriminate].
  - split; [apply StrFacts.strip_idem|].
    apply CleanFacts.strip_single_spaced, CleanFacts.collapse_single_spaced.
Qed.

(** ** The classifier, further *)

Module RegexFacts.
Import Chars Re.

Lemma accepts_Void s : accepts Void s = false.
Proof. induction s as [|c s IH]; [reflexivity | exact IH]. Qed.

Lemma accepts_Cat_Void r s : accepts (Cat Void r) s = false.
Proof. induction s as [|c s IH]; [reflexivity | exact IH]. Qed.

Lemma accepts_Alt s : forall r1 r2,
  accepts (Alt r1 r2) s = accepts r1 s || accepts r2 s.
Proof. induction s as [|c s IH]; intros r1 r2; [reflexivity | apply IH]. Qed.

Lemma accepts_Cat_Eps r s : accepts (Cat Eps r) s = accepts r s.
Proof.
  destruct s as [|c s]; [reflexivity|]. simpl.
  now rewrite accepts_Alt, accepts_Cat_Void.
Qed.

(** [[...]*] and [[...]+] on a character class *)
Lemma accepts_Star_Cls p s : accepts (Star (Cls p)) s = Str.forallb p s.
Proof.
  induction s as [|c s IH]; [reflexivity|]. simpl.
  destruct (p c); simpl; [now rewrite accepts_Cat_Eps | apply accepts_Cat_Void].
Qed.

Lemma accepts_plus_Cls p s :
  accepts (plus (Cls p)) s =
  match s with
  | EmptyString => false
  | String c s' => p c && Str.forallb p s'
  end.
Proof.
  destruct s as [|c s]; [reflexivity|]. unfold plus. simpl.
  destruct (p c); simpl.
  - now rewrite accepts_Cat_Eps, accepts_Star_Cls.
  - apply accepts_Cat_Void.
Qed.

End RegexFacts.

Module NumberFacts.
Import Chars Re Classifier Vocab.

(** A character of a number is no letter, no white space and no
    opening bracket. *)
Lemma number_char_plain c :
  (is_digit c || eqc "." c || eqc "," c || eqc "/" c || eqc "-" c) = true ->
  is_upper c = false /\ is_lower c = false /\ is_space c = false /\
  eqc " " c = false /\
  c <> "("%char /\ c <> "["%char /\ c <> "{"%char.
Proof.
  destruct c as [[] [] [] [] [] [] [] []]; vm_compute; intros Hc;
    try discriminate Hc; repeat split; discriminate.
Qed.

Lemma number_text_chars t :
  Str.forallb number_char t = true ->
  Str.existsb is_upper t = false /\ Str.count_char " " t = 0.
Proof.
  induction t as [|c t IH]; [auto|]. cbn [Str.forallb Str.existsb Str.count_char].
  intros Hc. apply andb_true_iff in Hc as [Hc Ht].
  destruct (number_char_plain c Hc) as (Hu & _ & _ & Hsp & _).
  destruct (IH Ht) as [Hup Hn]. rewrite Hu, Hsp, Hup, Hn. auto.
Qed.

Lemma startswith_char a c t :
  Str.startswith (String a EmptyString) (String c t) = true -> c = a.
Proof.
  unfold Str.startswith. simpl. destruct (ascii_dec a c); [auto | discriminate].
Qed.

(** The tests that come before the bold rule all fail on a number. *)
Lemma number_text_tests t :
  fullmatch number_chars t = true ->
  bracketed t = false /\ starts_lower (Str.lstrip t) = false /\
  sentence_like t = false /\ all_caps t = false.
Proof.
  unfold fullmatch, number_chars. rewrite RegexFacts.accepts_plus_Cls.
  destruct t as [|c t]; [discriminate|]. intros Hc.
  assert (Hall : Str.forallb number_char (String c t) = true) by exact Hc.
  apply andb_true_iff in Hc as [Hc Ht].
  destruct (number_char_plain c Hc) as (Hu & Hl & Hs & _ & Hb1 & Hb2 & Hb3).
  destruct (number_text_chars _ Hall) as [Hup Hn].
  repeat split.
  - unfold bracketed.
    destruct (Str.startswith "(" (String c t)) eqn:E1;
      [apply startswith_char in E1; contradiction|].
    destruct (Str.startswith "[" (String c t)) eqn:E2;
      [apply startswith_char in E2; contradiction|].
    destruct (Str.startswith "{" (String c t)) eqn:E3;
      [apply startswith_char in E3; contradiction|].
    reflexivity.
  - simpl. rewrite Hs. exact Hl.
  - unfold sentence_like. rewrite Hn. apply andb_false_r.
  - unfold all_caps, Str.isupper. now rewrite Hup.
Qed.

End NumberFacts.

(** X23: position information can only make the classifier accept: a
    text that it accepts without the size of the page (as the filter
    calls it when [H 1] is the breakpoint) it accepts at every
    place on every page. *)
Theorem accepted_without_page_size_accepted_anywhere (text : string) (lvl : level)
    (x0 y0 x0' y0' page_width page_height : option Q) (font_name : option string) :
  Classifier.is_actual_heading text lvl x0 y0 None None font_name = true ->
  Classifier.is_actual_heading text lvl x0' y0' page_width page_height font_name
  = true.
Proof.
  unfold Classifier.is_actual_heading, Classifier.decide_heading.
  destruct (Classifier.bracketed _); [discriminate|].
  destruct (Classifier.starts_lower _); [discriminate|].
  destruct (level_eqb lvl H_body); [discriminate|].
  destruct (Classifier.sentence_like _); [discriminate|].
  destruct (Classifier.all_caps _); [reflexivity|].
  destruct (Classifier.bold_font _); [reflexivity|].
  destruct (Re.fullmatch _ _); [discriminate|].
  destruct (Classifier.is_date_or_month_or_number _); [discriminate|].
  replace (Classifier.centred x0 None) with false by (now destruct x0).
  replace (Classifier.near_top y0 None) with false by (now destruct y0).
  intros ->.
  destruct (Classifier.centred _ _); [reflexivity|].
  destruct (Classifier.near_top _ _); reflexivity.
Qed.

Lemma accepted_without_page_size_accepted_anywhere_witness :
  Classifier.is_actual_heading "Overview" (H 1) (Some 50%Q) (Some 100%Q)
    (Some 600%Q) (Some 800%Q) (Some "Arial") = true.
Proof.
  apply (accepted_without_page_size_accepted_anywhere
           "Overview" (H 1) None None).
  vm_compute. reflexivity.
Defined.

(** X24: a text of digits and the signs [. , / -] is a heading exactly
    when its level is not [H_body] and its font is bold: the bold rule
    comes before the rule that rejects numbers, and no other rule
    accepts such a text. *)
Theorem number_text_is_heading_iff_bold (text : string) (lvl : level)
    (x0 y0 page_width page_height : option Q) (font_name : option string) :
  Re.fullmatch Classifier.number_chars (Str.strip text) = true ->
  Classifier.is_actual_heading text lvl x0 y0 page_width page_height font_name
  = negb (level_eqb lvl H_body) && Classifier.bold_font font_name.
Proof.
  intros Hn. unfold Classifier.is_actual_heading, Classifier.decide_heading.
  destruct (NumberFacts.number_text_tests _ Hn) as (-> & -> & -> & ->).
  rewrite Hn. destruct (level_eqb lvl H_body); [reflexivity|].
  destruct (Classifier.bold_font font_name); reflexivity.
Qed.

(** The page number "12" in a bold font. *)
Lemma number_text_is_heading_iff_bold_witness :
  Classifier.is_actual_heading " 12 " (H 2) (Some 50%Q) (Some 100%Q)
    (Some 600%Q) (Some 800%Q) (Some "Arial-Bold")
  = negb (level_eqb (H 2) H_body) && Classifier.bold_font (Some "Arial-Bold").
Proof.
  apply number_text_is_heading_iff_bold. vm_compute. reflexivity.
Defined.

(** ** The font size of a line *)

Module AverageFacts.
Import PageText.



End AverageFacts.



(** ** The date test *)

Module ShadowFacts.
Import Chars Re Classifier Vocab.

Lemma dead_not_nullable r : dead r = true -> nullable r = false.
Proof.
  induction r as [| |q|r1 IH1 r2 IH2|r1 IH1 r2 IH2|r1 IH1]; simpl;
    try discriminate; try reflexivity.
  - intros Hd. apply orb_true_iff in Hd as [Hd|Hd];
      [rewrite (IH1 Hd); reflexivity | rewrite (IH2 Hd); apply andb_false_r].
  - intros Hd. apply andb_true_iff in Hd as [Hd1 Hd2].
    now rewrite (IH1 Hd1), (IH2 Hd2).
Qed.

Lemma dead_deriv c r : dead r = true -> dead (deriv c r) = true.
Proof.
  induction r as [| |q|r1 IH1 r2 IH2|r1 IH1 r2 IH2|r1 IH1]; simpl;
    try discriminate; try reflexivity.
  - intros Hd. destruct (nullable r1) eqn:En; simpl.
    + apply orb_true_iff in Hd as [Hd|Hd].
      * apply dead_not_nullable in Hd. congruence.
      * rewrite Hd, (IH2 Hd). now rewrite orb_true_r.
    + apply orb_true_iff in Hd as [Hd|Hd];
        [rewrite (IH1 Hd); reflexivity | rewrite Hd; apply orb_true_r].
  - intros Hd. apply andb_true_iff in Hd as [Hd1 Hd2].
    now rewrite (IH1 Hd1), (IH2 Hd2).
Qed.

Lemma dead_accepts s : forall r, dead r = true -> accepts r s = false.
Proof.
  induction s as [|c s IH]; intros r Hd; simpl.
  - now apply dead_not_nullable.
  - now apply IH, dead_deriv.
Qed.

Lemma classes_within_deriv p c r :
  classes_within p r -> classes_within p (deriv c r).
Proof.
  induction r as [| |q|r1 IH1 r2 IH2|r1 IH1 r2 IH2|r1 IH1]; simpl; auto.
  - intros _. destruct (q c); exact I.
  - intros [H1 H2]. destruct (nullable r1); simpl; auto.
  - intros [H1 H2]. auto.
Qed.

(** A character outside the classes of a pattern ends the match. *)
Lemma outside_dead p c r :
  classes_within p r -> p c = false -> dead (deriv c r) = true.
Proof.
  intros Hr Hc.
  induction r as [| |q|r1 IH1 r2 IH2|r1 IH1 r2 IH2|r1 IH1]; simpl in *; auto.
  - destruct (q c) eqn:Eq; [|reflexivity]. apply Hr in Eq. congruence.
  - destruct Hr as [H1 H2]. destruct (nullable r1); simpl.
    + now rewrite (IH1 H1), (IH2 H2).
    + now rewrite (IH1 H1).
  - destruct Hr as [H1 H2]. now rewrite (IH1 H1), (IH2 H2).
  - now rewrite (IH1 Hr).
Qed.

(** A text that a pattern matches is made of characters of its
    classes. *)
Lemma accepts_within p s : forall r,
  classes_within p r -> accepts r s = true -> Str.forallb p s = true.
Proof.
  induction s as [|c s IH]; intros r Hr Ha; [reflexivity|]. simpl in *.
  destruct (p c) eqn:Ec; simpl.
  - eapply IH; [|exact Ha]. now apply classes_within_deriv.
  - rewrite (dead_accepts s _ (outside_dead p c r Hr Ec)) in Ha. discriminate.
Qed.

(** A pattern of digits and number signs that does not match the empty
    text matches numbers only. *)
Lemma number_pattern_shadowed r t :
  classes_within number_char r -> nullable r = false ->
  fullmatch r t = true -> fullmatch number_chars t = true.
Proof.
  intros Hr Hn Ha. unfold fullmatch, number_chars.
  rewrite RegexFacts.accepts_plus_Cls.
  destruct t as [|c t]; [unfold fullmatch in Ha; simpl in Ha; congruence|].
  exact (accepts_within number_char _ r Hr Ha).
Qed.

Lemma digit_within : classes_within number_char digit.
Proof. intros c Hc. unfold number_char. now rewrite Hc. Qed.

Lemma slash_or_dash_within : classes_within number_char slash_or_dash.
Proof.
  intros c Hc. unfold number_char. apply orb_true_iff in Hc as [Hc|Hc]; rewrite Hc;
    repeat rewrite orb_true_r; reflexivity.
Qed.

End ShadowFacts.

(** X26: in [is_date_or_month_or_number] the tests for a numeric date
    ([\d{1,2}[/-]\d{1,2}([/-]\d{2,4})?]) and for a year ([\d{4}]) never
    decide: a text that they match is matched by the first test
    ([[\d.,/\-]+]) already, so the function is the disjunction of the
    other six tests. *)
Theorem numeric_date_tests_never_decide (text : string) :
  Classifier.is_date_or_month_or_number text =
  let t := Str.lower (Str.strip text) in
  Re.fullmatch Classifier.number_chars t
  || Classifier.among t Classifier.MONTHS
  || Re.match_to_end (Re.cats [Classifier.month_name; Classifier.spaces;
                               Classifier.day_year]) t
  || Re.match_to_end (Re.cats [Classifier.month_name; Classifier.spaces;
                               Classifier.year]) t
  || Re.match_to_end (Re.cats [Classifier.month_abbr; Classifier.spaces;
                               Classifier.day_year]) t
  || Re.match_to_end (Re.cats [Classifier.month_abbr; Classifier.spaces;
                               Classifier.year]) t.
Proof.
  unfold Classifier.is_date_or_month_or_number. cbv zeta.
  set (t := Str.lower (Str.strip text)).
  destruct (Re.fullmatch Classifier.number_chars t) eqn:En; [reflexivity|].
  destruct (Classifier.among t Classifier.MONTHS); [reflexivity|].
  destruct (Re.fullmatch (Re.cats _) t) eqn:Ed.
  { apply ShadowFacts.number_pattern_shadowed in Ed; [congruence | | reflexivity].
    pose proof ShadowFacts.digit_within. pose proof ShadowFacts.slash_or_dash_within.
    simpl. tauto. }
  destruct (Re.fullmatch Classifier.year t) eqn:Ey.
  { apply ShadowFacts.number_pattern_shadowed in Ey; [congruence | | reflexivity].
    pose proof ShadowFacts.digit_within. simpl. tauto. }
  simpl.
  repeat match goal with
         | |- context [Re.match_to_end ?r t] => destruct (Re.match_to_end r t)
         end; reflexivity.
Qed.

(** ** Functions that [process_pdf] does not call *)

Module SortedFacts.

Lemma StronglySorted_app_l {A} (R : A -> A -> Prop) l1 l2 :
  StronglySorted R (l1 ++ l2) -> StronglySorted R l1.
Proof.
  induction l1 as [|x l1 IH]; simpl; [constructor|].
  intros Hs. apply StronglySorted_inv in Hs as [Hs Hx].
  constructor; [now apply IH|]. apply Forall_app in Hx. tauto.
Qed.

Lemma StronglySorted_app_pair {A} (R : A -> A -> Prop) l1 l2 x y :
  StronglySorted R (l1 ++ l2) -> In x l1 -> In y l2 -> R x y.
Proof.
  induction l1 as [|z l1 IH]; simpl; [intros _ []|].
  intros Hs Hx Hy. apply StronglySorted_inv in Hs as [Hs Hz].
  destruct Hx as [->|Hx]; [|now apply IH].
  apply (proj1 (Forall_forall _ _) Hz). apply list_elem_of_In, in_or_app. now right.
Qed.

Lemma StronglySorted_and {A} (R R' : A -> A -> Prop) l :
  StronglySorted R l -> StronglySorted R' l ->
  StronglySorted (fun a b => R a b /\ R' a b) l.
Proof.
  induction 1 as [|x l Hs IH Hx]; intros Hs'; [constructor|].
  apply StronglySorted_inv in Hs' as [Hs' Hx'].
  constructor; [now apply IH|].
  apply Forall_forall. intros y Hy.
  split; [exact (proj1 (Forall_forall _ _) Hx y Hy)
         | exact (proj1 (Forall_forall _ _) Hx' y Hy)].
Qed.

(** A symmetric relation that holds between all members in one order
    holds in every order. *)
Lemma StronglySorted_perm {A} (R : A -> A -> Prop) l l' :
  (forall a b, R a b -> R b a) ->
  Permutation l l' -> StronglySorted R l -> StronglySorted R l'.
Proof.
  intros Hsym. induction 1 as [|x l l' Hp IH|x y l|l l' l'' _ IH1 _ IH2];
    intros Hs; auto.
  - apply StronglySorted_inv in Hs as [Hs Hx].
    constructor; [now apply IH | now rewrite <- Hp].
  - apply StronglySorted_inv in Hs as [Hs Hy].
    apply StronglySorted_inv in Hs as [Hs Hx].
    apply Forall_cons_1 in Hy as [Hyx Hy].
    repeat constructor; auto.
Qed.

End SortedFacts.

Module CounterFacts.
Import Unused Vocab.

(** The keys of the tally after one more size: a size equal to a key
    is counted there, another size is a new key at the end. *)
Lemma bump_fst k d :
  map fst (Tally.bump Qeq_bool k d) =
  if List.existsb (Qeq_bool k) (map fst d) then map fst d
  else (map fst d ++ [k])%list.
Proof.
  induction d as [|[k' n] d IH]; simpl; [reflexivity|].
  destruct (Qeq_bool k k'); simpl; [reflexivity|]. rewrite IH.
  destruct (List.existsb _ _); reflexivity.
Qed.

Lemma existsb_Qeq k l :
  List.existsb (Qeq_bool k) l = true <-> exists k', In k' l /\ (k == k')%Q.
Proof.
  rewrite existsb_exists. split; intros (k' & Hin & E); exists k'; split; auto;
    now apply Qeq_bool_iff.
Qed.

Lemma differ_sym a b : differ a b -> differ b a.
Proof. unfold differ. intros H E. apply H. now symmetry. Qed.

Lemma differ_snoc l k :
  StronglySorted differ l -> (forall k', In k' l -> differ k' k) ->
  StronglySorted differ (l ++ [k]).
Proof.
  induction 1 as [|x l Hs IH Hx]; intros Hk; simpl; [repeat constructor|].
  constructor.
  - apply IH. intros k' Hk'. apply Hk. now right.
  - apply Forall_app. split; [exact Hx|]. repeat constructor. apply Hk. now left.
Qed.

(** The keys of the tally: different numbers, each a size, and every
    size among them. *)
Lemma tally_keys sizes : forall d,
  StronglySorted differ (map fst d) ->
  let keys := map fst (fold_left (fun d k => Tally.bump Qeq_bool k d) sizes d) in
  StronglySorted differ keys /\
  (forall k, In k keys -> In k (map fst d) \/ In k sizes) /\
  (forall k, In k (map fst d) -> In k keys) /\
  (forall s, In s sizes -> exists k, In k keys /\ (s == k)%Q).
Proof.
  induction sizes as [|s l IH]; intros d Hd; simpl.
  - repeat split; auto. intros s [].
  - assert (Hd' : StronglySorted differ (map fst (Tally.bump Qeq_bool s d))).
    { rewrite bump_fst. destruct (List.existsb _ _) eqn:E; [exact Hd|].
      apply differ_snoc; [exact Hd|]. intros k' Hk' Heq.
      assert (List.existsb (Qeq_bool s) (map fst d) = true); [|congruence].
      apply existsb_Qeq. exists k'. split; [exact Hk' | now symmetry]. }
    destruct (IH _ Hd') as (Hs & Hfrom & Hkeep & Hcover).
    assert (Hsub : forall k, In k (map fst d) ->
                             In k (map fst (Tally.bump Qeq_bool s d))).
    { intros k Hk. rewrite bump_fst. destruct (List.existsb _ _); [exact Hk|].
      apply in_or_app. now left. }
    repeat split; [exact Hs | | |].
    + intros k Hk. apply Hfrom in Hk as [Hk|Hk]; [|auto].
      rewrite bump_fst in Hk. destruct (List.existsb _ _); [auto|].
      apply in_app_or in Hk as [Hk|[<-|[]]]; auto.
    + intros k Hk. apply Hkeep, Hsub, Hk.
    + intros x [<-|Hx]; [|now apply Hcover].
      assert (Hin : exists k, In k (map fst (Tally.bump Qeq_bool s d)) /\ (s == k)%Q).
      { rewrite bump_fst. destruct (List.existsb _ _) eqn:E.
        - now apply existsb_Qeq.
        - exists s. split; [apply in_or_app; right; now left | reflexivity]. }
      destruct Hin as (k & Hk & Heq). exists k. split; [now apply Hkeep | exact Heq].
Qed.

Lemma key_lt_false x y : key_lt y x = false -> (y.1 <= x.1)%Q.
Proof.
  unfold key_lt. intros E. apply orb_false_iff in E as [E _].
  apply ClusterFacts.ltb_false_iff in E. lra.
Qed.

Lemma key_lt_asym x y : key_lt x y = true -> key_lt y x = false.
Proof.
  unfold key_lt. intros E. apply orb_true_iff in E as [E|E].
  - apply ClusterFacts.ltb_true_iff in E. apply orb_false_iff. split.
    + apply ClusterFacts.ltb_false_iff. lra.
    + destruct (Qeq_bool (- y.1) (- x.1)) eqn:Eq; [|reflexivity].
      apply Qeq_bool_iff in Eq. lra.
  - apply andb_true_iff in E as [Eq Ez]. apply Qeq_bool_iff in Eq.
    apply Z.ltb_lt in Ez. apply orb_false_iff. split.
    + apply ClusterFacts.ltb_false_iff. lra.
    + apply andb_false_iff. right. apply Z.ltb_ge. lia.
Qed.

Lemma key_lt_false_iff x y :
  key_lt y x = false <->
  (- x.1 < - y.1)%Q \/
  ((- x.1 == - y.1)%Q /\ (- Z.of_nat x.2 <= - Z.of_nat y.2)%Z).
Proof.
  unfold key_lt. rewrite orb_false_iff, andb_false_iff, ClusterFacts.ltb_false_iff.
  rewrite Z.ltb_ge. split.
  - intros [Hle [Hne|Hz]].
    + left. apply Qeq_bool_neq in Hne. apply Qnot_le_lt. intros Hle'.
      apply Hne. lra.
    + destruct (Qeq_bool (- y.1) (- x.1)) eqn:Eq.
      * apply Qeq_bool_iff in Eq. right. split; [lra | exact Hz].
      * apply Qeq_bool_neq in Eq. left. apply Qnot_le_lt. intros Hle'.
        apply Eq. lra.
  - intros [Hlt|[Heq Hz]].
    + split; [lra|]. left. destruct (Qeq_bool (- y.1) (- x.1)) eqn:Eq;
        [|reflexivity]. apply Qeq_bool_iff in Eq. lra.
    + split; [lra | now right].
Qed.

Lemma key_ge_trans x y z :
  key_lt y x = false -> key_lt z y = false -> key_lt z x = false.
Proof.
  rewrite !key_lt_false_iff. intros [H1|[H1 Z1]] [H2|[H2 Z2]].
  - left. lra.
  - left. lra.
  - left. lra.
  - right. split; [lra | lia].
Qed.

(** The sizes of the sorted tally: strictly descending. *)
Lemma sorted_counter_descending sizes :
  StronglySorted (fun a b => (b < a)%Q)
    (map fst (Sorting.sorted key_lt (Tally.tally Qeq_bool sizes))).
Proof.
  set (K := Tally.tally Qeq_bool sizes).
  destruct (tally_keys sizes [] (SSorted_nil _)) as (Hd & _).
  fold (Tally.tally Qeq_bool sizes) in Hd. fold K in Hd.
  assert (Hd' : StronglySorted differ (map fst (Sorting.sorted key_lt K))).
  { eapply SortedFacts.StronglySorted_perm; [apply differ_sym | | exact Hd].
    apply Permutation_map. symmetry. apply SortFacts.sorted_perm. }
  assert (Hs : StronglySorted (fun a b => (b <= a)%Q)
                 (map fst (Sorting.sorted key_lt K))).
  { apply (OutlineFacts.StronglySorted_map (fun a b => key_lt b a = false)).
    - intros a b. apply key_lt_false.
    - apply SortFacts.sorted_strongly; [apply key_lt_asym | apply key_ge_trans]. }
  eapply SortFacts.StronglySorted_weaken;
    [|exact (SortedFacts.StronglySorted_and _ _ _ Hs Hd')].
  intros a b [Hle Hne]. simpl in Hle. unfold differ in Hne.
  apply Qnot_le_lt. intros Hle'. apply Hne. lra.
Qed.

End CounterFacts.

(** X27: [cluster_font_sizes] returns the three largest of the
    different sizes, largest first (all of them when there are fewer):
    at most three sizes of the list, strictly descending, and every
    size of the list equals one of them or is smaller than all three.
    The counts, by which the comment says it chooses, play no role. *)
Theorem cluster_font_sizes_three_largest (sizes : list Q) :
  let clusters := Unused.cluster_font_sizes sizes in
  length clusters <= 3 /\
  StronglySorted (fun a b => (b < a)%Q) clusters /\
  (forall c, In c clusters -> In c sizes) /\
  (forall s, In s sizes ->
     (exists c, In c clusters /\ (s == c)%Q) \/
     (length clusters = 3 /\ forall c, In c clusters -> (s < c)%Q)).
Proof.
  unfold Unused.cluster_font_sizes.
  destruct sizes as [|s0 rest];
    [cbv zeta; repeat split; [simpl; lia | constructor | intros c [] | intros s []]|].
  set (sizes := s0 :: rest). cbv zeta.
  set (S := Sorting.sorted Unused.key_lt (Tally.tally Qeq_bool sizes)).
  pose proof (CounterFacts.sorted_counter_descending sizes) as Hdesc. fold S in Hdesc.
  destruct (CounterFacts.tally_keys sizes [] (SSorted_nil _))
    as (_ & Hfrom & _ & Hcover).
  fold (Tally.tally Qeq_bool sizes) in Hfrom, Hcover.
  assert (Hperm : Permutation (map fst S) (map fst (Tally.tally Qeq_bool sizes))).
  { apply Permutation_map, SortFacts.sorted_perm. }
  assert (Hsplit : map fst S = (map fst (take 3 S) ++ map fst (drop 3 S))%list).
  { now rewrite <- map_app, take_drop. }
  rewrite Hsplit in Hdesc.
  repeat split.
  - rewrite length_map, length_take. lia.
  - eapply SortedFacts.StronglySorted_app_l, Hdesc.
  - intros c Hc.
    assert (Hin : In c (map fst S)) by (rewrite Hsplit; apply in_or_app; now left).
    eapply Permutation_in in Hin; [|exact Hperm].
    apply Hfrom in Hin as [[]|Hin]. exact Hin.
  - intros s Hs. destruct (Hcover s Hs) as (k & Hk & Heq).
    eapply Permutation_in in Hk; [|symmetry; exact Hperm].
    rewrite Hsplit in Hk. apply in_app_or in Hk as [Hk|Hk].
    + left. exists k. auto.
    + right. split.
      * rewrite length_map, length_take.
        destruct (drop 3 S) as [|x xs] eqn:Ed; [destruct Hk|].
        assert (Hlen : length (drop 3 S) = Datatypes.S (length xs))
          by now rewrite Ed.
        rewrite length_drop in Hlen. lia.
      * intros c Hc.
        pose proof (SortedFacts.StronglySorted_app_pair _ _ _ c k Hdesc Hc Hk) as Hlt.
        simpl in Hlt. lra.
Qed.

Module LabelFacts.
Import Chars Re Classifier Unused Vocab.

Lemma rstrip_right_trimmed s : right_trimmed (Str.rstrip s).
Proof.
  induction s as [|c s IH]; [exact I|]. simpl.
  destruct (Str.rstrip s) as [|c' r].
  - destruct (is_space c) eqn:Ec; [exact I | exact Ec].
  - exact IH.
Qed.

Lemma to_lower_space c : is_space (to_lower c) = is_space c.
Proof. destruct c as [[] [] [] [] [] [] [] []]; reflexivity. Qed.

Lemma lower_right_trimmed s : right_trimmed s -> right_trimmed (Str.lower s).
Proof.
  induction s as [|c s IH]; [auto|]. destruct s as [|c' s'].
  - simpl. now rewrite to_lower_space.
  - intros Hs. apply IH in Hs. exact Hs.
Qed.

(** The text that the test reads does not end with white space. *)
Lemma label_text_right_trimmed text : right_trimmed (Str.lower (Str.strip text)).
Proof. apply lower_right_trimmed, rstrip_right_trimmed. Qed.

Ltac crunch :=
  repeat (cbn [accepts deriv nullable andb orb] in *;
          match goal with
          | H : context [if is_digit ?c then _ else _] |- _ =>
              destruct (is_digit c) eqn:?
          | H : context [if eqc ?a ?c then _ else _] |- _ =>
              destruct (eqc a c) eqn:?
          end).

Ltac settle :=
  repeat match goal with
         | H : eqc _ ?c = true |- _ => is_var c; apply Ascii.eqb_eq in H; subst c
         end;
  try match goal with
      | H : _ = true |- _ => vm_compute in H; discriminate H
      end;
  try match goal with
      | H : right_trimmed _ |- _ => exfalso; vm_compute in H; discriminate H
      end.

(** [^\d+\.$] on a trimmed text of at most three characters: one or
    two digits and the full stop. *)
Lemma number_label t :
  right_trimmed t -> String.length t <= 3 ->
  match_to_end (Cat (plus digit) (chr ".")) t = true ->
  (exists d, is_digit d = true /\ t = String d ".") \/
  (exists d1 d2, is_digit d1 = true /\ is_digit d2 = true /\
                 t = String d1 (String d2 ".")).
Proof.
  intros Hr Hlen. unfold match_to_end, dollar, opt, plus, digit, chr.
  destruct t as [|c1 [|c2 [|c3 [|c4 t]]]]; simpl in Hlen; try lia; intros Ha;
    crunch; try discriminate; settle;
    first [ left; exists c1; split; [assumption | reflexivity]
          | right; exists c1, c2; repeat split; assumption ].
Qed.

Lemma short_words t :
  In t FIELD_LABEL_WORDS -> String.length t < 5 ->
  In t ["date"; "rs."; "pay"; "name"].
Proof.
  unfold FIELD_LABEL_WORDS. simpl.
  intros Hin Hlen.
  repeat (destruct Hin as [<-|Hin]; [simpl in Hlen; try lia; tauto|]).
  destruct Hin.
Qed.

Lemma among_In t words : among t words = true <-> In t words.
Proof.
  unfold among. rewrite existsb_exists. split.
  - intros (w & Hw & E). apply String.eqb_eq in E. now subst.
  - intros Hin. exists t. split; [exact Hin | apply String.eqb_refl].
Qed.

End LabelFacts.

(** X28: [is_probable_field_label] reports exactly the texts that,
    trimmed and in lower case, read "date", "rs.", "pay" or "name", or
    are one or two digits and a full stop; the eight longer words of
    [FIELD_LABEL_WORDS] are never reported, because only texts of fewer
    than five characters are looked up. *)
Theorem field_label_iff_short_word_or_number (text : string) :
  Unused.is_probable_field_label text = true <->
  let t := Str.lower (Str.strip text) in
  In t ["date"; "rs."; "pay"; "name"] \/
  (exists d, Chars.is_digit d = true /\ t = String d ".") \/
  (exists d1 d2, Chars.is_digit d1 = true /\ Chars.is_digit d2 = true /\
                 t = String d1 (String d2 ".")).
Proof.
  unfold Unused.is_probable_field_label. cbv zeta.
  pose proof (LabelFacts.label_text_right_trimmed text) as Hr.
  set (t := Str.lower (Str.strip text)) in *. split.
  - destruct (Nat.ltb (String.length t) 5) eqn:El; [|discriminate].
    apply Nat.ltb_lt in El.
    destruct (Classifier.among t Unused.FIELD_LABEL_WORDS) eqn:Ea.
    + intros _. left. apply LabelFacts.among_In in Ea.
      now apply LabelFacts.short_words.
    + destruct (Re.match_to_end _ t) eqn:Em; [|discriminate]. simpl.
      destruct (Nat.leb (String.length t) 3) eqn:E3; [|discriminate].
      apply Nat.leb_le in E3. intros _. right.
      now apply LabelFacts.number_label.
  - intros [Hin|[(d & Hd & ->)|(d1 & d2 & Hd1 & Hd2 & ->)]].
    + assert (Ha : Classifier.among t Unused.FIELD_LABEL_WORDS = true).
      { apply LabelFacts.among_In. simpl in Hin. unfold Unused.FIELD_LABEL_WORDS.
        simpl. tauto. }
      rewrite Ha.
      assert (El : Nat.ltb (String.length t) 5 = true).
      { simpl in Hin. destruct Hin as [<-|[<-|[<-|[<-|[]]]]]; reflexivity. }
      now rewrite El.
    + change (Nat.ltb (String.length (String d ".")) 5) with true. cbv iota.
      destruct (Classifier.among _ _); [reflexivity|].
      unfold Re.match_to_end, Re.dollar, Re.opt, Re.plus, Classifier.digit, Re.chr.
      cbn [Re.accepts Re.deriv Re.nullable andb orb]. rewrite Hd. reflexivity.
    + change (Nat.ltb (String.length (String d1 (String d2 "."))) 5) with true.
      cbv iota. destruct (Classifier.among _ _); [reflexivity|].
      unfold Re.match_to_end, Re.dollar, Re.opt, Re.plus, Classifier.digit, Re.chr.
      cbn [Re.accepts Re.deriv Re.nullable andb orb]. rewrite Hd1.
      cbn [Re.accepts Re.deriv Re.nullable andb orb]. rewrite Hd2.
      destruct (Chars.eqc "." d2) eqn:E; [|reflexivity].
      apply Ascii.eqb_eq in E. subst d2. discriminate Hd2.
Qed.
